(** * TalentScout hiring assistant: extraction and phase control

    A shallow embedding of the conversational core of [app.py]
    ([CandidateInfo], [LLMHandler.extract_json], [ConversationHandler]
    and the per-message part of [main]) together with the properties
    the specification states about it.

    Conventions of the model.
    - A Python [str] is a [string]; the character predicates used by the
      regular expressions and by [lower], [strip] and [split] are the
      ASCII ones (the source's are Unicode aware; characters above 127
      are inert here: neither letters, digits nor white space).
    - Values decoded from the language model's JSON are dynamically
      typed in the source; they are [pyval] here and the operations the
      source applies to them raise the exception Python raises.
    - The JSON decoder returns a value or rejects the text with
      [JSONDecodeError].  What [json.loads] raises besides (a
      [ValueError] on an integer literal beyond the interpreter's digit
      limit, a [RecursionError] on a very deep nesting), and
      [extract_json] lets through, is not modelled.
    - [extract_candidate_info] mutates the profile it is given; it is a
      state-and-exception computation over [CandidateInfo], so that the
      profile left behind by a pass that raises is the partially updated
      one, as in the source.
    - [st.session_state] is the record [SessionState]; the calls made to
      the [DatabaseManager] are recorded in its [gateway] trace. *)

From Stdlib Require Import Bool Arith ZArith List Lia.
From Stdlib Require Import Ascii String.
Import ListNotations.

Local Open Scope string_scope.
Local Open Scope list_scope.

(** ** Python strings *)

Module PyStr.

Definition code (c : ascii) : nat := nat_of_ascii c.

Definition between (lo hi : nat) (c : ascii) : bool :=
  ((lo <=? code c)%nat && (code c <=? hi)%nat).

Definition is_upper (c : ascii) : bool := between 65 90 c.
Definition is_lower (c : ascii) : bool := between 97 122 c.
Definition is_alpha (c : ascii) : bool := is_upper c || is_lower c.
Definition is_digit (c : ascii) : bool := between 48 57 c.

(** [str.isspace] and the class [\s]: tab, line feed, vertical tab, form
    feed, carriage return, the four separators 28..31 and the space. *)
Definition is_space (c : ascii) : bool :=
  between 9 13 c || between 28 32 c.

(** The class [\w]. *)
Definition is_word (c : ascii) : bool :=
  is_alpha c || is_digit c || (code c =? 95)%nat.

Definition is_char (x : ascii) (c : ascii) : bool := Ascii.eqb x c.

Definition one_of (s : string) (c : ascii) : bool :=
  existsb (Ascii.eqb c) (list_ascii_of_string s).

Definition lower_char (c : ascii) : ascii :=
  if is_upper c then ascii_of_nat (code c + 32) else c.

(** [s.lower()] *)
Fixpoint lower (s : string) : string :=
  match s with
  | EmptyString => EmptyString
  | String c s' => String (lower_char c) (lower s')
  end.

Fixpoint lstrip (s : string) : string :=
  match s with
  | String c s' => if is_space c then lstrip s' else s
  | EmptyString => EmptyString
  end.

(** Drops trailing white space: a character is kept when something
    that is kept follows it or when it is not white space itself. *)
Fixpoint rstrip (s : string) : string :=
  match s with
  | EmptyString => EmptyString
  | String c s' =>
      match rstrip s' with
      | EmptyString => if is_space c then EmptyString else String c EmptyString
      | r => String c r
      end
  end.

(** [s.strip()] *)
Definition strip (s : string) : string := rstrip (lstrip s).

(** [s.split()]: the maximal runs of characters that are not white
    space.  [cur] is the token being read, reversed. *)
Fixpoint split_aux (s : string) (cur : list ascii) : list string :=
  let flush (rest : list string) :=
    match cur with
    | [] => rest
    | _ => string_of_list_ascii (rev cur) :: rest
    end in
  match s with
  | EmptyString => flush []
  | String c s' =>
      if is_space c then flush (split_aux s' []) else split_aux s' (c :: cur)
  end.

Definition split (s : string) : list string := split_aux s [].

(** [sub in s] *)
Fixpoint contains (sub s : string) : bool :=
  String.prefix sub s ||
  match s with
  | EmptyString => false
  | String _ s' => contains sub s'
  end.

(** [x in l] for a list of strings. *)
Definition mem (x : string) (l : list string) : bool :=
  existsb (String.eqb x) l.

(** [sep.join(l)] *)
Fixpoint join (sep : string) (l : list string) : string :=
  match l with
  | [] => ""
  | [x] => x
  | x :: rest => x ++ sep ++ join sep rest
  end.

(** The first [n] characters of [s]. *)
Definition take (n : nat) (s : string) : string := String.substring 0 n s.

End PyStr.

(** ** Regular expressions

    The fragment of Python's [re] that the source uses, with the
    engine's backtracking order: a repetition is greedy and gives back
    one character at a time, an alternation tries its left branch
    first, and [search] returns the match at the leftmost position
    where one exists.  Repetition is only ever applied to a character
    class in the source's patterns, and so it is here. *)

Module Re.

Inductive regex : Type :=
| Rep (cls : ascii -> bool) (lo : nat) (hi : option nat)
      (** [cls{lo,hi}]; [hi = None] is unbounded *)
| Lit (s : string)          (** the characters of [s], in order *)
| Bos                       (** [^] *)
| Eos                       (** [$]: at the end, or before a final line feed *)
| WordB                     (** [\b] *)
| Seq (r1 r2 : regex)
| Alt (r1 r2 : regex)
| Group (r : regex).        (** the capturing group 1 *)

Definition plus (cls : ascii -> bool) : regex := Rep cls 1 None.
Definition star (cls : ascii -> bool) : regex := Rep cls 0 None.
Definition opt (cls : ascii -> bool) : regex := Rep cls 0 (Some 1).

Fixpoint seq (rs : list regex) : regex :=
  match rs with
  | [] => Lit ""
  | [r] => r
  | r :: rest => Seq r (seq rest)
  end.

Section Matcher.

Variable R : Type.

(** A position is the character before it (if any) and the text
    after it.  The continuation receives the text of group 1, when
    that group has taken part in the match so far. *)
Definition cont : Type := option string -> option ascii -> string -> option R.

Fixpoint rep_match (cls : ascii -> bool) (lo : nat) (hi : option nat)
         (prev : option ascii) (s : string)
         (k : option ascii -> string -> option R) {struct s} : option R :=
  let stop := match lo with O => k prev s | S _ => None end in
  match hi with
  | Some O => stop
  | _ =>
      match s with
      | String c s' =>
          if cls c then
            match rep_match cls (Nat.pred lo) (option_map Nat.pred hi) (Some c) s' k with
            | Some r => Some r
            | None => stop
            end
          else stop
      | EmptyString => stop
      end
  end.

Fixpoint lit_match (l : string) (prev : option ascii) (s : string)
  : option (option ascii * string) :=
  match l with
  | EmptyString => Some (prev, s)
  | String a l' =>
      match s with
      | String c s' => if Ascii.eqb a c then lit_match l' (Some c) s' else None
      | EmptyString => None
      end
  end.

Definition wordy (c : option ascii) : bool :=
  match c with Some x => PyStr.is_word x | None => false end.

Definition next_char (s : string) : option ascii :=
  match s with String c _ => Some c | EmptyString => None end.

Definition at_end (s : string) : bool :=
  match s with
  | EmptyString => true
  | String c EmptyString => (PyStr.code c =? 10)%nat
  | _ => false
  end.

Definition consumed (s rest : string) : string :=
  PyStr.take (String.length s - String.length rest) s.

Fixpoint match_re (r : regex) (cap : option string) (prev : option ascii)
         (s : string) (k : cont) {struct r} : option R :=
  match r with
  | Rep cls lo hi => rep_match cls lo hi prev s (k cap)
  | Lit l =>
      match lit_match l prev s with
      | Some (prev', s') => k cap prev' s'
      | None => None
      end
  | Bos => match prev with None => k cap prev s | Some _ => None end
  | Eos => if at_end s then k cap prev s else None
  | WordB => if xorb (wordy prev) (wordy (next_char s)) then k cap prev s else None
  | Seq r1 r2 =>
      match_re r1 cap prev s (fun cap' prev' s' => match_re r2 cap' prev' s' k)
  | Alt r1 r2 =>
      match match_re r1 cap prev s k with
      | Some x => Some x
      | None => match_re r2 cap prev s k
      end
  | Group r1 =>
      match_re r1 cap prev s (fun _ prev' s' => k (Some (consumed s s')) prev' s')
  end.

End Matcher.

(** A match object: [group()] and [group(1)]. *)
Record Match : Type := { group0 : string; group1 : option string }.

Definition match_here (r : regex) (prev : option ascii) (s : string) : option Match :=
  match_re Match r None prev s
    (fun cap _ rest => Some {| group0 := consumed s rest; group1 := cap |}).

Fixpoint search_from (r : regex) (prev : option ascii) (s : string) : option Match :=
  match match_here r prev s with
  | Some m => Some m
  | None =>
      match s with
      | String c s' => search_from r (Some c) s'
      | EmptyString => None
      end
  end.

(** [re.search(r, s)] *)
Definition search (r : regex) (s : string) : option Match := search_from r None s.

(** [re.match(r, s)] *)
Definition match_ (r : regex) (s : string) : option Match := match_here r None s.

Definition found (m : option Match) : bool :=
  match m with Some _ => true | None => false end.

End Re.

(** ** Python values, exceptions and effects *)

(** A [float]: a finite binary fraction, an infinity or a NaN. *)
Inductive pyfloat : Type :=
| Finite (num : Z) (den : positive)
| Infinite
| NaN.

(** What [json.loads] can return, and [None]. *)
#[warnings="-register-all"] Inductive pyval : Type :=
| PNone
| PBool (b : bool)
| PInt (z : Z)
| PFloat (f : pyfloat)
| PStr (s : string)
| PList (l : list pyval)
| PDict (d : list (string * pyval)).

Inductive exn : Type :=
| AttributeError
| TypeError
| ValueError
| IndexError
| KeyError
| OverflowError
| StopException.   (** raised by [st.stop()] *)

(** [bool(v)] *)
Definition truthy (v : pyval) : bool :=
  match v with
  | PNone => false
  | PBool b => b
  | PInt z => negb (z =? 0)%Z
  | PFloat (Finite n _) => negb (n =? 0)%Z
  | PFloat _ => true
  | PStr s => negb (s =? "")
  | PList l => match l with [] => false | _ => true end
  | PDict d => match d with [] => false | _ => true end
  end.

Definition nonempty {A : Type} (l : list A) : bool :=
  match l with [] => false | _ => true end.

(** [d.get(k)] *)
Fixpoint dict_get (k : string) (d : list (string * pyval)) : pyval :=
  match d with
  | [] => PNone
  | (k', v) :: rest => if k =? k' then v else dict_get k rest
  end.

(** [k in d] *)
Definition dict_has (k : string) (d : list (string * pyval)) : bool :=
  existsb (fun kv => k =? fst kv) d.

(** [v == s] for a string [s] *)
Definition eq_str (v : pyval) (s : string) : bool :=
  match v with PStr t => t =? s | _ => false end.

(** [int(s)] on a string: surrounding white space, an optional sign and
    decimal digits, single underscores allowed between digits.  Around
    a numeral of ASCII characters [int] skips the white space of C's
    [isspace] (tab to carriage return and the space, not the separators
    28..31 that [str.strip] takes), and a numeral of more than 4300
    digits is refused (the interpreter's default limit): both are a
    [ValueError], here [None]. *)
Definition is_int_space (c : ascii) : bool :=
  PyStr.between 9 13 c || PyStr.is_char " " c.

Fixpoint int_lstrip (s : string) : string :=
  match s with
  | String c s' => if is_int_space c then int_lstrip s' else s
  | EmptyString => EmptyString
  end.

Fixpoint int_rstrip (s : string) : string :=
  match s with
  | EmptyString => EmptyString
  | String c s' =>
      match int_rstrip s' with
      | EmptyString => if is_int_space c then EmptyString else String c EmptyString
      | r => String c r
      end
  end.

Fixpoint count_digits (s : string) : Z :=
  match s with
  | EmptyString => 0
  | String c s' => ((if PyStr.is_digit c then 1 else 0) + count_digits s')%Z
  end.

Definition int_max_str_digits : Z := 4300.

Fixpoint int_body (s : string) (after_digit : bool) (acc : Z) : option Z :=
  match s with
  | EmptyString => if after_digit then Some acc else None
  | String c s' =>
      if PyStr.is_digit c then
        int_body s' true (10 * acc + Z.of_nat (PyStr.code c - 48))
      else if PyStr.is_char "_" c && after_digit then int_body s' false acc
      else None
  end.

Definition int_numeral (body : string) : option Z :=
  if (int_max_str_digits <? count_digits body)%Z then None
  else int_body body false 0.

Definition int_of_str (s : string) : option Z :=
  match int_rstrip (int_lstrip s) with
  | String "-" body => option_map Z.opp (int_numeral body)
  | String "+" body => int_numeral body
  | body => int_numeral body
  end.

(** [int(v)] *)
Definition py_int (v : pyval) : exn + Z :=
  match v with
  | PBool b => inr (if b then 1 else 0)%Z
  | PInt z => inr z
  | PFloat (Finite n d) => inr (Z.quot n (Zpos d))
  | PFloat Infinite => inl OverflowError
  | PFloat NaN => inl ValueError
  | PStr s => match int_of_str s with Some z => inr z | None => inl ValueError end
  | PNone | PList _ | PDict _ => inl TypeError
  end.

(** [len(v)] *)
Definition py_len (v : pyval) : exn + nat :=
  match v with
  | PStr s => inr (String.length s)
  | PList l => inr (List.length l)
  | PDict d => inr (List.length d)
  | _ => inl TypeError
  end.

(** [v[i]] for an index [i] that is not negative.  A dictionary decoded
    from JSON has string keys only, so an integer is never one of them. *)
Definition py_getitem (v : pyval) (i : nat) : exn + pyval :=
  match v with
  | PList l =>
      match nth_error l i with Some x => inr x | None => inl IndexError end
  | PStr s =>
      match String.get i s with
      | Some c => inr (PStr (String c EmptyString))
      | None => inl IndexError
      end
  | PDict _ => inl KeyError
  | _ => inl TypeError
  end.

(** State and exceptions.  The state a computation leaves is kept when
    it raises: the objects the source mutates stay mutated. *)
Definition M (S A : Type) : Type := S -> S * (exn + A).

Definition ret {S A : Type} (a : A) : M S A := fun s => (s, inr a).

Definition raise {S A : Type} (e : exn) : M S A := fun s => (s, inl e).

Definition bind {S A B : Type} (m : M S A) (f : A -> M S B) : M S B :=
  fun s =>
    match m s with
    | (s', inr a) => f a s'
    | (s', inl e) => (s', inl e)
    end.

Definition get {S : Type} : M S S := fun s => (s, inr s).

Definition modify {S : Type} (f : S -> S) : M S unit := fun s => (f s, inr tt).

(** Runs a computation on one component of the state. *)
Definition zoom {S T A : Type} (proj : S -> T) (upd : T -> S -> S) (m : M T A) : M S A :=
  fun s => let (t, r) := m (proj s) in (upd t s, r).

(** [if b: m] *)
Definition when {S : Type} (b : bool) (m : M S unit) : M S unit :=
  if b then m else ret tt.

Declare Scope py_scope.
Delimit Scope py_scope with py.
Notation "x <- m ;; k" := (bind m (fun x => k))
  (at level 100, m at next level, right associativity) : py_scope.
Notation "m ;; k" := (bind m (fun _ => k))
  (at level 100, right associativity) : py_scope.

(** What the model leaves open: the JSON decoder, [str.format] and the
    conversion of a value to text in an f-string, which are Python's,
    and the texts of the language manager for the language in use
    ([LanguageManager.get], a lookup by key in the table of
    [translations.py]). *)
Class Runtime : Type := {
  json_loads : string -> option pyval;      (** [None]: [JSONDecodeError] *)
  str_format : string -> list (string * pyval) -> string;
  py_str : pyval -> string;
  lang_get : string -> string
}.

(** ** The profile *)

Record CandidateInfo : Type := {
  full_name : pyval;
  email : pyval;
  phone : pyval;
  years_experience : option Z;
  desired_positions : list string;
  current_location : pyval;
  tech_stack : list string
}.

(** [CandidateInfo()] *)
Definition CandidateInfo_new : CandidateInfo :=
  {| full_name := PNone; email := PNone; phone := PNone;
     years_experience := None; desired_positions := [];
     current_location := PNone; tech_stack := [] |}.

Definition set_full_name (v : pyval) (c : CandidateInfo) : CandidateInfo :=
  {| full_name := v; email := email c; phone := phone c;
     years_experience := years_experience c;
     desired_positions := desired_positions c;
     current_location := current_location c; tech_stack := tech_stack c |}.

Definition set_email (v : pyval) (c : CandidateInfo) : CandidateInfo :=
  {| full_name := full_name c; email := v; phone := phone c;
     years_experience := years_experience c;
     desired_positions := desired_positions c;
     current_location := current_location c; tech_stack := tech_stack c |}.

Definition set_phone (v : pyval) (c : CandidateInfo) : CandidateInfo :=
  {| full_name := full_name c; email := email c; phone := v;
     years_experience := years_experience c;
     desired_positions := desired_positions c;
     current_location := current_location c; tech_stack := tech_stack c |}.

Definition set_years_experience (v : option Z) (c : CandidateInfo) : CandidateInfo :=
  {| full_name := full_name c; email := email c; phone := phone c;
     years_experience := v;
     desired_positions := desired_positions c;
     current_location := current_location c; tech_stack := tech_stack c |}.

Definition set_desired_positions (v : list string) (c : CandidateInfo) : CandidateInfo :=
  {| full_name := full_name c; email := email c; phone := phone c;
     years_experience := years_experience c;
     desired_positions := v;
     current_location := current_location c; tech_stack := tech_stack c |}.

Definition set_current_location (v : pyval) (c : CandidateInfo) : CandidateInfo :=
  {| full_name := full_name c; email := email c; phone := phone c;
     years_experience := years_experience c;
     desired_positions := desired_positions c;
     current_location := v; tech_stack := tech_stack c |}.

Definition set_tech_stack (v : list string) (c : CandidateInfo) : CandidateInfo :=
  {| full_name := full_name c; email := email c; phone := phone c;
     years_experience := years_experience c;
     desired_positions := desired_positions c;
     current_location := current_location c; tech_stack := v |}.

Definition is_some {A : Type} (o : option A) : bool :=
  match o with Some _ => true | None => false end.

(** [CandidateInfo.is_complete] *)
Definition is_complete (c : CandidateInfo) : bool :=
  forallb (fun b : bool => b)
    [ truthy (full_name c);
      truthy (email c);
      truthy (phone c);
      is_some (years_experience c);
      nonempty (desired_positions c);
      truthy (current_location c);
      nonempty (tech_stack c) ].

(** ** LLMHandler *)

Section Program.

Context {RT : Runtime}.

Definition any_char (_ : ascii) : bool := true.

(** [r'\{.*\}'] with [re.DOTALL] *)
Definition json_pattern : Re.regex :=
  Re.seq [Re.Lit "{"; Re.star any_char; Re.Lit "}"].

(** [LLMHandler.extract_json] *)
Definition extract_json (text : string) : option pyval :=
  match Re.search json_pattern text with
  | Some json_match => json_loads (Re.group0 json_match)
  | None => None
  end.

(** ** ConversationHandler *)

Definition end_keywords : list string :=
  ["exit"; "quit"; "stop"; "bye"; "goodbye"; "cancel"].

(** [ConversationHandler.should_end_conversation] *)
Definition should_end_conversation (message : string) : bool :=
  existsb (fun keyword => PyStr.contains keyword (PyStr.lower message)) end_keywords.

Definition alnum (c : ascii) : bool := PyStr.is_alpha c || PyStr.is_digit c.

(** [r'\b[A-Za-z0-9._%+-]+@[A-Za-z0-9.-]+\.[A-Z|a-z]{2,}\b'] *)
Definition email_pattern : Re.regex :=
  Re.seq [ Re.WordB;
           Re.plus (fun c => alnum c || PyStr.one_of "._%+-" c);
           Re.Lit "@";
           Re.plus (fun c => alnum c || PyStr.one_of ".-" c);
           Re.Lit ".";
           Re.Rep (fun c => PyStr.is_alpha c || PyStr.is_char "|" c) 2 None;
           Re.WordB ].

Definition phone_sep (c : ascii) : bool := PyStr.one_of "-." c || PyStr.is_space c.

(** [r'[\+]?[(]?[0-9]{1,4}[)]?[-\s\.]?[(]?[0-9]{1,4}[)]?[-\s\.]?[0-9]{1,5}[-\s\.]?[0-9]{1,5}'] *)
Definition phone_pattern : Re.regex :=
  Re.seq [ Re.opt (PyStr.is_char "+");
           Re.opt (PyStr.is_char "(");
           Re.Rep PyStr.is_digit 1 (Some 4);
           Re.opt (PyStr.is_char ")");
           Re.opt phone_sep;
           Re.opt (PyStr.is_char "(");
           Re.Rep PyStr.is_digit 1 (Some 4);
           Re.opt (PyStr.is_char ")");
           Re.opt phone_sep;
           Re.Rep PyStr.is_digit 1 (Some 5);
           Re.opt phone_sep;
           Re.Rep PyStr.is_digit 1 (Some 5) ].

(** [r'(\d+)\s*(?:years?|yrs?)'] *)
Definition years_pattern : Re.regex :=
  Re.seq [ Re.Group (Re.plus PyStr.is_digit);
           Re.star PyStr.is_space;
           Re.Alt (Re.Seq (Re.Lit "year") (Re.opt (PyStr.is_char "s")))
                  (Re.Seq (Re.Lit "yr") (Re.opt (PyStr.is_char "s"))) ].

(** [r"^[A-Za-z\s\-']+$"] *)
Definition name_pattern : Re.regex :=
  Re.seq [ Re.Bos;
           Re.plus (fun c => PyStr.is_alpha c || PyStr.is_space c || PyStr.one_of "-'" c);
           Re.Eos ].

(** [r"^[A-Za-z\s\-,\.]+$"] *)
Definition location_pattern : Re.regex :=
  Re.seq [ Re.Bos;
           Re.plus (fun c => PyStr.is_alpha c || PyStr.is_space c || PyStr.one_of "-,." c);
           Re.Eos ].

(** [r'\b' + re.escape(indicator) + r'\b'] for a word of letters *)
Definition indicator_pattern (indicator : string) : Re.regex :=
  Re.seq [Re.WordB; Re.Lit indicator; Re.WordB].

Definition position_keywords : list string :=
  [ "tester"; "developer"; "engineer"; "analyst"; "manager"; "designer";
    "architect"; "consultant"; "specialist"; "lead"; "programmer";
    "administrator"; "devops"; "qa"; "scientist"; "intern"; "associate" ].

Definition position_indicators : list string := position_keywords.

(** *** The heuristic extractors (lines 383-447) *)

Definition heuristic_email (message : string) (c : CandidateInfo) : CandidateInfo :=
  let email_match := Re.search email_pattern message in
  match email_match with
  | Some m =>
      if negb (truthy (email c)) then set_email (PStr (Re.group0 m)) c else c
  | None => c
  end.

Definition heuristic_phone (message : string) (c : CandidateInfo) : CandidateInfo :=
  let phone_match := Re.search phone_pattern message in
  match phone_match with
  | Some m =>
      if negb (truthy (phone c)) && (10 <=? String.length (Re.group0 m))%nat
      then set_phone (PStr (Re.group0 m)) c
      else c
  | None => c
  end.

Definition heuristic_years (message : string) (c : CandidateInfo) : CandidateInfo :=
  let years_match := Re.search years_pattern (PyStr.lower message) in
  match years_match with
  | Some m =>
      if negb (is_some (years_experience c)) then
        match Re.group1 m with
        | Some digits =>
            match int_of_str digits with
            | Some n => set_years_experience (Some n) c
            | None => c                      (* except ValueError: pass *)
            end
        | None => c
        end
      else c
  | None => c
  end.

Definition heuristic_name (message : string) (c : CandidateInfo) : CandidateInfo :=
  if negb (truthy (full_name c)) && (List.length (PyStr.split message) <=? 3)%nat then
    if Re.found (Re.match_ name_pattern (PyStr.strip message)) then
      let potential_name := PyStr.strip message in
      if negb (PyStr.mem (PyStr.lower potential_name) position_keywords)
      then set_full_name (PStr potential_name) c
      else c
    else c
  else c.

(** The [missing_fields] list of the location heuristic. *)
Definition location_missing_fields (c : CandidateInfo) : list string :=
  (if negb (truthy (full_name c)) then ["name"] else []) ++
  (if negb (truthy (email c)) then ["email"] else []) ++
  (if negb (truthy (phone c)) then ["phone"] else []) ++
  (if negb (is_some (years_experience c)) then ["experience"] else []) ++
  (if negb (nonempty (desired_positions c)) then ["positions"] else []) ++
  (if negb (nonempty (tech_stack c)) then ["tech"] else []).

Definition heuristic_location (message : string) (c : CandidateInfo) : CandidateInfo :=
  if negb (truthy (current_location c)) && (List.length (PyStr.split message) <=? 3)%nat then
    if Re.found (Re.match_ location_pattern (PyStr.strip message)) then
      let potential_location := PyStr.strip message in
      if negb (PyStr.mem (PyStr.lower potential_location) position_keywords)
         && negb (eq_str (full_name c) potential_location)
      then
        let missing_fields := location_missing_fields c in
        if (List.length missing_fields <=? 1)%nat
        then set_current_location (PStr potential_location) c
        else c
      else c
    else c
  else c.

(** *** Merging the language model's answer (lines 462-509) *)

(** [if extracted.get(key) and not current_info.<field>: current_info.<field> = extracted[key]] *)
Definition merge_scalar (extracted : list (string * pyval)) (key : string)
           (field : CandidateInfo -> pyval)
           (set_field : pyval -> CandidateInfo -> CandidateInfo)
  : M CandidateInfo unit :=
  (c <- get ;;
   when (truthy (dict_get key extracted) && negb (truthy (field c)))
        (modify (set_field (dict_get key extracted))))%py.

Definition merge_years (extracted : list (string * pyval)) : M CandidateInfo unit :=
  (c <- get ;;
   match dict_get "years_experience" extracted with
   | PNone => ret tt
   | v =>
       if negb (is_some (years_experience c)) then
         match py_int v with
         | inr n => modify (set_years_experience (Some n))
         | inl ValueError | inl TypeError => ret tt     (* except (ValueError, TypeError): pass *)
         | inl e => raise e
         end
       else ret tt
   end)%py.

(** [for pos in positions: if pos.lower() not in existing_lower: current.append(pos)];
    [existing_lower] is computed once, before the loop.  Only a string
    has the method [lower]: on any other value the call raises. *)
Fixpoint append_unseen (existing_lower : list string) (items : list pyval)
  : M (list string) unit :=
  match items with
  | [] => ret tt
  | PStr pos :: rest =>
      (when (negb (PyStr.mem (PyStr.lower pos) existing_lower))
            (modify (fun current => current ++ [pos])) ;;
       append_unseen existing_lower rest)%py
  | _ :: _ => raise AttributeError
  end.

Definition merge_list_value (v : pyval) : M (list string) unit :=
  match v with
  | PList items =>
      (current <- get ;;
       let existing_lower := map PyStr.lower current in
       append_unseen existing_lower items)%py
  | PStr single =>
      (current <- get ;;
       when (negb (PyStr.mem (PyStr.lower single) (map PyStr.lower current)))
            (modify (fun current => current ++ [single])))%py
  | _ => raise AttributeError
  end.

Definition merge_list (extracted : list (string * pyval)) (key : string)
           (field : CandidateInfo -> list string)
           (set_field : list string -> CandidateInfo -> CandidateInfo)
  : M CandidateInfo unit :=
  when (truthy (dict_get key extracted))
       (zoom field set_field (merge_list_value (dict_get key extracted))).

Definition merge_extracted (extracted : option pyval) : M CandidateInfo unit :=
  match extracted with
  | Some e =>
      if truthy e then
        match e with
        | PDict d =>
            (merge_scalar d "full_name" full_name set_full_name ;;
             merge_scalar d "email" email set_email ;;
             merge_scalar d "phone" phone set_phone ;;
             merge_years d ;;
             merge_list d "desired_positions" desired_positions set_desired_positions ;;
             merge_scalar d "current_location" current_location set_current_location ;;
             merge_list d "tech_stack" tech_stack set_tech_stack)%py
        | _ => raise AttributeError        (* [extracted.get] on a value that is no dict *)
        end
      else ret tt
  | None => ret tt
  end.

(** *** The position fallback (lines 511-531) *)

Fixpoint fallback_loop (message message_lower : string) (indicators : list string)
         (c : CandidateInfo) : CandidateInfo :=
  match indicators with
  | [] => c
  | indicator :: rest =>
      if Re.found (Re.search (indicator_pattern indicator) message_lower) then
        let position_to_add := PyStr.strip message in
        if negb (position_to_add =? "") && (String.length position_to_add <? 50)%nat
        then set_desired_positions (desired_positions c ++ [position_to_add]) c
        else c                                                  (* break *)
      else fallback_loop message message_lower rest c
  end.

Definition position_fallback (message : string) (c : CandidateInfo) : CandidateInfo :=
  if (negb (nonempty (desired_positions c))
      || (List.length (desired_positions c) =? 0)%nat)
     && negb (truthy (full_name c))
  then fallback_loop message (PyStr.lower message) position_indicators c
  else c.

(** [ConversationHandler.extract_candidate_info].  [response] is what
    [self.llm.generate_response] returned for the extraction prompt.
    The profile is updated in place; the value returned is that same
    profile. *)
Definition extract_candidate_info (message response : string) : M CandidateInfo unit :=
  (modify (heuristic_email message) ;;
   modify (heuristic_phone message) ;;
   modify (heuristic_years message) ;;
   modify (heuristic_name message) ;;
   modify (heuristic_location message) ;;
   merge_extracted (extract_json response) ;;
   modify (position_fallback message))%py.

End Program.

(** ** The session

    [st.session_state], restricted to the keys the conversation uses,
    and the trace of the calls made to the [DatabaseManager]. *)

Inductive Phase : Type := Greeting | InfoGathering | TechnicalQuestions | Completed.

Inductive Role : Type := Assistant | User.

Inductive UpdateField : Type := UpdLocation | UpdEmail | UpdPhone.

(** A call to the persistence gateway.  [CreateOrUpdateCandidate]
    carries the profile as it was when the call was made and the id the
    call returned ([None] when it raised).  The other calls have no
    result the session looks at; they are recorded as made. *)
Inductive DbCall : Type :=
| CreateOrUpdateCandidate (profile : CandidateInfo) (returned : option Z)
| SaveConversationLog (cid : Z) (role : Role) (content : string)
| SaveTechnicalQuestions (cid : Z) (questions : pyval)
| SaveTechnicalAnswer (cid : Z) (question_index : Z) (answer : string).

Record SessionState : Type := {
  messages : list (Role * string);
  candidate_info : CandidateInfo;
  phase : Phase;
  technical_questions : pyval;
  current_question_index : nat;
  conversation_started : bool;
  candidate_id : option Z;
  last_technical_answer : option string;
  pending_update : bool;
  update_field : option UpdateField;
  gateway : list DbCall
}.

Definition set_messages (v : list (Role * string)) (s : SessionState) : SessionState :=
  {| messages := v; candidate_info := candidate_info s; phase := phase s;
     technical_questions := technical_questions s;
     current_question_index := current_question_index s;
     conversation_started := conversation_started s;
     candidate_id := candidate_id s;
     last_technical_answer := last_technical_answer s;
     pending_update := pending_update s; update_field := update_field s;
     gateway := gateway s |}.

Definition set_candidate_info (v : CandidateInfo) (s : SessionState) : SessionState :=
  {| messages := messages s; candidate_info := v; phase := phase s;
     technical_questions := technical_questions s;
     current_question_index := current_question_index s;
     conversation_started := conversation_started s;
     candidate_id := candidate_id s;
     last_technical_answer := last_technical_answer s;
     pending_update := pending_update s; update_field := update_field s;
     gateway := gateway s |}.

Definition set_phase (v : Phase) (s : SessionState) : SessionState :=
  {| messages := messages s; candidate_info := candidate_info s; phase := v;
     technical_questions := technical_questions s;
     current_question_index := current_question_index s;
     conversation_started := conversation_started s;
     candidate_id := candidate_id s;
     last_technical_answer := last_technical_answer s;
     pending_update := pending_update s; update_field := update_field s;
     gateway := gateway s |}.

Definition set_technical_questions (v : pyval) (s : SessionState) : SessionState :=
  {| messages := messages s; candidate_info := candidate_info s;
     phase := phase s; technical_questions := v;
     current_question_index := current_question_index s;
     conversation_started := conversation_started s;
     candidate_id := candidate_id s;
     last_technical_answer := last_technical_answer s;
     pending_update := pending_update s; update_field := update_field s;
     gateway := gateway s |}.

Definition set_current_question_index (v : nat) (s : SessionState) : SessionState :=
  {| messages := messages s; candidate_info := candidate_info s;
     phase := phase s; technical_questions := technical_questions s;
     current_question_index := v;
     conversation_started := conversation_started s;
     candidate_id := candidate_id s;
     last_technical_answer := last_technical_answer s;
     pending_update := pending_update s; update_field := update_field s;
     gateway := gateway s |}.

Definition set_conversation_started (v : bool) (s : SessionState) : SessionState :=
  {| messages := messages s; candidate_info := candidate_info s;
     phase := phase s; technical_questions := technical_questions s;
     current_question_index := current_question_index s;
     conversation_started := v; candidate_id := candidate_id s;
     last_technical_answer := last_technical_answer s;
     pending_update := pending_update s; update_field := update_field s;
     gateway := gateway s |}.

Definition set_candidate_id (v : option Z) (s : SessionState) : SessionState :=
  {| messages := messages s; candidate_info := candidate_info s;
     phase := phase s; technical_questions := technical_questions s;
     current_question_index := current_question_index s;
     conversation_started := conversation_started s; candidate_id := v;
     last_technical_answer := last_technical_answer s;
     pending_update := pending_update s; update_field := update_field s;
     gateway := gateway s |}.

Definition set_last_technical_answer (v : option string) (s : SessionState) : SessionState :=
  {| messages := messages s; candidate_info := candidate_info s;
     phase := phase s; technical_questions := technical_questions s;
     current_question_index := current_question_index s;
     conversation_started := conversation_started s;
     candidate_id := candidate_id s; last_technical_answer := v;
     pending_update := pending_update s; update_field := update_field s;
     gateway := gateway s |}.

Definition set_pending_update (v : bool) (s : SessionState) : SessionState :=
  {| messages := messages s; candidate_info := candidate_info s;
     phase := phase s; technical_questions := technical_questions s;
     current_question_index := current_question_index s;
     conversation_started := conversation_started s;
     candidate_id := candidate_id s;
     last_technical_answer := last_technical_answer s; pending_update := v;
     update_field := update_field s; gateway := gateway s |}.

Definition set_update_field (v : option UpdateField) (s : SessionState) : SessionState :=
  {| messages := messages s; candidate_info := candidate_info s;
     phase := phase s; technical_questions := technical_questions s;
     current_question_index := current_question_index s;
     conversation_started := conversation_started s;
     candidate_id := candidate_id s;
     last_technical_answer := last_technical_answer s;
     pending_update := pending_update s; update_field := v;
     gateway := gateway s |}.

Definition set_gateway (v : list DbCall) (s : SessionState) : SessionState :=
  {| messages := messages s; candidate_info := candidate_info s;
     phase := phase s; technical_questions := technical_questions s;
     current_question_index := current_question_index s;
     conversation_started := conversation_started s;
     candidate_id := candidate_id s;
     last_technical_answer := last_technical_answer s;
     pending_update := pending_update s; update_field := update_field s;
     gateway := v |}.

(** [init_session_state] *)
Definition init_session_state : SessionState :=
  {| messages := [];
     candidate_info := CandidateInfo_new;
     phase := Greeting;
     technical_questions := PList [];
     current_question_index := 0;
     conversation_started := false;
     candidate_id := None;
     last_technical_answer := None;
     pending_update := false;
     update_field := None;
     gateway := [] |}.

(** What one run of the script receives from outside: the message typed
    into [st.chat_input] (if any), the language model's replies to the
    prompts the run may send, and the results of the gateway calls that
    the session depends on. *)
Record Inputs : Type := {
  prompt : option string;
  llm_extraction : string;       (** reply to the extraction prompt *)
  llm_questions : string;        (** reply to the technical-questions prompt *)
  llm_next_question : string;    (** reply to the next-question prompt *)
  db_candidate : option Z;       (** [create_or_update_candidate]: the id, [None] when it raises *)
  db_answer_saved : bool         (** [save_technical_answer] returns, or raises *)
}.

Definition nl : string := String (ascii_of_nat 10) EmptyString.

(** [if v:] for an id, an answer *)
Definition truthy_id (o : option Z) : option Z :=
  match o with
  | Some z => if (z =? 0)%Z then None else Some z
  | None => None
  end.

Definition truthy_text (o : option string) : option string :=
  match o with
  | Some t => if t =? "" then None else Some t
  | None => None
  end.

Definition phase_eqb (a b : Phase) : bool :=
  match a, b with
  | Greeting, Greeting | InfoGathering, InfoGathering
  | TechnicalQuestions, TechnicalQuestions | Completed, Completed => true
  | _, _ => false
  end.

(** Raises what a partial operation raised. *)
Definition lift {S A : Type} (r : exn + A) : M S A :=
  match r with inr a => ret a | inl e => raise e end.

Section Controller.

Context {RT : Runtime}.

(** *** ConversationHandler, continued *)

(** [ConversationHandler.get_missing_info] *)
Definition get_missing_info (c : CandidateInfo) : list string :=
  (if negb (truthy (full_name c)) then ["full name"] else []) ++
  (if negb (truthy (email c)) then ["email address"] else []) ++
  (if negb (truthy (phone c)) then ["phone number"] else []) ++
  (if negb (is_some (years_experience c)) then ["years of experience"] else []) ++
  (if negb (nonempty (desired_positions c)) then ["desired position(s)"] else []) ++
  (if negb (truthy (current_location c)) then ["current location"] else []) ++
  (if negb (nonempty (tech_stack c)) then ["tech stack"] else []).

Definition question_map : list (string * string) :=
  [ ("full name", "next_name");
    ("email address", "next_email");
    ("phone number", "next_phone");
    ("years of experience", "next_experience");
    ("desired position(s)", "next_position");
    ("current location", "next_location");
    ("tech stack", "next_tech_stack") ].

Fixpoint assoc_default (k : string) (l : list (string * string)) (default : string) : string :=
  match l with
  | [] => default
  | (k', v) :: rest => if k =? k' then v else assoc_default k rest default
  end.

(** [LanguageManager.format_next_question] *)
Definition format_next_question (field : string) : string :=
  lang_get (assoc_default field question_map "next_name").

(** [LanguageManager.format_tech_intro] *)
Definition format_tech_intro (name : pyval) (tech : list string) : string :=
  let template := lang_get "tech_questions_intro" in
  let tech_stack_str :=
    if nonempty tech then PyStr.join ", " tech else "your technologies" in
  str_format template [("name", name); ("tech_stack", PStr tech_stack_str)].

(** [LanguageManager.format_question] *)
Definition format_question (current total : nat) : string :=
  str_format (lang_get "question_format")
    [("current", PInt (Z.of_nat current)); ("total", PInt (Z.of_nat total))].

(** [ConversationHandler.generate_next_question]; [reply] is the
    language model's answer to the next-question prompt.  [None] is
    Python's [None]. *)
Definition generate_next_question (c : CandidateInfo) (reply : string) : option string :=
  let missing := get_missing_info c in
  match missing with
  | [] => None
  | [field] => Some (format_next_question field)
  | _ => Some reply
  end.

(** The three questions used when the reply gives none. *)
Definition fallback_questions (c : CandidateInfo) : pyval :=
  PList
    [ PStr ("Can you describe your experience with "
            ++ match tech_stack c with
               | first :: _ => first
               | [] => "your primary technology"
               end
            ++ "?");
      PStr "What's the most challenging technical problem you've solved recently?";
      PStr "How do you stay updated with new technologies in your field?" ].

(** [ConversationHandler.generate_technical_questions]; [response] is
    the language model's answer to the technical-questions prompt. *)
Definition generate_technical_questions (c : CandidateInfo) (response : string) : pyval :=
  let questions := extract_json response in
  match questions with
  | Some (PList l) => PList l
  | Some (PDict d) =>
      if dict_has "questions" d then dict_get "questions" d
      else fallback_questions c
  | _ => fallback_questions c
  end.

(** [ConversationHandler.generate_farewell] *)
Definition generate_farewell : string := lang_get "farewell".

(** *** Persistence helpers *)

Definition log_call (call : DbCall) (s : SessionState) : SessionState :=
  set_gateway (gateway s ++ [call]) s.

Definition append_message (role : Role) (content : string) (s : SessionState)
  : SessionState :=
  set_messages (messages s ++ [(role, content)]) s.

(** [save_candidate_to_db] *)
Definition save_candidate_to_db (inp : Inputs) : M SessionState unit :=
  (s <- get ;;
   modify (log_call (CreateOrUpdateCandidate (candidate_info s) (db_candidate inp))) ;;
   match db_candidate inp with
   | Some id => modify (set_candidate_id (Some id))
   | None => ret tt                      (* except: logged, [None] returned *)
   end)%py.

(** [save_message_to_db] *)
Definition save_message_to_db (role : Role) (content : string) : M SessionState unit :=
  (s <- get ;;
   match truthy_id (candidate_id s) with
   | Some cid => modify (log_call (SaveConversationLog cid role content))
   | None => ret tt
   end)%py.

(** *** main: one run of the script *)

(** Lines 925-934. *)
Definition start_conversation : M SessionState unit :=
  (s <- get ;;
   when (negb (conversation_started s))
     (let greeting := lang_get "greeting" in
      modify (append_message Assistant greeting) ;;
      modify (set_conversation_started true) ;;
      save_message_to_db Assistant greeting))%py.

(** Lines 944-954. *)
Definition flush_technical_answer (inp : Inputs) : M SessionState unit :=
  (s <- get ;;
   match truthy_text (last_technical_answer s), truthy_id (candidate_id s) with
   | Some answer, Some cid =>
       modify (log_call (SaveTechnicalAnswer cid
                 (Z.of_nat (current_question_index s) - 1) answer)) ;;
       when (db_answer_saved inp) (modify (set_last_technical_answer None))
   | _, _ => ret tt
   end)%py.

Definition update_keywords : list string :=
  ["update"; "change"; "modify"; "correct"; "edit"].

Definition info_keywords : list string :=
  ["location"; "email"; "phone"; "name"; "position"; "tech stack"].

Definition any_keyword (keywords : list string) (text : string) : bool :=
  existsb (fun keyword => PyStr.contains keyword (PyStr.lower text)) keywords.

Definition is_update_request (text : string) : bool :=
  any_keyword update_keywords text && any_keyword info_keywords text.

(** Lines 965-976. *)
Definition capture_technical_answer (text : string) : M SessionState unit :=
  (s <- get ;;
   when (phase_eqb (phase s) TechnicalQuestions && is_some (truthy_id (candidate_id s)))
     (when (negb (is_update_request text) && negb (pending_update s))
        (modify (set_last_technical_answer (Some text)))))%py.

(** Lines 978-989. *)
Definition check_end_keywords (text : string) : M SessionState unit :=
  when (should_end_conversation text)
    (let farewell := generate_farewell in
     modify (append_message Assistant farewell) ;;
     save_message_to_db Assistant farewell ;;
     modify (set_phase Completed) ;;
     raise StopException)%py.

(** The extraction applied to the profile of the session: the profile
    object is shared, so its changes are the session's. *)
Definition extract_in_session (text response : string) : M SessionState unit :=
  zoom candidate_info set_candidate_info (extract_candidate_info text response).

(** Lines 994-1041. *)
Definition info_branch (inp : Inputs) (text : string) : M SessionState string :=
  (extract_in_session text (llm_extraction inp) ;;
   save_candidate_to_db inp ;;
   s <- get ;;
   response <-
     (if is_complete (candidate_info s) then
        modify (set_phase TechnicalQuestions) ;;
        let questions :=
          generate_technical_questions (candidate_info s) (llm_questions inp) in
        modify (set_technical_questions questions) ;;
        match truthy_id (candidate_id s) with
        | Some cid => modify (log_call (SaveTechnicalQuestions cid questions))
        | None => ret tt
        end ;;
        let intro :=
          format_tech_intro (full_name (candidate_info s)) (tech_stack (candidate_info s)) in
        total <- lift (py_len questions) ;;
        first <- lift (py_getitem questions 0) ;;
        let response :=
          (intro ++ nl ++ nl ++ "**" ++ format_question 1 total ++ "**" ++ nl
                 ++ py_str first)%string in
        modify (set_current_question_index 0) ;;
        ret response
      else
        match generate_next_question (candidate_info s) (llm_next_question inp) with
        | Some response =>
            modify (set_phase InfoGathering) ;;
            ret response
        | None =>
            (* Nothing is missing only when the profile is complete. *)
            modify (set_phase InfoGathering) ;;
            raise TypeError
        end) ;;
   modify (append_message Assistant response) ;;
   save_message_to_db Assistant response ;;
   ret response)%py.

(** The numbered question at the current index, after [heading]. *)
Definition present_question (heading : string) : M SessionState string :=
  (s <- get ;;
   total <- lift (py_len (technical_questions s)) ;;
   question <- lift (py_getitem (technical_questions s) (current_question_index s)) ;;
   ret (heading ++ nl ++ nl ++ "**"
          ++ format_question (current_question_index s + 1) total ++ "**" ++ nl
          ++ py_str question)%string)%py.

(** Lines 1051-1068. *)
Definition update_request_branch (text : string) : M SessionState string :=
  (modify (set_pending_update true) ;;
   modify (set_update_field None) ;;
   if PyStr.contains "location" (PyStr.lower text) then
     modify (set_update_field (Some UpdLocation)) ;;
     ret (lang_get "update_location")
   else if PyStr.contains "email" (PyStr.lower text) then
     modify (set_update_field (Some UpdEmail)) ;;
     ret (lang_get "update_email")
   else if PyStr.contains "phone" (PyStr.lower text) then
     modify (set_update_field (Some UpdPhone)) ;;
     ret (lang_get "update_phone")
   else ret (lang_get "update_request"))%py.

Definition in_profile (f : CandidateInfo -> CandidateInfo) (s : SessionState)
  : SessionState :=
  set_candidate_info (f (candidate_info s)) s.

(** Lines 1078-1091: the field named in the request is overwritten
    from the reply; without a named field the extracted profile, which
    is the session's own, is kept. *)
Definition overwrite_field (field : option UpdateField) (text : string)
           (c : CandidateInfo) : CandidateInfo :=
  match field with
  | Some UpdLocation => set_current_location (PStr (PyStr.strip text)) c
  | Some UpdEmail =>
      match Re.search email_pattern text with
      | Some email_match => set_email (PStr (Re.group0 email_match)) c
      | None => c
      end
  | Some UpdPhone =>
      match Re.search phone_pattern text with
      | Some phone_match =>
          if (10 <=? String.length (Re.group0 phone_match))%nat
          then set_phone (PStr (Re.group0 phone_match)) c
          else c
      | None => c
      end
  | None => c
  end.

(** Lines 1070-1102. *)
Definition update_value_branch (inp : Inputs) (text : string) : M SessionState string :=
  (modify (set_pending_update false) ;;
   extract_in_session text (llm_extraction inp) ;;
   s <- get ;;
   modify (in_profile (overwrite_field (update_field s) text)) ;;
   save_candidate_to_db inp ;;
   response <- present_question (lang_get "update_confirmed") ;;
   modify (set_update_field None) ;;
   ret response)%py.

(** Lines 1104-1116.  The listing of [main] ends inside the summary
    that follows the farewell; the branch is followed up to the value
    of [response]. *)
Definition answer_branch : M SessionState string :=
  (modify (fun s => set_current_question_index (current_question_index s + 1) s) ;;
   s <- get ;;
   total <- lift (py_len (technical_questions s)) ;;
   if (current_question_index s <? total)%nat then
     present_question (lang_get "thank_you_answer")
   else
     modify (set_phase Completed) ;;
     ret generate_farewell)%py.

(** Lines 1043-1116. *)
Definition technical_branch (inp : Inputs) (text : string) : M SessionState string :=
  (s <- get ;;
   let wants_to_update := any_keyword update_keywords text in
   let mentions_info := any_keyword info_keywords text in
   if wants_to_update && mentions_info then update_request_branch text
   else if pending_update s then update_value_branch inp text
   else answer_branch)%py.

(** Lines 991-1116: the branch of the current phase. *)
Definition dispatch (inp : Inputs) (text : string) : M SessionState (option string) :=
  (s <- get ;;
   match phase s with
   | Greeting | InfoGathering =>
       response <- info_branch inp text ;; ret (Some response)
   | TechnicalQuestions =>
       response <- technical_branch inp text ;; ret (Some response)
   | Completed => ret None
   end)%py.

(** Lines 957-1116: the run's work on a message.  The value is the
    [response] of the branch taken, if one was. *)
Definition handle_prompt (inp : Inputs) (text : string) : M SessionState (option string) :=
  (modify (append_message User text) ;;
   save_message_to_db User text ;;
   capture_technical_answer text ;;
   check_end_keywords text ;;
   dispatch inp text)%py.

(** One run of [main], from the greeting on.  The sidebar (language,
    voice, reset) and the rendering are not part of the model, and the
    API key is taken to be configured. *)
Definition main (inp : Inputs) : M SessionState (option string) :=
  (start_conversation ;;
   flush_technical_answer inp ;;
   match truthy_text (prompt inp) with
   | Some text => handle_prompt inp text
   | None => ret None
   end)%py.

(** The session after a run, and what the run ended with. *)
Definition after (inp : Inputs) (s : SessionState) : SessionState := fst (main inp s).
Definition outcome (inp : Inputs) (s : SessionState) : exn + option string :=
  snd (main inp s).

End Controller.

(** ** The progress bar

    [calculate_progress] of [app.py] and what [create_minimal_progress]
    of [live_UI.py] computes from it: the percentage shown, the class
    of each segment and the check mark of each field.  The numbers are
    Python's floats, here the primitive binary64 numbers. *)

From Stdlib Require Floats.

Section Progress.

Import PrimFloat SpecFloat.

Definition float_of_nat (n : nat) : float :=
  of_uint63 (Uint63.of_Z (Z.of_nat n)).

(** [int(x)] for a float: the integer part of a finite number; [None]
    where Python raises (an infinity, a NaN). *)
Definition int_of_float (x : float) : option Z :=
  match FloatOps.Prim2SF x with
  | S754_zero _ => Some 0%Z
  | S754_finite negative m e =>
      let magnitude :=
        if (0 <=? e)%Z then (Zpos m * 2 ^ e)%Z else (Zpos m / 2 ^ (- e))%Z in
      Some (if negative then (- magnitude)%Z else magnitude)
  | S754_infinity _ | S754_nan => None
  end.

(** The [fields] list of [calculate_progress], each as [if field]
    reads it. *)
Definition progress_fields (c : CandidateInfo) : list bool :=
  [ truthy (full_name c);
    truthy (email c);
    truthy (phone c);
    is_some (years_experience c);
    (0 <? List.length (desired_positions c))%nat;
    truthy (current_location c);
    (0 <? List.length (tech_stack c))%nat ].

(** [calculate_progress] *)
Definition calculate_progress (c : CandidateInfo) : float :=
  let fields := progress_fields c in
  let completed := List.length (filter (fun field : bool => field) fields) in
  mul (div (float_of_nat completed) (float_of_nat (List.length fields)))
      (float_of_nat 100).

Inductive Segment : Type := Filled | Filling | Unfilled.

(** The [fields] of [create_minimal_progress]: the name shown under an
    item and the attribute of the profile it stands for (the icons are
    left out). *)
Definition indicator_fields : list (string * string) :=
  [ ("Name", "full_name");
    ("Email", "email");
    ("Phone", "phone");
    ("Experience", "years_experience");
    ("Position", "desired_positions");
    ("Location", "current_location");
    ("Tech Stack", "tech_stack") ].

Record ProgressBar : Type := {
  percentage : Z;                      (** the number before the percent sign *)
  segment_classes : list Segment;      (** one per segment, left to right *)
  checkmarks : list (string * bool)    (** per item: its name, and whether it is
                                           completed and carries the check mark *)
}.

(** The [is_completed] of an item, by the attribute it stands for. *)
Definition is_completed (field : string) (c : CandidateInfo) : bool :=
  if field =? "full_name" then truthy (full_name c)
  else if field =? "email" then truthy (email c)
  else if field =? "phone" then truthy (phone c)
  else if field =? "years_experience" then is_some (years_experience c)
  else if field =? "desired_positions" then (0 <? List.length (desired_positions c))%nat
  else if field =? "current_location" then truthy (current_location c)
  else if field =? "tech_stack" then (0 <? List.length (tech_stack c))%nat
  else false.

Definition segment_class (filled_segments : Z) (i : nat) : Segment :=
  if (Z.of_nat i <? filled_segments)%Z then Filled
  else if (Z.of_nat i =? filled_segments)%Z then Filling
  else Unfilled.

(** [create_minimal_progress]; [None] when a conversion to [int]
    raises.  Without a profile every item is shown and none is
    completed. *)
Definition create_minimal_progress (progress : float) (segments : nat)
           (candidate_info : option CandidateInfo) : option ProgressBar :=
  match int_of_float (mul (div progress (float_of_nat 100)) (float_of_nat segments)),
        int_of_float progress with
  | Some filled_segments, Some shown =>
      Some {| percentage := shown;
              segment_classes := map (segment_class filled_segments) (seq 0 segments);
              checkmarks :=
                match candidate_info with
                | Some c => map (fun item => (fst item, is_completed (snd item) c))
                                indicator_fields
                | None => map (fun item => (fst item, false)) indicator_fields
                end |}
  | _, _ => None
  end.

End Progress.

(** ** The database

    [DatabaseManager] of [database.py] over the four tables of
    [init_database], each a list of rows in the order of insertion.

    Conventions of the model.
    - A cell holds the value that was bound to the statement: [NULL], an
      integer, a real or a text.  The text that a column of type TEXT
      makes of a number is not spelled out: the number stands for it.
      A list column holds the list whose JSON text is stored, or [NULL].
    - The timestamps are left out, and with them the queries that sort
      by them.
    - The ids are those of AUTOINCREMENT: one more than the largest id
      of the table.  Rows are never deleted, so this is the largest id
      there ever was.
    - A method that raises leaves its connection open; what the
      database is for the calls that follow depends on when the
      interpreter closes it, and the model ends there: the result of
      such a call is [None].  A method that catches its exceptions
      nevertheless has a result. *)

Module DatabaseManager.

Inductive sqlval : Type :=
| SqlNull
| SqlInteger (z : Z)
| SqlReal (f : pyfloat)
| SqlText (s : string).

Definition int64 (z : Z) : bool :=
  (- 2 ^ 63 <=? z)%Z && (z <? 2 ^ 63)%Z.

(** The value [sqlite3] binds for a Python value; [None] where it
    raises (an integer out of range, a list, a dictionary).  A NaN is
    bound as [NULL]. *)
Definition bind_value (v : pyval) : option sqlval :=
  match v with
  | PNone => Some SqlNull
  | PBool b => Some (SqlInteger (if b then 1 else 0))
  | PInt z => if int64 z then Some (SqlInteger z) else None
  | PFloat NaN => Some SqlNull
  | PFloat f => Some (SqlReal f)
  | PStr s => Some (SqlText s)
  | PList _ | PDict _ => None
  end.

Definition bind_integer (z : Z) : option Z :=
  if int64 z then Some z else None.

Definition bind_optional_integer (o : option Z) : option (option Z) :=
  match o with
  | Some z => option_map Some (bind_integer z)
  | None => Some None
  end.

(** A value for a column that is NOT NULL. *)
Definition not_null (cell : option sqlval) : option sqlval :=
  match cell with
  | Some SqlNull => None
  | other => other
  end.

(** The columns of a candidate that hold the profile. *)
Record Profile : Type := {
  stored_full_name : sqlval;
  stored_email : sqlval;
  stored_phone : sqlval;
  stored_years_experience : option Z;
  stored_desired_positions : option (list string);
  stored_current_location : sqlval;
  stored_tech_stack : option (list string)
}.

Record Candidate : Type := {
  candidate_row_id : Z;
  session_id : string;
  profile : Profile
}.

Record Question : Type := {
  question_row_id : Z;
  question_candidate_id : Z;
  question_index : Z;
  question : sqlval
}.

Record Answer : Type := {
  answer_row_id : Z;
  answer_candidate_id : Z;
  question_id : Z;
  answer : string
}.

Record Log : Type := {
  log_row_id : Z;
  log_candidate_id : Z;
  role : Role;
  content : string
}.

Record Database : Type := {
  candidates : list Candidate;
  technical_questions : list Question;
  technical_answers : list Answer;
  conversation_logs : list Log
}.

(** [init_database] on a new file. *)
Definition init_database : Database :=
  {| candidates := []; technical_questions := [];
     technical_answers := []; conversation_logs := [] |}.

(** [cursor.lastrowid] of an insertion into a table whose ids are [ids]. *)
Definition lastrowid (ids : list Z) : Z :=
  (1 + fold_right Z.max 0 ids)%Z.

(** [json.dumps(l) if l else None] *)
Definition dumps_or_null (l : list string) : option (list string) :=
  if nonempty l then Some l else None.

(** The profile as it is bound to the UPDATE and to the INSERT of
    [create_or_update_candidate]; [None] where a value cannot be bound. *)
Definition bind_profile (c : CandidateInfo) : option Profile :=
  match bind_value (full_name c), bind_value (email c), bind_value (phone c),
        bind_optional_integer (years_experience c), bind_value (current_location c) with
  | Some name, Some mail, Some number, Some years, Some location =>
      Some {| stored_full_name := name;
              stored_email := mail;
              stored_phone := number;
              stored_years_experience := years;
              stored_desired_positions := dumps_or_null (desired_positions c);
              stored_current_location := location;
              stored_tech_stack := dumps_or_null (tech_stack c) |}
  | _, _, _, _, _ => None
  end.

(** [SELECT ... FROM candidates WHERE session_id = ?], [fetchone] *)
Definition find_candidate (session : string) (db : Database) : option Candidate :=
  find (fun row => session_id row =? session) (candidates db).

Definition set_candidates (rows : list Candidate) (db : Database) : Database :=
  {| candidates := rows; technical_questions := technical_questions db;
     technical_answers := technical_answers db;
     conversation_logs := conversation_logs db |}.

Definition set_technical_questions (rows : list Question) (db : Database) : Database :=
  {| candidates := candidates db; technical_questions := rows;
     technical_answers := technical_answers db;
     conversation_logs := conversation_logs db |}.

Definition set_technical_answers (rows : list Answer) (db : Database) : Database :=
  {| candidates := candidates db; technical_questions := technical_questions db;
     technical_answers := rows; conversation_logs := conversation_logs db |}.

Definition set_conversation_logs (rows : list Log) (db : Database) : Database :=
  {| candidates := candidates db; technical_questions := technical_questions db;
     technical_answers := technical_answers db; conversation_logs := rows |}.

(** [UPDATE candidates SET ... WHERE session_id = ?] *)
Definition update_candidate (session : string) (cells : Profile) (row : Candidate)
  : Candidate :=
  if session_id row =? session
  then {| candidate_row_id := candidate_row_id row;
          session_id := session_id row;
          profile := cells |}
  else row.

(** [create_or_update_candidate]: the id of the row and the database
    after the commit. *)
Definition create_or_update_candidate (session : string) (candidate_info : CandidateInfo)
           (db : Database) : option (Z * Database) :=
  let existing := find_candidate session db in
  match bind_profile candidate_info with
  | Some cells =>
      match existing with
      | Some found =>
          let candidate_id := candidate_row_id found in
          Some (candidate_id,
                set_candidates (map (update_candidate session cells) (candidates db)) db)
      | None =>
          let candidate_id := lastrowid (map candidate_row_id (candidates db)) in
          Some (candidate_id,
                set_candidates
                  (candidates db ++
                   [{| candidate_row_id := candidate_id;
                       session_id := session;
                       profile := cells |}])
                  db)
      end
  | None => None
  end.

(** What [enumerate(questions)] goes through: the items of a list, the
    characters of a text, the keys of a dictionary; [None] where the
    value cannot be iterated. *)
Definition py_iter (v : pyval) : option (list pyval) :=
  match v with
  | PList items => Some items
  | PStr s => Some (map (fun c => PStr (String c EmptyString)) (list_ascii_of_string s))
  | PDict d => Some (map (fun kv => PStr (fst kv)) d)
  | _ => None
  end.

(** The loop of [save_technical_questions] from [index] on: the rows
    of the table and the ids so far. *)
Fixpoint insert_questions (candidate_id : Z) (index : Z) (items : list pyval)
         (rows : list Question) (question_ids : list Z)
  : option (list Z * list Question) :=
  match items with
  | [] => Some (question_ids, rows)
  | item :: rest =>
      match bind_integer candidate_id, bind_integer index, not_null (bind_value item) with
      | Some bound_id, Some bound_index, Some cell =>
          let row_id := lastrowid (map question_row_id rows) in
          insert_questions candidate_id (index + 1) rest
            (rows ++ [{| question_row_id := row_id;
                         question_candidate_id := bound_id;
                         question_index := bound_index;
                         question := cell |}])
            (question_ids ++ [row_id])
      | _, _, _ => None
      end
  end.

(** [save_technical_questions] *)
Definition save_technical_questions (candidate_id : Z) (questions : pyval) (db : Database)
  : option (list Z * Database) :=
  match py_iter questions with
  | Some items =>
      match insert_questions candidate_id 0 items (technical_questions db) [] with
      | Some (question_ids, rows) => Some (question_ids, set_technical_questions rows db)
      | None => None
      end
  | None => None
  end.

(** [SELECT id FROM technical_questions WHERE candidate_id = ? AND
    question_index = ?], [fetchone]: the first such row in the order of
    the ids, which is the order in which the index on the candidate
    lists them. *)
Definition find_question (candidate_id index : Z) (db : Database) : option Question :=
  find (fun row => (question_candidate_id row =? candidate_id)%Z
                   && (question_index row =? index)%Z)
       (technical_questions db).

(** [save_technical_answer]: the id of the answer, or Python's [None]
    when there is no such question. *)
Definition save_technical_answer (candidate_id question_index : Z) (answer : string)
           (db : Database) : option (option Z * Database) :=
  match bind_integer candidate_id, bind_integer question_index with
  | Some bound_id, Some bound_index =>
      match find_question bound_id bound_index db with
      | None => Some (None, db)
      | Some result =>
          let question_id := question_row_id result in
          let answer_id := lastrowid (map answer_row_id (technical_answers db)) in
          Some (Some answer_id,
                set_technical_answers
                  (technical_answers db ++
                   [{| answer_row_id := answer_id;
                       answer_candidate_id := bound_id;
                       question_id := question_id;
                       answer := answer |}])
                  db)
      end
  | _, _ => None
  end.

(** [save_conversation_log]: an exception is logged and dropped. *)
Definition save_conversation_log (candidate_id : Z) (role : Role) (content : string)
           (db : Database) : Database :=
  match bind_integer candidate_id with
  | Some bound_id =>
      set_conversation_logs
        (conversation_logs db ++
         [{| log_row_id := lastrowid (map log_row_id (conversation_logs db));
             log_candidate_id := bound_id;
             role := role;
             content := content |}])
        db
  | None => db
  end.

(** [get_candidate_by_session]: the row, its list columns decoded. *)
Definition get_candidate_by_session (session : string) (db : Database) : option Candidate :=
  find_candidate session db.

End DatabaseManager.

(** * Properties *)

(** ** Vocabulary of the statements *)

(** [stable R m]: from every state, [m] leaves a state related to it by
    [R], whether it returns or raises. *)
Definition stable {S : Type} (R : S -> S -> Prop) {A : Type} (m : M S A) : Prop :=
  forall s, R s (fst (m s)).

(** A scalar that is set keeps its value. *)
Definition kept (old new : pyval) : Prop := truthy old = true -> new = old.

Definition kept_years (old new : option Z) : Prop :=
  is_some old = true -> new = old.

(** A list only has entries added at its end. *)
Definition extended (old new : list string) : Prop := exists added, new = old ++ added.

(** How an extraction pass may change the profile. *)
Record advances (c c' : CandidateInfo) : Prop := {
  adv_full_name : kept (full_name c) (full_name c');
  adv_email : kept (email c) (email c');
  adv_phone : kept (phone c) (phone c');
  adv_years : kept_years (years_experience c) (years_experience c');
  adv_location : kept (current_location c) (current_location c');
  adv_positions : extended (desired_positions c) (desired_positions c');
  adv_tech : extended (tech_stack c) (tech_stack c')
}.

(** The profile after a sequence of extraction passes, each given as
    the message and the language model's reply to it. *)
Fixpoint extract_all {RT : Runtime} (turns : list (string * string)) (c : CandidateInfo)
  : CandidateInfo :=
  match turns with
  | [] => c
  | (message, response) :: rest =>
      extract_all rest (fst (extract_candidate_info message response c))
  end.

(** No two entries equal when compared without regard to case. *)
Definition distinct_ignoring_case (l : list string) : Prop :=
  NoDup (map PyStr.lower l).

(** Completeness as the specification words it: every scalar is not
    null and both lists are not empty. *)
Definition all_non_null (c : CandidateInfo) : Prop :=
  full_name c <> PNone /\ email c <> PNone /\ phone c <> PNone /\
  years_experience c <> None /\ current_location c <> PNone /\
  desired_positions c <> [] /\ tech_stack c <> [].

(** Completeness as the code decides it: a text field has to be set to
    something that is not empty. *)
Definition populated (c : CandidateInfo) : Prop :=
  truthy (full_name c) = true /\ truthy (email c) = true /\
  truthy (phone c) = true /\ years_experience c <> None /\
  truthy (current_location c) = true /\
  desired_positions c <> [] /\ tech_stack c <> [].

(** *** Sample data *)

Definition dq : string := String (ascii_of_nat 34) EmptyString.

(** A JSON string literal. *)
Definition js (s : string) : string := dq ++ s ++ dq.

(** A profile with every field set. *)
Definition sample_profile : CandidateInfo :=
  {| full_name := PStr "Asha Rao";
     email := PStr "asha@example.com";
     phone := PStr "+91 98765-43210";
     years_experience := Some 0%Z;
     desired_positions := ["Backend Developer"];
     current_location := PStr "Pune";
     tech_stack := ["Python"; "SQL"] |}.

(** The same profile with an empty name. *)
Definition nameless_profile : CandidateInfo := set_full_name (PStr "") sample_profile.

(** A reply that names every field again, with other values. *)
Definition other_reply : string :=
  "{" ++ js "full_name" ++ ": " ++ js "Someone Else" ++ ", "
      ++ js "email" ++ ": " ++ js "else@example.org" ++ ", "
      ++ js "phone" ++ ": " ++ js "000 000 0000" ++ ", "
      ++ js "years_experience" ++ ": 7, "
      ++ js "current_location" ++ ": " ++ js "Oslo" ++ "}".

Definition other_reply_value : pyval :=
  PDict [ ("full_name", PStr "Someone Else");
          ("email", PStr "else@example.org");
          ("phone", PStr "000 000 0000");
          ("years_experience", PInt 7);
          ("current_location", PStr "Oslo") ].

(** A reply that lists one technology twice, in two spellings. *)
Definition twice_reply : string :=
  "{" ++ js "tech_stack" ++ ": [" ++ js "Python" ++ ", " ++ js "python" ++ "]}".

Definition twice_reply_value : pyval :=
  PDict [("tech_stack", PList [PStr "Python"; PStr "python"])].

(** A reply that adds a technology. *)
Definition rust_reply : string :=
  "{" ++ js "tech_stack" ++ ": [" ++ js "Rust" ++ "]}".

Definition rust_reply_value : pyval := PDict [("tech_stack", PList [PStr "Rust"])].

(** A reply with an empty question list. *)
Definition no_questions_reply : string := "{" ++ js "questions" ++ ": []}".

Definition no_questions_value : pyval := PDict [("questions", PList [])].

(** A reply that is a JSON array of three questions. *)
Definition array_reply : string :=
  "[" ++ js "What is a closure?" ++ ", " ++ js "What does an index do?" ++ ", "
      ++ js "How do you test a service?" ++ "]".

Definition array_reply_value : pyval :=
  PList [ PStr "What is a closure?"; PStr "What does an index do?";
          PStr "How do you test a service?" ].

(** A decoder that knows the sample replies and rejects everything else. *)
Definition sample_loads (text : string) : option pyval :=
  if text =? other_reply then Some other_reply_value
  else if text =? twice_reply then Some twice_reply_value
  else if text =? rust_reply then Some rust_reply_value
  else if text =? no_questions_reply then Some no_questions_value
  else if text =? array_reply then Some array_reply_value
  else None.

(** A runtime for running the model on the samples: texts are looked up
    under their key and templates are left as they are. *)
Definition sample_runtime : Runtime :=
  {| json_loads := sample_loads;
     str_format := fun template _ => template;
     py_str := fun v => match v with PStr s => s | _ => "" end;
     lang_get := fun key => key |}.

(** The five heuristic extractors in the order [extract_candidate_info]
    applies them. *)
Definition heuristics (message : string) (c : CandidateInfo) : CandidateInfo :=
  heuristic_location message
    (heuristic_name message
       (heuristic_years message
          (heuristic_phone message
             (heuristic_email message c)))).

(** What the steps of a run that precede the branch of the phase leave
    alone: they add to the message list and to the gateway trace and
    may set or clear the answer awaiting storage, nothing else. *)
Record same_flow (s s' : SessionState) : Prop := {
  sf_phase : phase s' = phase s;
  sf_questions : technical_questions s' = technical_questions s;
  sf_index : current_question_index s' = current_question_index s;
  sf_pending : pending_update s' = pending_update s;
  sf_field : update_field s' = update_field s;
  sf_profile : candidate_info s' = candidate_info s;
  sf_id : candidate_id s' = candidate_id s
}.

(** The condition under which lines 965-976 take the message for the
    answer to a technical question. *)
Definition takes_answer (text : string) (s : SessionState) : bool :=
  phase_eqb (phase s) TechnicalQuestions && is_some (truthy_id (candidate_id s))
  && negb (is_update_request text) && negb (pending_update s).

(** The run did not take its message for an answer: the answer awaiting
    storage is the one there was, or none. *)
Definition not_captured (s s' : SessionState) : Prop :=
  last_technical_answer s' = last_technical_answer s \/
  last_technical_answer s' = None.

Definition sample_questions : pyval :=
  PList [ PStr "What is a closure?"; PStr "What does an index do?";
          PStr "How do you test a service?" ].

(** A session in the middle of the interview: the second of three
    questions is pending. *)
Definition interview_session : SessionState :=
  {| messages := [];
     candidate_info := sample_profile;
     phase := TechnicalQuestions;
     technical_questions := sample_questions;
     current_question_index := 1;
     conversation_started := true;
     candidate_id := Some 1%Z;
     last_technical_answer := None;
     pending_update := false;
     update_field := None;
     gateway := [] |}.

(** A run on the message [text] during which the language model says
    [reply] to the extraction prompt and the gateway answers. *)
Definition say (text reply : string) : Inputs :=
  {| prompt := Some text;
     llm_extraction := reply;
     llm_questions := "";
     llm_next_question := "Could you tell me more?";
     db_candidate := Some 1%Z;
     db_answer_saved := true |}.

(** A run without a message. *)
Definition rerun : Inputs :=
  {| prompt := None;
     llm_extraction := "";
     llm_questions := "";
     llm_next_question := "";
     db_candidate := Some 1%Z;
     db_answer_saved := true |}.

(** The session after the runs [inps], in order. *)
Fixpoint run_all {RT : Runtime} (inps : list Inputs) (s : SessionState) : SessionState :=
  match inps with
  | [] => s
  | inp :: rest => run_all rest (after inp s)
  end.


(** A reply whose technologies are a number. *)
Definition number_reply : string := "{" ++ js "tech_stack" ++ ": 5}".

Definition number_reply_value : pyval := PDict [("tech_stack", PInt 5)].

(** The sample runtime with a decoder that also knows [number_reply]. *)
Definition number_runtime : Runtime :=
  {| json_loads := fun text =>
       if text =? number_reply then Some number_reply_value else sample_loads text;
     str_format := fun template _ => template;
     py_str := fun v => match v with PStr s => s | _ => "" end;
     lang_get := fun key => key |}.

(** The profile field an update request names. *)
Definition field_value (field : UpdateField) (c : CandidateInfo) : pyval :=
  match field with
  | UpdLocation => current_location c
  | UpdEmail => email c
  | UpdPhone => phone c
  end.

(** The reply to an update request holds nothing the branch accepts for
    the field: no e-mail address, or no phone number of ten characters
    or more at the first place the phone pattern matches. *)
Definition no_usable_match (field : UpdateField) (text : string) : Prop :=
  match field with
  | UpdLocation => False
  | UpdEmail => Re.search email_pattern text = None
  | UpdPhone =>
      match Re.search phone_pattern text with
      | Some phone_match => String.length (Re.group0 phone_match) < 10
      | None => True
      end
  end.

(** The interview session, waiting for a new e-mail address. *)
Definition awaiting_email : SessionState :=
  set_update_field (Some UpdEmail) (set_pending_update true interview_session).

(** The gateway trace only has calls added at its end. *)
Definition grows (s s' : SessionState) : Prop :=
  exists calls, gateway s' = gateway s ++ calls.

(** What the handling of an update value leaves alone once the pending
    update is cleared: question set, question index, phase, the answer
    awaiting storage and the flag itself. *)
Definition same_question (s s' : SessionState) : Prop :=
  technical_questions s' = technical_questions s /\
  current_question_index s' = current_question_index s /\
  phase s' = phase s /\
  last_technical_answer s' = last_technical_answer s /\
  pending_update s' = pending_update s.

(** A question is pending: the index is below the number of questions. *)
Definition question_pending (s : SessionState) : Prop :=
  exists n, py_len (technical_questions s) = inr n /\ current_question_index s < n.

(** No message of the user has been added to the transcript held by the
    gateway. *)
Definition no_new_user_log (s s' : SessionState) : Prop :=
  forall cid content,
    In (SaveConversationLog cid User content) (gateway s') ->
    In (SaveConversationLog cid User content) (gateway s).

(** ** Sessions of several runs *)

(** The order in which a conversation goes through its phases. *)
Definition phase_rank (p : Phase) : nat :=
  match p with
  | Greeting => 0
  | InfoGathering => 1
  | TechnicalQuestions => 2
  | Completed => 3
  end.

(** The steps of every run that come before the message is looked at
    (lines 925-954). *)
Definition opening {RT : Runtime} (inp : Inputs) : M SessionState unit :=
  (start_conversation ;; flush_technical_answer inp)%py.

(** The steps of a run on the message [text] that come before the
    check for end keywords (lines 925-976). *)
Definition prelude {RT : Runtime} (inp : Inputs) (text : string) : M SessionState unit :=
  (opening inp ;;
   modify (append_message User text) ;;
   save_message_to_db User text ;;
   capture_technical_answer text)%py.

(** The question set is the same and the index has not gone down. *)
Definition interview_forward (s s' : SessionState) : Prop :=
  technical_questions s' = technical_questions s /\
  current_question_index s <= current_question_index s'.

(** The phase is the one it was, or a phase the information branch
    sets. *)
Definition info_step (s s' : SessionState) : Prop :=
  phase s' = phase s \/ phase s' = InfoGathering \/ phase s' = TechnicalQuestions.

(** The phase is the one it was, or the conversation is completed. *)
Definition closing_step (s s' : SessionState) : Prop :=
  phase s' = phase s \/ phase s' = Completed.

(** A session whose conversation is over. *)
Definition finished_session : SessionState := set_phase Completed interview_session.

(** The profile is the one it was and it has not been written to the
    database again. *)
Definition profile_untouched (s s' : SessionState) : Prop :=
  candidate_info s' = candidate_info s /\
  forall profile returned,
    In (CreateOrUpdateCandidate profile returned) (gateway s') ->
    In (CreateOrUpdateCandidate profile returned) (gateway s).

(** The session after [save_candidate_to_db]: the call is made, and the
    id it returned is kept. *)
Definition saved (inp : Inputs) (s : SessionState) : SessionState :=
  let logged :=
    log_call (CreateOrUpdateCandidate (candidate_info s) (db_candidate inp)) s in
  match db_candidate inp with
  | Some id => set_candidate_id (Some id) logged
  | None => logged
  end.

(** Phase, profile, question set and question index are the ones they
    were. *)
Definition same_stage (s s' : SessionState) : Prop :=
  phase s' = phase s /\ candidate_info s' = candidate_info s /\
  technical_questions s' = technical_questions s /\
  current_question_index s' = current_question_index s.

(** Phase, profile and question set are the ones they were. *)
Definition same_entry (s s' : SessionState) : Prop :=
  phase s' = phase s /\ candidate_info s' = candidate_info s /\
  technical_questions s' = technical_questions s.

(** A profile with everything but the technologies. *)
Definition no_tech_profile : CandidateInfo := set_tech_stack [] sample_profile.

(** A session that is gathering information, with everything but the
    technologies known. *)
Definition gathering_session : SessionState :=
  {| messages := [];
     candidate_info := no_tech_profile;
     phase := InfoGathering;
     technical_questions := PList [];
     current_question_index := 0;
     conversation_started := true;
     candidate_id := Some 1%Z;
     last_technical_answer := None;
     pending_update := false;
     update_field := None;
     gateway := [] |}.

(** The interview session, waiting for a new location. *)
Definition awaiting_location : SessionState :=
  set_update_field (Some UpdLocation) (set_pending_update true interview_session).

(** Index, answer awaiting storage and candidate id are the ones they
    were. *)
Definition same_answer (s s' : SessionState) : Prop :=
  current_question_index s' = current_question_index s /\
  last_technical_answer s' = last_technical_answer s /\
  candidate_id s' = candidate_id s.

(** The profile has only moved forward, as under an extraction pass. *)
Definition profile_advances (s s' : SessionState) : Prop :=
  advances (candidate_info s) (candidate_info s').

(** ** What an extraction pass can raise *)






(** A text of ASCII characters: on these the character classes, [lower],
    [strip] and [split] of the model are those of the source. *)
Definition is_ascii (s : string) : bool :=
  forallb (fun c => (PyStr.code c <? 128)%nat) (list_ascii_of_string s).


(** ** The progress bar *)

(** The number of check marks of a bar. *)
Definition ticks (bar : ProgressBar) : nat :=
  List.length (filter snd (checkmarks bar)).

(** The label under which [get_missing_info] lists the field that the
    item of this name stands for. *)
Definition missing_label (name : string) : string :=
  if name =? "Name" then "full name"
  else if name =? "Email" then "email address"
  else if name =? "Phone" then "phone number"
  else if name =? "Experience" then "years of experience"
  else if name =? "Position" then "desired position(s)"
  else if name =? "Location" then "current location"
  else if name =? "Tech Stack" then "tech stack"
  else "".

(** The check marks that agree with a list of missing fields: the seven
    items in their order, each marked exactly when the label of its
    field is not in the list. *)
Definition marks_of_missing (missing : list string) : list (string * bool) :=
  map (fun item => (fst item, negb (PyStr.mem (missing_label (fst item)) missing)))
      indicator_fields.

Definition is_filled (segment : Segment) : bool :=
  match segment with Filled => true | _ => false end.

(** The number of filled segments of a bar. *)
Definition filled (bar : ProgressBar) : nat :=
  List.length (filter is_filled (segment_classes bar)).

(** ** The database *)

Definition candidate_ids (db : DatabaseManager.Database) : list Z :=
  map DatabaseManager.candidate_row_id (DatabaseManager.candidates db).

Definition sessions (db : DatabaseManager.Database) : list string :=
  map DatabaseManager.session_id (DatabaseManager.candidates db).

(** The keys of the candidates table as the schema declares them: no
    id and no session id twice, and the ids from 1 on. *)
Record keys_valid (db : DatabaseManager.Database) : Prop := {
  ids_unique : NoDup (candidate_ids db);
  sessions_unique : NoDup (sessions db);
  ids_positive : Forall (fun id => (1 <= id)%Z) (candidate_ids db)
}.

(** A question item that can be stored: it binds, and not to [NULL]. *)
Definition storable (item : pyval) : bool :=
  match DatabaseManager.not_null (DatabaseManager.bind_value item) with
  | Some _ => true
  | None => false
  end.

(** No question is stored for the candidate. *)
Definition no_questions_of (candidate_id : Z) (db : DatabaseManager.Database) : Prop :=
  forall row, In row (DatabaseManager.technical_questions db) ->
              DatabaseManager.question_candidate_id row <> candidate_id.

(** A database with one candidate, saved from the sample profile. *)
Definition one_candidate : DatabaseManager.Database :=
  match DatabaseManager.create_or_update_candidate "session-1" sample_profile
          DatabaseManager.init_database with
  | Some (_, db) => db
  | None => DatabaseManager.init_database
  end.

(** That database with the sample questions stored for the candidate. *)
Definition with_questions : DatabaseManager.Database :=
  match DatabaseManager.save_technical_questions 1 sample_questions one_candidate with
  | Some (_, db) => db
  | None => one_candidate
  end.

(** The test of the look-up of [save_technical_answer]. *)
Definition asks (candidate_id index : Z) (row : DatabaseManager.Question) : bool :=
  (DatabaseManager.question_candidate_id row =? candidate_id)%Z
  && (DatabaseManager.question_index row =? index)%Z.

(** The indices of the stored questions start at 0. *)
Definition indices_from_zero (db : DatabaseManager.Database) : Prop :=
  forall row, In row (DatabaseManager.technical_questions db) ->
              (0 <= DatabaseManager.question_index row)%Z.

(** ** The calls that store the questions *)

Definition is_questions_call (call : DbCall) : bool :=
  match call with SaveTechnicalQuestions _ _ => true | _ => false end.

(** The number of times the questions were handed to the database. *)
Definition questions_calls (calls : list DbCall) : nat :=
  List.length (filter is_questions_call calls).

(** The trace has grown by calls none of which stores questions. *)
Definition no_questions_call (s s' : SessionState) : Prop :=
  exists calls, gateway s' = gateway s ++ calls /\ questions_calls calls = 0.

(** What holds of the stored questions throughout a session: they were
    handed to the database at most once, not before the interview, and
    they are the questions of the session. *)
Definition questions_in_order (s : SessionState) : Prop :=
  questions_calls (gateway s) <= 1 /\
  (phase_rank (phase s) <= 1 -> questions_calls (gateway s) = 0) /\
  forall cid qs,
    In (SaveTechnicalQuestions cid qs) (gateway s) -> qs = technical_questions s.

(** ** The patterns of the name and of the location *)

(** The characters the name pattern admits. *)
Definition name_char (c : ascii) : bool :=
  PyStr.is_alpha c || PyStr.is_space c || PyStr.one_of "-'" c.

(** The characters the location pattern admits. *)
Definition location_char (c : ascii) : bool :=
  PyStr.is_alpha c || PyStr.is_space c || PyStr.one_of "-,." c.

(** Every character of [s] is in the class, and there is one. *)
Definition all_in (cls : ascii -> bool) (s : string) : bool :=
  negb (s =? "") && forallb cls (list_ascii_of_string s).

(** [^cls+$] *)
Definition whole_line (cls : ascii -> bool) : Re.regex :=
  Re.seq [Re.Bos; Re.plus cls; Re.Eos].

(** ** Questions that cannot be presented *)

(** What presenting the first question of [questions] raises, if it
    does: [len] fails, or there is no item 0. *)
Definition first_question_error (questions : pyval) : option exn :=
  match py_len questions with
  | inl e => Some e
  | inr _ =>
      match py_getitem questions 0 with
      | inl e => Some e
      | inr _ => None
      end
  end.

(** ** Computations that only move the state forward *)

Section Stable.

Context {S : Type} (R : S -> S -> Prop).
Hypothesis R_refl : forall s, R s s.
Hypothesis R_trans : forall s1 s2 s3, R s1 s2 -> R s2 s3 -> R s1 s3.

Lemma stable_ret {A : Type} (a : A) : stable R (ret a).
Proof. intro s. apply R_refl. Qed.

Lemma stable_raise {A : Type} (e : exn) : stable R (@raise S A e).
Proof. intro s. apply R_refl. Qed.

Lemma stable_get : stable R get.
Proof. intro s. apply R_refl. Qed.

Lemma stable_lift {A : Type} (r : exn + A) : stable R (lift r).
Proof. destruct r; [apply stable_raise | apply stable_ret]. Qed.

Lemma stable_modify (f : S -> S) : (forall s, R s (f s)) -> stable R (modify f).
Proof. intros H s. apply H. Qed.

Lemma stable_bind {A B : Type} (m : M S A) (f : A -> M S B) :
  stable R m -> (forall a, stable R (f a)) -> stable R (bind m f).
Proof.
  intros Hm Hf s. unfold bind.
  specialize (Hm s). destruct (m s) as [s' [e | a]]; simpl in *.
  - exact Hm.
  - eapply R_trans; [exact Hm | apply Hf].
Qed.

Lemma stable_when (b : bool) (m : M S unit) : stable R m -> stable R (when b m).
Proof. intro Hm. destruct b; [exact Hm | apply stable_ret]. Qed.

End Stable.

Lemma stable_zoom {S T A : Type} (RS : S -> S -> Prop) (RT' : T -> T -> Prop)
      (proj : S -> T) (upd : T -> S -> S) (m : M T A) :
  stable RT' m ->
  (forall s t, RT' (proj s) t -> RS s (upd t s)) ->
  stable RS (zoom proj upd m).
Proof.
  intros Hm Hupd s. unfold zoom.
  specialize (Hm (proj s)). destruct (m (proj s)) as [t r]; simpl in *.
  apply Hupd, Hm.
Qed.

(** ** The profile only moves forward under extraction *)

Lemma kept_refl v : kept v v.
Proof. intro; reflexivity. Qed.

Lemma kept_trans a b c : kept a b -> kept b c -> kept a c.
Proof.
  unfold kept. intros Hab Hbc Ha.
  rewrite <- (Hab Ha). apply Hbc. rewrite (Hab Ha). exact Ha.
Qed.

Lemma kept_unset old new : truthy old = false -> kept old new.
Proof. unfold kept. intros H1 H2. congruence. Qed.

Lemma kept_years_refl v : kept_years v v.
Proof. intro; reflexivity. Qed.

Lemma kept_years_trans a b c : kept_years a b -> kept_years b c -> kept_years a c.
Proof.
  unfold kept_years. intros Hab Hbc Ha.
  rewrite <- (Hab Ha). apply Hbc. rewrite (Hab Ha). exact Ha.
Qed.

Lemma extended_refl l : extended l l.
Proof. exists []. now rewrite app_nil_r. Qed.

Lemma extended_trans a b c : extended a b -> extended b c -> extended a c.
Proof.
  intros [x ->] [y ->]. exists (x ++ y). now rewrite app_assoc.
Qed.

Lemma extended_snoc l x : extended l (l ++ [x]).
Proof. now exists [x]. Qed.

Lemma advances_refl c : advances c c.
Proof.
  constructor; auto using kept_refl, kept_years_refl, extended_refl.
Qed.

Lemma advances_trans c1 c2 c3 : advances c1 c2 -> advances c2 c3 -> advances c1 c3.
Proof.
  intros [] []. constructor;
    eauto using kept_trans, kept_years_trans, extended_trans.
Qed.

Ltac case_if :=
  match goal with
  | |- context [if ?b then _ else _] => destruct b eqn:?
  end.

Ltac advance_field :=
  constructor; simpl;
  auto using kept_refl, kept_years_refl, extended_refl, extended_snoc, kept_unset.

Section ExtractionAdvances.

Context {RT : Runtime}.

Lemma heuristic_email_advances m c : advances c (heuristic_email m c).
Proof.
  unfold heuristic_email.
  destruct (Re.search email_pattern m); [|apply advances_refl].
  destruct (truthy (email c)) eqn:E; simpl; [apply advances_refl|].
  advance_field.
Qed.

Lemma heuristic_phone_advances m c : advances c (heuristic_phone m c).
Proof.
  unfold heuristic_phone.
  destruct (Re.search phone_pattern m); [|apply advances_refl].
  destruct (truthy (phone c)) eqn:E; cbn [negb andb]; [apply advances_refl|].
  case_if; [|apply advances_refl].
  advance_field.
Qed.

Lemma heuristic_years_advances m c : advances c (heuristic_years m c).
Proof.
  unfold heuristic_years.
  destruct (Re.search years_pattern _) as [mt|]; [|apply advances_refl].
  destruct (is_some (years_experience c)) eqn:E; simpl; [apply advances_refl|].
  destruct (Re.group1 mt); [|apply advances_refl].
  destruct (int_of_str _); [|apply advances_refl].
  advance_field. unfold kept_years. congruence.
Qed.

Lemma heuristic_name_advances m c : advances c (heuristic_name m c).
Proof.
  unfold heuristic_name.
  destruct (truthy (full_name c)) eqn:E; cbn [negb andb]; [apply advances_refl|].
  repeat (case_if; [|apply advances_refl]).
  advance_field.
Qed.

Lemma heuristic_location_advances m c : advances c (heuristic_location m c).
Proof.
  unfold heuristic_location.
  destruct (truthy (current_location c)) eqn:E; cbn [negb andb]; [apply advances_refl|].
  repeat (case_if; [|apply advances_refl]).
  advance_field.
Qed.

Lemma fallback_loop_advances m ml inds c : advances c (fallback_loop m ml inds c).
Proof.
  induction inds as [|i inds IH]; cbn [fallback_loop]; [apply advances_refl|].
  case_if; [|exact IH].
  case_if; [|apply advances_refl].
  advance_field.
Qed.

Lemma position_fallback_advances m c : advances c (position_fallback m c).
Proof.
  unfold position_fallback.
  case_if; [apply fallback_loop_advances | apply advances_refl].
Qed.

Lemma advances_bind {A B : Type} (m : M CandidateInfo A) (f : A -> M CandidateInfo B) :
  stable advances m -> (forall a, stable advances (f a)) -> stable advances (bind m f).
Proof. apply stable_bind. exact advances_trans. Qed.

Lemma merge_scalar_full_name_advances d : stable advances (merge_scalar d "full_name" full_name set_full_name).
Proof.
  intro c. unfold merge_scalar, bind, get, when, modify, ret.
  destruct (truthy (dict_get _ d)); simpl; [|apply advances_refl].
  destruct (truthy (full_name c)) eqn:E; simpl; [apply advances_refl|].
  advance_field.
Qed.

Lemma merge_scalar_email_advances d : stable advances (merge_scalar d "email" email set_email).
Proof.
  intro c. unfold merge_scalar, bind, get, when, modify, ret.
  destruct (truthy (dict_get _ d)); simpl; [|apply advances_refl].
  destruct (truthy (email c)) eqn:E; simpl; [apply advances_refl|].
  advance_field.
Qed.

Lemma merge_scalar_phone_advances d : stable advances (merge_scalar d "phone" phone set_phone).
Proof.
  intro c. unfold merge_scalar, bind, get, when, modify, ret.
  destruct (truthy (dict_get _ d)); simpl; [|apply advances_refl].
  destruct (truthy (phone c)) eqn:E; simpl; [apply advances_refl|].
  advance_field.
Qed.

Lemma merge_scalar_location_advances d :
  stable advances (merge_scalar d "current_location" current_location set_current_location).
Proof.
  intro c. unfold merge_scalar, bind, get, when, modify, ret.
  destruct (truthy (dict_get _ d)); simpl; [|apply advances_refl].
  destruct (truthy (current_location c)) eqn:E; simpl; [apply advances_refl|].
  advance_field.
Qed.

Lemma merge_years_advances d : stable advances (merge_years d).
Proof.
  intro c. unfold merge_years, bind, get.
  assert (Hcase : forall v,
    advances c (fst ((if negb (is_some (years_experience c)) then
         match py_int v with
         | inr n => modify (set_years_experience (Some n))
         | inl ValueError | inl TypeError => ret tt
         | inl e => raise e
         end
       else ret tt) c))).
  { intro v. destruct (is_some (years_experience c)) eqn:E; simpl;
      [apply advances_refl|].
    destruct (py_int v) as [[]|n]; simpl; try apply advances_refl.
    advance_field. unfold kept_years. congruence. }
  destruct (dict_get "years_experience" d) eqn:V;
    try (rewrite <- V; apply Hcase); try apply Hcase.
  apply advances_refl.
Qed.

Lemma append_unseen_extends ex items : stable extended (append_unseen ex items).
Proof.
  induction items as [|v items IH]; simpl.
  - apply stable_ret, extended_refl.
  - destruct v; try (apply stable_raise, extended_refl).
    apply stable_bind; [exact extended_trans | | intros _; exact IH].
    apply stable_when; [exact extended_refl|].
    apply stable_modify. intro l. apply extended_snoc.
Qed.

Lemma merge_list_value_extends v : stable extended (merge_list_value v).
Proof.
  destruct v; simpl; try (apply stable_raise, extended_refl).
  - apply stable_bind; [exact extended_trans | apply stable_get, extended_refl |].
    intro cur. apply stable_when; [exact extended_refl|].
    apply stable_modify. intro l. apply extended_snoc.
  - apply stable_bind; [exact extended_trans | apply stable_get, extended_refl |].
    intro cur. apply append_unseen_extends.
Qed.

Lemma merge_positions_advances d :
  stable advances (merge_list d "desired_positions" desired_positions set_desired_positions).
Proof.
  unfold merge_list. apply stable_when; [exact advances_refl|].
  eapply stable_zoom; [apply merge_list_value_extends|].
  intros c l Hl. advance_field.
Qed.

Lemma merge_tech_advances d :
  stable advances (merge_list d "tech_stack" tech_stack set_tech_stack).
Proof.
  unfold merge_list. apply stable_when; [exact advances_refl|].
  eapply stable_zoom; [apply merge_list_value_extends|].
  intros c l Hl. advance_field.
Qed.

Lemma merge_extracted_advances extracted : stable advances (merge_extracted extracted).
Proof.
  unfold merge_extracted.
  destruct extracted as [e|]; [|apply stable_ret, advances_refl].
  destruct (truthy e); [|apply stable_ret, advances_refl].
  destruct e; try (apply stable_raise, advances_refl).
  repeat (apply advances_bind; [|intros _]);
    auto using merge_scalar_full_name_advances, merge_scalar_email_advances,
      merge_scalar_phone_advances, merge_scalar_location_advances, merge_years_advances,
      merge_positions_advances, merge_tech_advances.
Qed.

Lemma extract_candidate_info_advances message response :
  stable advances (extract_candidate_info message response).
Proof.
  unfold extract_candidate_info.
  repeat (apply advances_bind; [|intros _]);
    try apply merge_extracted_advances;
    apply stable_modify; intro;
    auto using heuristic_email_advances, heuristic_phone_advances,
      heuristic_years_advances, heuristic_name_advances,
      heuristic_location_advances, position_fallback_advances.
Qed.

End ExtractionAdvances.

(** ** First write wins (C1) *)

(** C1. An extraction pass (the heuristic extractors followed by the
    merge of the language model's reply) leaves every scalar field that
    is already set as it is: a text field holding a non-empty value and
    a [years_experience] that is not null have the same value after the
    pass, for every message, every reply and every profile, and also
    when the pass raises half way. *)
Theorem extraction_first_write_wins :
  forall (RT : Runtime) (message response : string) (c : CandidateInfo),
    let c' := fst (extract_candidate_info message response c) in
    (truthy (full_name c) = true -> full_name c' = full_name c) /\
    (truthy (email c) = true -> email c' = email c) /\
    (truthy (phone c) = true -> phone c' = phone c) /\
    (years_experience c <> None -> years_experience c' = years_experience c) /\
    (truthy (current_location c) = true -> current_location c' = current_location c).
Proof.
  intros RT message response c c'.
  destruct (extract_candidate_info_advances message response c)
    as [Hn He Hp Hy Hl _ _].
  fold c' in Hn, He, Hp, Hy, Hl.
  repeat split; auto.
  intro Hset. apply Hy. destruct (years_experience c); [reflexivity | congruence].
Qed.

(** The pass at work on a profile that has every scalar set, with a
    message and a reply that both offer other values. *)
Lemma extraction_first_write_wins_witness :
  let c' := fst (@extract_candidate_info sample_runtime
                   "reach me at new@example.net, 12 years" other_reply sample_profile) in
  full_name c' = PStr "Asha Rao" /\ email c' = PStr "asha@example.com" /\
  phone c' = PStr "+91 98765-43210" /\ years_experience c' = Some 0%Z /\
  current_location c' = PStr "Pune".
Proof.
  intro c'.
  destruct (extraction_first_write_wins sample_runtime
              "reach me at new@example.net, 12 years" other_reply sample_profile)
    as (Hn & He & Hp & Hy & Hl).
  split; [apply Hn; reflexivity|].
  split; [apply He; reflexivity|].
  split; [apply Hp; reflexivity|].
  split; [apply Hy; discriminate|].
  apply Hl; reflexivity.
Defined.

Lemma extract_all_advances {RT : Runtime} turns c : advances c (extract_all turns c).
Proof.
  revert c. induction turns as [|[message response] rest IH]; intro c; simpl.
  - apply advances_refl.
  - eapply advances_trans; [|apply IH].
    apply extract_candidate_info_advances.
Qed.

(** Over any sequence of passes a scalar that is set never changes. *)
Corollary scalars_fixed_over_session {RT : Runtime} turns c :
  (truthy (full_name c) = true -> full_name (extract_all turns c) = full_name c) /\
  (truthy (email c) = true -> email (extract_all turns c) = email c) /\
  (truthy (phone c) = true -> phone (extract_all turns c) = phone c) /\
  (is_some (years_experience c) = true ->
     years_experience (extract_all turns c) = years_experience c) /\
  (truthy (current_location c) = true ->
     current_location (extract_all turns c) = current_location c).
Proof.
  destruct (extract_all_advances turns c) as [Hn He Hp Hy Hl _ _].
  repeat split; assumption.
Qed.

(** A text field is set exactly when it holds a string that is not empty. *)
Lemma truthy_text_field s : truthy (PStr s) = true <-> s <> "".
Proof.
  simpl. destruct (String.eqb_spec s ""); simpl; split; congruence.
Qed.

(** ** The list fields (C2) *)

(** The list fields only have entries added at their end by a pass. *)
Lemma lists_only_grow {RT : Runtime} message response c :
  let c' := fst (extract_candidate_info message response c) in
  extended (desired_positions c) (desired_positions c') /\
  extended (tech_stack c) (tech_stack c').
Proof.
  destruct (extract_candidate_info_advances message response c) as [_ _ _ _ _ Hd Ht].
  split; assumption.
Qed.

Lemma lists_only_grow_over_session {RT : Runtime} turns c :
  extended (desired_positions c) (desired_positions (extract_all turns c)) /\
  extended (tech_stack c) (tech_stack (extract_all turns c)).
Proof.
  destruct (extract_all_advances turns c) as [_ _ _ _ _ Hd Ht].
  split; assumption.
Qed.

Lemma extract_json_whole_object {RT : Runtime} :
  extract_json twice_reply = json_loads twice_reply.
Proof. reflexivity. Qed.

(** C2. The entries of one reply are compared with the list as it was
    before the reply and not with each other: a reply that lists
    "Python" and "python" puts both into an empty [tech_stack], which
    then holds two entries that are equal without regard to case. *)
Theorem duplicate_within_one_reply :
  forall (RT : Runtime),
    json_loads twice_reply = Some twice_reply_value ->
    let c' := fst (extract_candidate_info "My stack is Python" twice_reply CandidateInfo_new) in
    tech_stack c' = ["Python"; "python"] /\ ~ distinct_ignoring_case (tech_stack c').
Proof.
  intros RT Hloads c'.
  assert (Htech : tech_stack c' = ["Python"; "python"]).
  { subst c'. unfold extract_candidate_info.
    rewrite extract_json_whole_object, Hloads. reflexivity. }
  split; [exact Htech|].
  rewrite Htech. unfold distinct_ignoring_case. intro Hnodup.
  inversion Hnodup as [|x l Hnotin _]; subst.
  apply Hnotin. left. reflexivity.
Qed.

Lemma duplicate_within_one_reply_witness :
  tech_stack (fst (@extract_candidate_info sample_runtime
                     "My stack is Python" twice_reply CandidateInfo_new))
  = ["Python"; "python"].
Proof.
  apply (duplicate_within_one_reply sample_runtime). reflexivity.
Defined.

(** ** Completeness (C3) *)

Lemma nonempty_true {A : Type} (l : list A) : nonempty l = true <-> l <> [].
Proof. destruct l; simpl; split; congruence. Qed.

Lemma is_some_true {A : Type} (o : option A) : is_some o = true <-> o <> None.
Proof. destruct o; simpl; split; congruence. Qed.

(** C3, as the code has it. [is_complete] holds exactly when the four
    text fields are set to a value that is not empty (a null and an
    empty string both count as missing), [years_experience] is not null
    (0 counts as given) and both lists are not empty. *)
Theorem is_complete_iff_populated :
  forall c : CandidateInfo, is_complete c = true <-> populated c.
Proof.
  intro c. unfold is_complete, populated.
  cbn [forallb]. rewrite !andb_true_iff.
  rewrite !nonempty_true, is_some_true.
  tauto.
Qed.

(** Zero years of experience count as given. *)
Lemma zero_years_is_complete : is_complete sample_profile = true.
Proof. reflexivity. Qed.

(** C3, as stated, fails: a profile whose name is the empty string has
    no null scalar and no empty list, and is not complete. *)
Lemma non_null_is_not_enough :
  ~ (forall c : CandidateInfo, is_complete c = true <-> all_non_null c).
Proof.
  intro Hclaim.
  assert (Hnn : all_non_null nameless_profile).
  { unfold all_non_null; simpl. repeat split; discriminate. }
  apply Hclaim in Hnn. discriminate Hnn.
Qed.

(** ** Technical questions (C7) *)

(** A repetition hands its continuation a text that is no longer than
    the one it started on. *)
Lemma rep_match_shortens (R : Type) cls lo hi prev s
      (k : option ascii -> string -> option R) r :
  Re.rep_match R cls lo hi prev s k = Some r ->
  exists prev' rest,
    String.length rest <= String.length s /\ k prev' rest = Some r.
Proof.
  revert lo hi prev. induction s as [|c s IH]; intros lo hi prev H.
  - exists prev, EmptyString. split; [lia|].
    destruct hi as [[|h]|], lo; simpl in H; congruence.
  - assert (Hstop : match lo with O => k prev (String c s) | S _ => None end = Some r ->
                    exists prev' rest,
                      String.length rest <= String.length (String c s) /\
                      k prev' rest = Some r).
    { intro Hs. exists prev, (String c s). split; [lia|].
      destruct lo; [exact Hs | discriminate]. }
    assert (Hmore : forall hi',
               (if cls c
                then match Re.rep_match R cls (Nat.pred lo) hi' (Some c) s k with
                     | Some x => Some x
                     | None => match lo with O => k prev (String c s) | S _ => None end
                     end
                else match lo with O => k prev (String c s) | S _ => None end) = Some r ->
               exists prev' rest,
                 String.length rest <= String.length (String c s) /\
                 k prev' rest = Some r).
    { intros hi' Hm. destruct (cls c); [|exact (Hstop Hm)].
      destruct (Re.rep_match R cls (Nat.pred lo) hi' (Some c) s k) eqn:E.
      - injection Hm as ->. apply IH in E. destruct E as (p & rest & Hlen & Hk).
        exists p, rest. split; [simpl; lia | exact Hk].
      - exact (Hstop Hm). }
    destruct hi as [[|h]|]; simpl in H.
    + exact (Hstop H).
    + exact (Hmore _ H).
    + exact (Hmore _ H).
Qed.

Lemma take_brace n s : PyStr.take (S n) (String "{" s) = String "{" (PyStr.take n s).
Proof. reflexivity. Qed.

(** A match of the JSON pattern begins with a brace. *)
Lemma json_match_begins_with_brace prev s m :
  Re.match_here json_pattern prev s = Some m ->
  exists body, Re.group0 m = String "{" body.
Proof.
  unfold Re.match_here, json_pattern. cbn [Re.seq Re.match_re Re.lit_match Re.star].
  destruct s as [|c s]; [discriminate|].
  destruct (Ascii.eqb_spec "{" c) as [<-|]; [|discriminate].
  intro H. apply rep_match_shortens in H. destruct H as (p & rest & Hlen & H).
  destruct rest as [|c' rest]; [discriminate|].
  destruct (Ascii.eqb "}" c'); [|discriminate].
  injection H as <-. cbn [Re.group0]. unfold Re.consumed.
  simpl String.length in *.
  replace (S (String.length s) - String.length rest)
    with (S (String.length s - String.length rest)) by lia.
  eexists. apply take_brace.
Qed.

Lemma json_search_begins_with_brace text m :
  Re.search json_pattern text = Some m ->
  exists body, Re.group0 m = String "{" body.
Proof.
  unfold Re.search. generalize (@None ascii) as prev.
  induction text as [|c text IH]; intros prev H; cbn [Re.search_from] in H.
  - destruct (Re.match_here json_pattern prev "") eqn:E; [|discriminate].
    injection H as ->. eapply json_match_begins_with_brace, E.
  - destruct (Re.match_here json_pattern prev (String c text)) eqn:E.
    + injection H as ->. eapply json_match_begins_with_brace, E.
    + eapply IH, H.
Qed.

(** Whatever [extract_json] returns was decoded from a text that begins
    with a brace. *)
Lemma extract_json_decodes_object_text {RT : Runtime} text v :
  extract_json text = Some v ->
  exists body, json_loads (String "{" body) = Some v.
Proof.
  unfold extract_json.
  destruct (Re.search json_pattern text) as [m|] eqn:E; [|discriminate].
  destruct (json_search_begins_with_brace text m E) as [body ->].
  intro H. exists body. exact H.
Qed.

(** With a decoder for which, as in JSON, a text that begins with a
    brace is an object or an error, the questions are never a decoded
    array: they are the value under [questions] or the fallback. *)
Lemma questions_never_from_array {RT : Runtime} c response :
  (forall body v, json_loads (String "{" body) = Some v -> exists d, v = PDict d) ->
  generate_technical_questions c response = fallback_questions c \/
  exists d, extract_json response = Some (PDict d) /\
            generate_technical_questions c response = dict_get "questions" d.
Proof.
  intro Hobj. unfold generate_technical_questions.
  destruct (extract_json response) as [v|] eqn:E; [|left; reflexivity].
  destruct (extract_json_decodes_object_text _ _ E) as [body Hbody].
  destruct (Hobj _ _ Hbody) as [d ->].
  destruct (dict_has "questions" d); [right; exists d; split; reflexivity | left; reflexivity].
Qed.

Lemma no_object_falls_back {RT : Runtime} c response :
  extract_json response = None ->
  generate_technical_questions c response = fallback_questions c.
Proof.
  intro H. unfold generate_technical_questions. rewrite H. reflexivity.
Qed.

Lemma questions_key_is_returned {RT : Runtime} c response d :
  extract_json response = Some (PDict d) ->
  dict_has "questions" d = true ->
  generate_technical_questions c response = dict_get "questions" d.
Proof.
  intros H Hk. unfold generate_technical_questions. rewrite H, Hk. reflexivity.
Qed.

Lemma object_without_questions_falls_back {RT : Runtime} c response d :
  extract_json response = Some (PDict d) ->
  dict_has "questions" d = false ->
  generate_technical_questions c response = fallback_questions c.
Proof.
  intros H Hk. unfold generate_technical_questions. rewrite H, Hk. reflexivity.
Qed.

Lemma fallback_has_three_questions c : py_len (fallback_questions c) = inr 3.
Proof. reflexivity. Qed.

(** C7. A reply that is a JSON array of questions holds no brace, so
    [extract_json] finds nothing in it and the decoder is never asked:
    the three fallback questions are returned in place of the array's,
    whatever the decoder would have made of the reply. *)
Theorem array_reply_gets_fallback :
  forall (RT : Runtime) (c : CandidateInfo),
    extract_json array_reply = None /\
    generate_technical_questions c array_reply = fallback_questions c /\
    generate_technical_questions c array_reply <> array_reply_value.
Proof.
  intros RT c.
  assert (H : extract_json array_reply = None) by reflexivity.
  split; [exact H|].
  rewrite (no_object_falls_back c array_reply H).
  split; [reflexivity|].
  unfold fallback_questions, array_reply_value. intro Heq.
  injection Heq as _ Hsecond _. discriminate Hsecond.
Qed.

(** The sample decoder does decode the array; it is never asked to. *)
Lemma array_reply_is_decodable :
  @json_loads sample_runtime array_reply = Some array_reply_value /\
  @generate_technical_questions sample_runtime sample_profile array_reply
  = fallback_questions sample_profile.
Proof. split; reflexivity. Qed.

(** An object whose [questions] is an empty list is returned as it is:
    the result can be empty. *)
Lemma empty_question_list_is_returned {RT : Runtime} c :
  json_loads no_questions_reply = Some no_questions_value ->
  generate_technical_questions c no_questions_reply = PList [].
Proof.
  intro H.
  assert (Hj : extract_json no_questions_reply = json_loads no_questions_reply)
    by reflexivity.
  rewrite H in Hj.
  rewrite (questions_key_is_returned c _ _ Hj); reflexivity.
Qed.

(** ** The short answer "software tester" (C8) *)

Lemma extract_after_heuristics {RT : Runtime} message response c :
  extract_candidate_info message response c
  = bind (merge_extracted (extract_json response))
         (fun _ => modify (position_fallback message))
         (heuristics message c).
Proof. reflexivity. Qed.

Lemma merge_then_fallback_advances {RT : Runtime} message extracted :
  stable advances (bind (merge_extracted extracted)
                        (fun _ => modify (position_fallback message))).
Proof.
  apply advances_bind; [apply merge_extracted_advances|].
  intros _. apply stable_modify. apply position_fallback_advances.
Qed.

Lemma heuristics_software_tester :
  heuristics "software tester" CandidateInfo_new
  = set_full_name (PStr "software tester") CandidateInfo_new.
Proof. reflexivity. Qed.

(** C8. On the message "software tester" and an empty profile the name
    heuristic accepts the whole message as [full_name]: it only rejects
    a message that is a job-role keyword in its entirety.  With the
    name set, the position fallback is skipped.  So [full_name] is
    "software tester" whatever the language model replies, and with no
    usable reply [desired_positions] stays empty. *)
Theorem software_tester_taken_as_name :
  forall (RT : Runtime),
    (forall response : string,
        full_name (fst (extract_candidate_info "software tester" response CandidateInfo_new))
        = PStr "software tester") /\
    fst (extract_candidate_info "software tester" "" CandidateInfo_new)
    = set_full_name (PStr "software tester") CandidateInfo_new.
Proof.
  intro RT. split; [|reflexivity].
  intro response.
  rewrite extract_after_heuristics, heuristics_software_tester.
  destruct (merge_then_fallback_advances "software tester" (extract_json response)
              (set_full_name (PStr "software tester") CandidateInfo_new)) as [Hn _ _ _ _ _ _].
  apply Hn. reflexivity.
Qed.

(** A message that is a keyword in its entirety is the case the
    heuristic does reject. *)
Lemma tester_taken_as_position {RT : Runtime} :
  fst (extract_candidate_info "tester" "" CandidateInfo_new)
  = set_desired_positions ["tester"] CandidateInfo_new.
Proof. reflexivity. Qed.

(** ** Running the script *)

Lemma bind_returns {S A B : Type} (m : M S A) (f : A -> M S B) s s1 a :
  m s = (s1, inr a) -> bind m f s = f a s1.
Proof. intro H. unfold bind. rewrite H. reflexivity. Qed.

Lemma bind_raises {S A B : Type} (m : M S A) (f : A -> M S B) s s1 e :
  m s = (s1, inl e) -> bind m f s = (s1, inl e).
Proof. intro H. unfold bind. rewrite H. reflexivity. Qed.

Ltac session_simpl :=
  cbn [bind get modify when ret raise lift fst snd
       messages candidate_info phase technical_questions current_question_index
       conversation_started candidate_id last_technical_answer pending_update
       update_field gateway
       set_messages set_candidate_info set_phase set_technical_questions
       set_current_question_index set_conversation_started set_candidate_id
       set_last_technical_answer set_pending_update set_update_field set_gateway
       log_call append_message in_profile negb andb orb] in *.

Lemma same_flow_refl s : same_flow s s.
Proof. constructor; reflexivity. Qed.

Lemma same_flow_trans s1 s2 s3 : same_flow s1 s2 -> same_flow s2 s3 -> same_flow s1 s3.
Proof. intros [] []. constructor; congruence. Qed.

Section Prelude.

Context {RT : Runtime}.

Lemma save_message_to_db_frame role content s :
  exists s', save_message_to_db role content s = (s', inr tt) /\
             same_flow s s' /\ last_technical_answer s' = last_technical_answer s.
Proof.
  unfold save_message_to_db. session_simpl.
  destruct (truthy_id (candidate_id s)); session_simpl;
    eexists; (split; [reflexivity|]); split; try reflexivity;
    constructor; reflexivity.
Qed.

Lemma start_conversation_frame s :
  exists s', start_conversation s = (s', inr tt) /\
             same_flow s s' /\ last_technical_answer s' = last_technical_answer s.
Proof.
  unfold start_conversation. session_simpl.
  destruct (conversation_started s); session_simpl.
  - exists s. repeat split; reflexivity.
  - unfold save_message_to_db. session_simpl.
    destruct (truthy_id (candidate_id s)); session_simpl;
      eexists; (split; [reflexivity|]); split; try reflexivity;
      constructor; reflexivity.
Qed.

Lemma flush_technical_answer_frame inp s :
  exists s', flush_technical_answer inp s = (s', inr tt) /\
             same_flow s s' /\ not_captured s s'.
Proof.
  unfold flush_technical_answer, not_captured. session_simpl.
  destruct (truthy_text (last_technical_answer s)); session_simpl.
  2:{ exists s. repeat split; auto. }
  destruct (truthy_id (candidate_id s)); session_simpl.
  2:{ exists s. repeat split; auto. }
  destruct (db_answer_saved inp); session_simpl;
    eexists; (split; [reflexivity|]); split;
    try (constructor; reflexivity); session_simpl; auto.
Qed.

(** The message is taken for an answer exactly under [takes_answer]. *)
Lemma capture_technical_answer_frame text s :
  exists s', capture_technical_answer text s = (s', inr tt) /\
             same_flow s s' /\
             last_technical_answer s'
             = if takes_answer text s then Some text else last_technical_answer s.
Proof.
  unfold capture_technical_answer, takes_answer. session_simpl.
  destruct (phase_eqb (phase s) TechnicalQuestions && is_some (truthy_id (candidate_id s)));
    session_simpl.
  2:{ exists s. repeat split; auto. }
  destruct (is_update_request text) eqn:Hu, (pending_update s) eqn:Hp; session_simpl;
    eexists; (split; [reflexivity|]); split;
    try (constructor; reflexivity); session_simpl; auto.
Qed.

Lemma takes_answer_flow text s s' :
  same_flow s s' -> takes_answer text s' = takes_answer text s.
Proof.
  intros [Hph _ _ Hp _ _ Hid]. unfold takes_answer. rewrite Hph, Hp, Hid. reflexivity.
Qed.

Lemma takes_answer_skipped text s :
  is_update_request text = true \/ pending_update s = true ->
  takes_answer text s = false.
Proof.
  unfold takes_answer. intros [H|H]; rewrite H;
    rewrite ?andb_false_r; reflexivity.
Qed.

(** A run with a message gets as far as the end-keyword check without
    touching the state of the conversation flow; by then the message
    has been taken for an answer, or not. *)
Lemma main_reaches_end_check inp s text :
  truthy_text (prompt inp) = Some text ->
  exists s1,
    main inp s = bind (check_end_keywords text) (fun _ => dispatch inp text) s1 /\
    same_flow s s1 /\
    (takes_answer text s = true -> last_technical_answer s1 = Some text) /\
    (takes_answer text s = false -> not_captured s s1).
Proof.
  intro Hprompt. unfold main.
  destruct (start_conversation_frame s) as (s1 & E1 & F1 & A1).
  rewrite (bind_returns _ _ _ _ _ E1).
  destruct (flush_technical_answer_frame inp s1) as (s2 & E2 & F2 & A2).
  rewrite (bind_returns _ _ _ _ _ E2).
  rewrite Hprompt. unfold handle_prompt.
  rewrite (bind_returns _ _ s2 (append_message User text s2) tt eq_refl).
  destruct (save_message_to_db_frame User text (append_message User text s2))
    as (s3 & E3 & F3 & A3).
  rewrite (bind_returns _ _ _ _ _ E3).
  destruct (capture_technical_answer_frame text s3) as (s4 & E4 & F4 & A4).
  rewrite (bind_returns _ _ _ _ _ E4).
  assert (F03 : same_flow s s3).
  { eapply same_flow_trans; [|exact F3].
    eapply same_flow_trans; [exact F1|].
    eapply same_flow_trans; [exact F2|].
    constructor; reflexivity. }
  rewrite (takes_answer_flow text s s3 F03) in A4.
  exists s4. split; [reflexivity|]. split.
  - eapply same_flow_trans; [exact F03 | exact F4].
  - split; intro Htake; rewrite Htake in A4; [exact A4|].
    unfold not_captured in *.
    rewrite A4, A3. session_simpl. rewrite <- A1. exact A2.
Qed.

Lemma check_end_keywords_passes text s :
  should_end_conversation text = false ->
  check_end_keywords text s = (s, inr tt).
Proof. intro H. unfold check_end_keywords. rewrite H. reflexivity. Qed.

(** A run with a message that holds no end keyword gets to the branch
    of the phase. *)
Lemma main_reaches_dispatch inp s text :
  truthy_text (prompt inp) = Some text ->
  should_end_conversation text = false ->
  exists s1,
    main inp s = dispatch inp text s1 /\
    same_flow s s1 /\
    (is_update_request text = true \/ pending_update s = true -> not_captured s s1).
Proof.
  intros Hprompt Hend.
  destruct (main_reaches_end_check inp s text Hprompt) as (s1 & E & F & _ & A).
  exists s1. split; [|split; [assumption|]].
  2:{ intro Hskip. apply A, takes_answer_skipped, Hskip. }
  rewrite E.
  rewrite (bind_returns _ _ s1 s1 tt (check_end_keywords_passes text s1 Hend)).
  reflexivity.
Qed.

End Prelude.

(** ** The gateway trace and the question frame *)

Lemma grows_refl s : grows s s.
Proof. exists []. now rewrite app_nil_r. Qed.

Lemma grows_trans s1 s2 s3 : grows s1 s2 -> grows s2 s3 -> grows s1 s3.
Proof. intros [a Ha] [b Hb]. exists (a ++ b). now rewrite Hb, Ha, app_assoc. Qed.

Lemma same_question_refl s : same_question s s.
Proof. repeat split. Qed.

Lemma same_question_trans s1 s2 s3 :
  same_question s1 s2 -> same_question s2 s3 -> same_question s1 s3.
Proof. intros (? & ? & ? & ? & ?) (? & ? & ? & ? & ?). repeat split; congruence. Qed.

(** Takes a computation apart along its sequencing and its tests; what
    is left are the state changes, for [leaf] to settle. *)
Ltac stable_walk refl trans leaf :=
  repeat
    match goal with
    | |- stable _ (bind _ _) => apply stable_bind; [exact trans | | intro]
    | |- stable _ (when _ _) => apply stable_when; [exact refl|]
    | |- stable _ (ret _) => apply stable_ret; exact refl
    | |- stable _ (raise _) => apply stable_raise; exact refl
    | |- stable _ get => apply stable_get; exact refl
    | |- stable _ (lift _) => apply stable_lift; exact refl
    | |- stable _ (modify _) => apply stable_modify; intro; leaf
    | |- stable _ (match ?x with _ => _ end) => destruct x
    end.

Ltac grows_leaf :=
  unfold grows; session_simpl;
  solve [ exists []; rewrite app_nil_r; reflexivity | eexists; reflexivity ].

Ltac same_question_leaf :=
  unfold same_question; session_simpl; repeat split; reflexivity.

Section Frames.

Context {RT : Runtime}.

Lemma extract_in_session_stable (R : SessionState -> SessionState -> Prop) text response :
  (forall s c, R s (set_candidate_info c s)) ->
  stable R (extract_in_session text response).
Proof.
  intro H. unfold extract_in_session.
  apply (stable_zoom R (fun _ _ => True)); [intro; exact I|].
  intros s c _. apply H.
Qed.

Lemma save_message_to_db_grows role content : stable grows (save_message_to_db role content).
Proof.
  unfold save_message_to_db. stable_walk grows_refl grows_trans grows_leaf.
Qed.

Lemma save_candidate_to_db_grows inp : stable grows (save_candidate_to_db inp).
Proof.
  unfold save_candidate_to_db. stable_walk grows_refl grows_trans grows_leaf.
Qed.

Lemma present_question_grows heading : stable grows (present_question heading).
Proof.
  unfold present_question. stable_walk grows_refl grows_trans grows_leaf.
Qed.

Lemma dispatch_grows inp text : stable grows (dispatch inp text).
Proof.
  unfold dispatch, info_branch, technical_branch, update_request_branch,
    update_value_branch, answer_branch.
  stable_walk grows_refl grows_trans grows_leaf;
    try apply save_message_to_db_grows;
    try apply save_candidate_to_db_grows;
    try apply present_question_grows;
    try (apply extract_in_session_stable; intros; grows_leaf).
Qed.

Lemma check_end_keywords_grows text : stable grows (check_end_keywords text).
Proof.
  unfold check_end_keywords. stable_walk grows_refl grows_trans grows_leaf.
  apply save_message_to_db_grows.
Qed.

Lemma handle_prompt_grows inp text : stable grows (handle_prompt inp text).
Proof.
  unfold handle_prompt, capture_technical_answer.
  stable_walk grows_refl grows_trans grows_leaf;
    try apply save_message_to_db_grows;
    try apply check_end_keywords_grows;
    try apply dispatch_grows.
Qed.

(** The update-value branch, however it ends: the pending update is
    cleared first, and nothing after that touches question set, index,
    phase, the answer awaiting storage or the flag again. *)
Lemma update_value_branch_frame inp text s :
  technical_questions (fst (update_value_branch inp text s)) = technical_questions s /\
  current_question_index (fst (update_value_branch inp text s)) = current_question_index s /\
  phase (fst (update_value_branch inp text s)) = phase s /\
  last_technical_answer (fst (update_value_branch inp text s)) = last_technical_answer s /\
  pending_update (fst (update_value_branch inp text s)) = false.
Proof.
  unfold update_value_branch.
  match goal with
  | |- context [bind (modify ?f) ?k s] =>
      change (bind (modify f) k s) with (k tt (f s));
      assert (Hrest : stable same_question (k tt))
  end.
  { unfold save_candidate_to_db, present_question.
    stable_walk same_question_refl same_question_trans same_question_leaf.
    apply extract_in_session_stable. intros. same_question_leaf. }
  destruct (Hrest (set_pending_update false s)) as (Hq & Hi & Hph & Ha & Hp).
  session_simpl. repeat split; assumption.
Qed.

End Frames.

(** ** Answers to technical questions (C4) *)

Section TechnicalPhase.

Context {RT : Runtime}.

Lemma truthy_text_some (o : option string) text :
  o = Some text -> text <> "" -> truthy_text o = Some text.
Proof.
  intros -> Hne. unfold truthy_text.
  destruct (String.eqb_spec text ""); [contradiction | reflexivity].
Qed.

Lemma present_question_keeps_state heading s : fst (present_question heading s) = s.
Proof.
  unfold present_question. session_simpl.
  destruct (py_len (technical_questions s)); session_simpl; [reflexivity|].
  destruct (py_getitem (technical_questions s) (current_question_index s));
    reflexivity.
Qed.

Lemma present_question_returns heading s n q :
  py_len (technical_questions s) = inr n ->
  py_getitem (technical_questions s) (current_question_index s) = inr q ->
  present_question heading s
  = (s, inr (heading ++ nl ++ nl ++ "**"
               ++ format_question (current_question_index s + 1) n ++ "**" ++ nl
               ++ py_str q)%string).
Proof.
  intros Hn Hq. unfold present_question. session_simpl.
  rewrite Hn. session_simpl. rewrite Hq. reflexivity.
Qed.

(** The answer branch: the index goes up by one, and the interview is
    over exactly when the new index is not below the question count. *)
Lemma answer_branch_state s n :
  py_len (technical_questions s) = inr n ->
  fst (answer_branch s)
  = if (current_question_index s + 1 <? n)%nat
    then set_current_question_index (current_question_index s + 1) s
    else set_phase Completed
           (set_current_question_index (current_question_index s + 1) s).
Proof.
  intro Hn. unfold answer_branch. session_simpl.
  rewrite Hn. session_simpl.
  destruct (current_question_index s + 1 <? n)%nat.
  - apply present_question_keeps_state.
  - reflexivity.
Qed.


Lemma dispatch_technical inp text s :
  phase s = TechnicalQuestions ->
  dispatch inp text s
  = bind (technical_branch inp text) (fun response => ret (Some response)) s.
Proof. intro H. unfold dispatch. session_simpl. rewrite H. reflexivity. Qed.

Lemma technical_branch_answer inp text s :
  is_update_request text = false ->
  pending_update s = false ->
  technical_branch inp text s = answer_branch s.
Proof.
  intros Hu Hp. unfold technical_branch. session_simpl.
  unfold is_update_request in Hu. rewrite Hu, Hp. reflexivity.
Qed.

Lemma fst_bind_ret {S A B : Type} (m : M S A) (g : A -> B) s :
  fst (bind m (fun a => ret (g a)) s) = fst (m s).
Proof. unfold bind. destruct (m s) as [s' [e|a]]; reflexivity. Qed.

End TechnicalPhase.




(** ** Update requests (C5) *)

Section UpdateRequests.

Context {RT : Runtime}.

Lemma check_end_keywords_stops text s :
  should_end_conversation text = true ->
  exists s',
    check_end_keywords text s = (s', inl StopException) /\
    phase s' = Completed /\
    technical_questions s' = technical_questions s /\
    current_question_index s' = current_question_index s /\
    candidate_info s' = candidate_info s /\
    pending_update s' = pending_update s /\
    last_technical_answer s' = last_technical_answer s /\
    candidate_id s' = candidate_id s.
Proof.
  intro H. unfold check_end_keywords. rewrite H. unfold when.
  rewrite (bind_returns _ _ s (append_message Assistant generate_farewell s) tt eq_refl).
  destruct (save_message_to_db_frame Assistant generate_farewell
              (append_message Assistant generate_farewell s)) as (s1 & E1 & F1 & A1).
  rewrite (bind_returns _ _ _ _ _ E1).
  destruct F1 as [_ Fq Fi Fp _ Fc Fid]. session_simpl.
  eexists. split; [reflexivity|]. session_simpl.
  repeat split; congruence.
Qed.

Lemma update_request_branch_returns text s :
  exists s' response,
    update_request_branch text s = (s', inr response) /\
    pending_update s' = true /\
    phase s' = phase s /\
    technical_questions s' = technical_questions s /\
    current_question_index s' = current_question_index s /\
    candidate_info s' = candidate_info s /\
    last_technical_answer s' = last_technical_answer s.
Proof.
  unfold update_request_branch. session_simpl.
  repeat case_if; session_simpl; do 2 eexists;
    (split; [reflexivity|]); session_simpl; repeat split; reflexivity.
Qed.

Lemma technical_branch_request inp text s :
  is_update_request text = true ->
  technical_branch inp text s = update_request_branch text s.
Proof.
  intro Hu. unfold technical_branch. session_simpl.
  unfold is_update_request in Hu. rewrite Hu. reflexivity.
Qed.

Lemma technical_branch_value inp text s :
  is_update_request text = false ->
  pending_update s = true ->
  technical_branch inp text s = update_value_branch inp text s.
Proof.
  intros Hu Hp. unfold technical_branch. session_simpl.
  unfold is_update_request in Hu. rewrite Hu, Hp. reflexivity.
Qed.

Lemma extract_in_session_run text response s :
  extract_in_session text response s
  = (set_candidate_info (fst (extract_candidate_info text response (candidate_info s))) s,
     snd (extract_candidate_info text response (candidate_info s))).
Proof.
  unfold extract_in_session, zoom.
  destruct (extract_candidate_info text response (candidate_info s)); reflexivity.
Qed.

(** The update-value branch when the extraction returns and a question
    is pending: the reply is not taken for an answer, the field named
    in the request is overwritten in the extracted profile, the flags
    of the sub-mode are cleared and the pending question is presented
    again under the confirmation. *)
Lemma update_value_branch_returns inp text s n q :
  snd (extract_candidate_info text (llm_extraction inp) (candidate_info s)) = inr tt ->
  py_len (technical_questions s) = inr n ->
  py_getitem (technical_questions s) (current_question_index s) = inr q ->
  exists s',
    update_value_branch inp text s
    = (s', inr (lang_get "update_confirmed" ++ nl ++ nl ++ "**"
                  ++ format_question (current_question_index s + 1) n ++ "**" ++ nl
                  ++ py_str q)%string) /\
    phase s' = phase s /\
    technical_questions s' = technical_questions s /\
    current_question_index s' = current_question_index s /\
    pending_update s' = false /\
    update_field s' = None /\
    last_technical_answer s' = last_technical_answer s /\
    candidate_info s'
    = overwrite_field (update_field s) text
        (fst (extract_candidate_info text (llm_extraction inp) (candidate_info s))) /\
    gateway s'
    = gateway s ++ [CreateOrUpdateCandidate (candidate_info s') (db_candidate inp)].
Proof.
  intros Hex Hn Hq. unfold update_value_branch.
  rewrite (bind_returns _ _ s (set_pending_update false s) tt eq_refl).
  erewrite bind_returns
    by (rewrite extract_in_session_run; session_simpl; rewrite Hex; reflexivity).
  session_simpl. unfold save_candidate_to_db. session_simpl.
  destruct (db_candidate inp); session_simpl;
    (erewrite bind_returns;
       [|apply present_question_returns; session_simpl; eassumption]);
    session_simpl; eexists; (split; [reflexivity|]); session_simpl;
    repeat split; reflexivity.
Qed.

Lemma update_request_not_empty text : is_update_request text = true -> text <> "".
Proof. intros H ->. discriminate H. Qed.

End UpdateRequests.

(** C5, as the code has it.  In the technical-questions phase a message
    that holds an update keyword and an info keyword leaves the
    question index and the question set as they are and is not taken
    for an answer.  Unless it also holds an end keyword, the session is
    then waiting for the new value.  The turn that brings it (a message
    with no end keyword that is no update request itself) again leaves
    index, question set and phase alone, is not taken for an answer
    either and clears the pending update; and provided the extraction
    pass returns on it and the question set holds a question at the
    index, the run answers with the confirmation followed by the
    question that was pending, under the same number. *)
Theorem update_request_keeps_question :
  forall (RT : Runtime) (inp1 : Inputs) (s : SessionState) (text1 : string),
    phase s = TechnicalQuestions ->
    prompt inp1 = Some text1 ->
    is_update_request text1 = true ->
    let s1 := after inp1 s in
    current_question_index s1 = current_question_index s /\
    technical_questions s1 = technical_questions s /\
    not_captured s s1 /\
    (should_end_conversation text1 = false ->
     phase s1 = TechnicalQuestions /\
     pending_update s1 = true /\
     forall (inp2 : Inputs) (text2 : string),
       prompt inp2 = Some text2 -> text2 <> "" ->
       should_end_conversation text2 = false ->
       is_update_request text2 = false ->
       let s2 := after inp2 s1 in
       current_question_index s2 = current_question_index s /\
       technical_questions s2 = technical_questions s /\
       phase s2 = TechnicalQuestions /\
       pending_update s2 = false /\
       not_captured s1 s2 /\
       forall (n : nat) (q : pyval),
         snd (extract_candidate_info text2 (llm_extraction inp2) (candidate_info s))
         = inr tt ->
         py_len (technical_questions s) = inr n ->
         py_getitem (technical_questions s) (current_question_index s) = inr q ->
         outcome inp2 s1
         = inr (Some (lang_get "update_confirmed" ++ nl ++ nl ++ "**"
                        ++ format_question (current_question_index s + 1) n ++ "**" ++ nl
                        ++ py_str q)%string)).
Proof.
  intros RT inp1 s text1 Hphase Hprompt Hreq s1.
  pose proof (truthy_text_some _ _ Hprompt (update_request_not_empty _ Hreq)) as Htext.
  destruct (main_reaches_end_check inp1 s text1 Htext) as (s0 & E & F & _ & A).
  specialize (A (takes_answer_skipped text1 s (or_introl Hreq))).
  destruct F as [Fphase Fq Fidx Fpend Ffield Fprof Fid].
  destruct (should_end_conversation text1) eqn:Hend.
  - (* the request also ends the conversation *)
    destruct (check_end_keywords_stops text1 s0 Hend)
      as (s' & E' & _ & Hq & Hi & _ & _ & Ha & _).
    assert (Hs1 : s1 = s').
    { unfold s1, after. rewrite E, (bind_raises _ _ _ _ _ E'). reflexivity. }
    rewrite Hs1. unfold not_captured in *. rewrite Ha.
    split; [congruence|]. split; [congruence|]. split; [exact A|].
    intro Habs. discriminate Habs.
  - destruct (update_request_branch_returns text1 s0)
      as (s' & r & E' & Hp & Hph & Hq & Hi & Hc & Ha).
    assert (Hmain : main inp1 s = (s', inr (Some r))).
    { rewrite E.
      rewrite (bind_returns _ _ s0 s0 tt (check_end_keywords_passes text1 s0 Hend)).
      rewrite dispatch_technical by congruence.
      rewrite (bind_returns _ _ s0 s' r); [reflexivity|].
      rewrite technical_branch_request by exact Hreq. exact E'. }
    assert (Hs1 : s1 = s') by (unfold s1, after; rewrite Hmain; reflexivity).
    rewrite Hs1. unfold not_captured in *. rewrite Ha.
    split; [congruence|]. split; [congruence|]. split; [exact A|].
    intros _. split; [congruence|]. split; [exact Hp|].
    intros inp2 text2 Hprompt2 Hne2 Hend2 Hreq2.
    destruct (main_reaches_dispatch inp2 s' text2
                (truthy_text_some _ _ Hprompt2 Hne2) Hend2)
      as (t0 & E2 & F2 & A2).
    specialize (A2 (or_intror Hp)).
    destruct F2 as [F2phase F2q F2idx F2pend F2field F2prof F2id].
    assert (Hrun : main inp2 s'
                   = bind (update_value_branch inp2 text2)
                          (fun response => ret (Some response)) t0).
    { rewrite E2. rewrite dispatch_technical by congruence.
      unfold bind. rewrite technical_branch_value by congruence. reflexivity. }
    destruct (update_value_branch_frame inp2 text2 t0) as (Vq & Vi & Vph & Va & Vp).
    unfold after, outcome. rewrite Hrun, fst_bind_ret.
    rewrite Vq, Vi, Vph, Va, Vp.
    split; [congruence|]. split; [congruence|]. split; [congruence|].
    split; [reflexivity|]. split; [rewrite <- Ha; exact A2|].
    intros n q Hex Hn Hget.
    destruct (update_value_branch_returns inp2 text2 t0 n q)
      as (t' & Ev & _); try congruence.
    rewrite (bind_returns _ _ _ _ _ Ev). session_simpl.
    replace (current_question_index t0) with (current_question_index s) by congruence.
    reflexivity.
Qed.

(** The second of three questions stays pending through a request to
    change the e-mail address and the reply that brings the new one. *)
Lemma update_request_keeps_question_witness :
  current_question_index
    (@after sample_runtime (say "asha.rao@example.org" "")
       (@after sample_runtime (say "please update my email" "") interview_session)) = 1 /\
  @outcome sample_runtime (say "asha.rao@example.org" "")
    (@after sample_runtime (say "please update my email" "") interview_session)
  = inr (Some ("update_confirmed" ++ nl ++ nl ++ "**" ++ "question_format" ++ "**" ++ nl
                 ++ "What does an index do?")%string).
Proof.
  destruct (update_request_keeps_question sample_runtime
              (say "please update my email" "") interview_session
              "please update my email" eq_refl eq_refl eq_refl)
    as (_ & _ & _ & Hnext).
  destruct (Hnext eq_refl) as (_ & _ & Hvalue).
  destruct (Hvalue (say "asha.rao@example.org" "") "asha.rao@example.org")
    as (Hidx & _ & _ & _ & _ & Hout);
    try reflexivity; try discriminate.
  split; [exact Hidx|].
  apply (Hout 3 (PStr "What does an index do?")); reflexivity.
Defined.

(** C5, as stated, fails: the question is not always presented again
    after the turn that brings the new value.  The interview session
    is asked to change the e-mail address and then given one; the
    language model's reading of that message lists a number for the
    technologies, on which the extraction pass raises.  The run ends
    there with the exception: the transcript has the user's message
    and nothing after it, the address is the old one, and the pending
    update is cleared. *)
Lemma update_value_turn_can_raise :
  phase (@after number_runtime (say "please update my email" "") interview_session)
  = TechnicalQuestions /\
  pending_update (@after number_runtime (say "please update my email" "") interview_session)
  = true /\
  @outcome number_runtime (say "asha.rao@example.org" number_reply)
    (@after number_runtime (say "please update my email" "") interview_session)
  = inl AttributeError /\
  messages (@after number_runtime (say "asha.rao@example.org" number_reply)
              (@after number_runtime (say "please update my email" "") interview_session))
  = messages (@after number_runtime (say "please update my email" "") interview_session)
    ++ [(User, "asha.rao@example.org")] /\
  email (candidate_info
           (@after number_runtime (say "asha.rao@example.org" number_reply)
              (@after number_runtime (say "please update my email" "") interview_session)))
  = PStr "asha@example.com" /\
  pending_update (@after number_runtime (say "asha.rao@example.org" number_reply)
                    (@after number_runtime (say "please update my email" "")
                       interview_session))
  = false.
Proof. vm_compute. repeat split. Qed.

(** ** A reply that brings no usable value (C10) *)

Lemma overwrite_field_unusable field text c :
  no_usable_match field text -> overwrite_field (Some field) text c = c.
Proof.
  destruct field; cbn [overwrite_field no_usable_match]; intro H.
  - contradiction.
  - rewrite H. reflexivity.
  - destruct (Re.search phone_pattern text) as [m|]; [|reflexivity].
    apply Nat.leb_gt in H. rewrite H. reflexivity.
Qed.

Lemma field_value_kept field c c' :
  advances c c' ->
  truthy (field_value field c) = true ->
  field_value field c' = field_value field c.
Proof.
  intros [Hn He Hp _ Hl _ _] Hset. destruct field; simpl in *; auto.
Qed.

Section UpdateValue.

Context {RT : Runtime}.

(** The update-value branch when the extraction raises: the run ends
    there, with the profile as the pass left it. *)
Lemma update_value_branch_raises inp text s e :
  snd (extract_candidate_info text (llm_extraction inp) (candidate_info s)) = inl e ->
  snd (update_value_branch inp text s) = inl e /\
  candidate_info (fst (update_value_branch inp text s))
  = fst (extract_candidate_info text (llm_extraction inp) (candidate_info s)) /\
  gateway (fst (update_value_branch inp text s)) = gateway s.
Proof.
  intro Hex. unfold update_value_branch.
  rewrite (bind_returns _ _ s (set_pending_update false s) tt eq_refl).
  erewrite bind_raises
    by (rewrite extract_in_session_run; session_simpl; rewrite Hex; reflexivity).
  session_simpl. auto.
Qed.

(** The update-value branch when the extraction returns: the field
    named in the request is overwritten in the extracted profile and
    the profile is saved, whether or not a question can be presented
    after that. *)
Lemma update_value_branch_saves inp text s :
  snd (extract_candidate_info text (llm_extraction inp) (candidate_info s)) = inr tt ->
  candidate_info (fst (update_value_branch inp text s))
  = overwrite_field (update_field s) text
      (fst (extract_candidate_info text (llm_extraction inp) (candidate_info s))) /\
  gateway (fst (update_value_branch inp text s))
  = gateway s
    ++ [CreateOrUpdateCandidate
          (candidate_info (fst (update_value_branch inp text s))) (db_candidate inp)].
Proof.
  intro Hex. unfold update_value_branch.
  rewrite (bind_returns _ _ s (set_pending_update false s) tt eq_refl).
  erewrite bind_returns
    by (rewrite extract_in_session_run; session_simpl; rewrite Hex; reflexivity).
  session_simpl. unfold save_candidate_to_db. session_simpl.
  destruct (db_candidate inp); session_simpl;
    match goal with
    | |- context [bind (present_question ?h) ?k ?t] =>
        pose proof (present_question_keeps_state h t) as Hkeep;
        unfold bind;
        destruct (present_question h t) as [t' [err|response]];
        simpl in Hkeep; subst t'
    end;
    session_simpl; auto.
Qed.

End UpdateValue.

(** C10, as the code has it.  In update sub-mode with the field known
    to be the e-mail address or the phone number, a reply that is
    handled as the new value (no end keyword in it, no update request)
    and holds no usable match clears the pending update and keeps
    phase, question index and question set.  The profile is the one the
    extraction pass on the reply leaves: scalars that were set, the
    named field among them if it was, are unchanged, but unset ones may
    be filled and the lists may have grown.  If the extraction pass
    returns, the profile is saved again; and if moreover the question
    set holds a question at the index, the field marker is cleared and
    the run presents that question under the confirmation, with no
    error. *)
Theorem failed_update_is_silent :
  forall (RT : Runtime) (inp : Inputs) (s : SessionState) (text : string)
         (field : UpdateField),
    phase s = TechnicalQuestions ->
    pending_update s = true ->
    update_field s = Some field ->
    prompt inp = Some text -> text <> "" ->
    should_end_conversation text = false ->
    is_update_request text = false ->
    no_usable_match field text ->
    let pass := extract_candidate_info text (llm_extraction inp) (candidate_info s) in
    let s' := after inp s in
    pending_update s' = false /\
    phase s' = TechnicalQuestions /\
    current_question_index s' = current_question_index s /\
    technical_questions s' = technical_questions s /\
    candidate_info s' = fst pass /\
    advances (candidate_info s) (candidate_info s') /\
    (truthy (field_value field (candidate_info s)) = true ->
     field_value field (candidate_info s') = field_value field (candidate_info s)) /\
    (snd pass = inr tt ->
     (exists earlier,
         gateway s'
         = earlier ++ [CreateOrUpdateCandidate (candidate_info s') (db_candidate inp)]) /\
     forall (n : nat) (q : pyval),
       py_len (technical_questions s) = inr n ->
       py_getitem (technical_questions s) (current_question_index s) = inr q ->
       update_field s' = None /\
       outcome inp s
       = inr (Some (lang_get "update_confirmed" ++ nl ++ nl ++ "**"
                      ++ format_question (current_question_index s + 1) n ++ "**" ++ nl
                      ++ py_str q)%string)).
Proof.
  intros RT inp s text field Hphase Hpend Hfield Hprompt Hne Hend Hreq Hunusable pass s'.
  destruct (main_reaches_dispatch inp s text (truthy_text_some _ _ Hprompt Hne) Hend)
    as (s0 & E & F & _).
  destruct F as [Fphase Fq Fidx Fpend Ffield Fprof Fid].
  assert (Hrun : main inp s
                 = bind (update_value_branch inp text)
                        (fun response => ret (Some response)) s0).
  { rewrite E. rewrite dispatch_technical by congruence.
    unfold bind. rewrite technical_branch_value by congruence. reflexivity. }
  assert (Hs' : s' = fst (update_value_branch inp text s0)).
  { unfold s', after. rewrite Hrun. apply fst_bind_ret. }
  destruct (update_value_branch_frame inp text s0) as (Vq & Vi & Vph & _ & Vp).
  assert (Hprofile : candidate_info s' = fst pass).
  { rewrite Hs'. subst pass. rewrite <- Fprof.
    destruct (snd (extract_candidate_info text (llm_extraction inp) (candidate_info s0)))
      as [e|[]] eqn:Hex.
    - apply (update_value_branch_raises inp text s0 e Hex).
    - destruct (update_value_branch_saves inp text s0 Hex) as [Hc _].
      rewrite Hc, Ffield, Hfield. apply overwrite_field_unusable, Hunusable. }
  assert (Hadv : advances (candidate_info s) (candidate_info s')).
  { rewrite Hprofile. apply extract_candidate_info_advances. }
  split; [rewrite Hs'; exact Vp|].
  split; [rewrite Hs'; congruence|].
  split; [rewrite Hs'; congruence|].
  split; [rewrite Hs'; congruence|].
  split; [exact Hprofile|].
  split; [exact Hadv|].
  split; [apply field_value_kept, Hadv|].
  intro Hret. subst pass. rewrite <- Fprof in Hret. split.
  - destruct (update_value_branch_saves inp text s0 Hret) as [_ Hg].
    exists (gateway s0). rewrite Hs'. exact Hg.
  - intros n q Hn Hq.
    destruct (update_value_branch_returns inp text s0 n q)
      as (t & Ev & _ & _ & _ & _ & Vf & _); try congruence.
    unfold outcome. rewrite Hs', Hrun, (bind_returns _ _ _ _ _ Ev), Ev. session_simpl.
    split; [exact Vf|].
    replace (current_question_index s0) with (current_question_index s) by congruence.
    reflexivity.
Qed.

(** A reply without an address, to which the language model adds
    nothing. *)
Lemma failed_update_is_silent_witness :
  email (candidate_info (@after sample_runtime (say "I will send it later" "") awaiting_email))
  = PStr "asha@example.com" /\
  pending_update (@after sample_runtime (say "I will send it later" "") awaiting_email) = false /\
  @outcome sample_runtime (say "I will send it later" "") awaiting_email
  = inr (Some ("update_confirmed" ++ nl ++ nl ++ "**" ++ "question_format" ++ "**" ++ nl
                 ++ "What does an index do?")%string).
Proof.
  assert (Hne : "I will send it later" <> "") by discriminate.
  destruct (failed_update_is_silent sample_runtime (say "I will send it later" "")
              awaiting_email "I will send it later" UpdEmail
              eq_refl eq_refl eq_refl eq_refl Hne eq_refl eq_refl eq_refl)
    as (Hpending & _ & _ & _ & _ & _ & Hfield & Hreturns).
  split; [exact (Hfield eq_refl)|]. split; [exact Hpending|].
  destruct (Hreturns eq_refl) as [_ Hquestion].
  destruct (Hquestion 3 (PStr "What does an index do?") eq_refl eq_refl) as [_ Hout].
  exact Hout.
Defined.

(** C10, as stated, fails: the reply to an update request goes through
    the extraction pass, which works on the session's own profile,
    before the named field is looked for, and what the pass changes
    stays changed.  Here the session waits for a new e-mail address and
    the reply holds none: the address stays and the pending update is
    cleared, but the language model's reading of the reply has added
    "Rust" to [tech_stack], so the rest of the state is not as it was. *)
Lemma failed_update_changes_profile :
  phase awaiting_email = TechnicalQuestions /\
  pending_update awaiting_email = true /\
  update_field awaiting_email = Some UpdEmail /\
  Re.search email_pattern "I also know Rust" = None /\
  email (candidate_info (@after sample_runtime (say "I also know Rust" rust_reply) awaiting_email))
  = email (candidate_info awaiting_email) /\
  pending_update (@after sample_runtime (say "I also know Rust" rust_reply) awaiting_email)
  = false /\
  tech_stack (candidate_info awaiting_email) = ["Python"; "SQL"] /\
  tech_stack (candidate_info
                (@after sample_runtime (say "I also know Rust" rust_reply) awaiting_email))
  = ["Python"; "SQL"; "Rust"].
Proof. repeat split. Qed.


(** ** End keywords (C6) *)

Section EndKeywords.

Context {RT : Runtime}.

Lemma end_keyword_not_empty text : should_end_conversation text = true -> text <> "".
Proof. intros H ->. discriminate H. Qed.

(** A message with an end keyword stops the run with the farewell said,
    the phase completed, and profile, question set and question index
    untouched: no extraction and no branch of the phase runs. *)
Lemma end_keyword_stops_run inp s text :
  prompt inp = Some text ->
  should_end_conversation text = true ->
  outcome inp s = inl StopException /\
  phase (after inp s) = Completed /\
  candidate_info (after inp s) = candidate_info s /\
  technical_questions (after inp s) = technical_questions s /\
  current_question_index (after inp s) = current_question_index s /\
  pending_update (after inp s) = pending_update s.
Proof.
  intros Hprompt Hend.
  destruct (main_reaches_end_check inp s text
              (truthy_text_some _ _ Hprompt (end_keyword_not_empty _ Hend)))
    as (s0 & E & F & _).
  destruct F as [_ Fq Fi Fp _ Fc _].
  destruct (check_end_keywords_stops text s0 Hend)
    as (s' & E' & Hph & Hq & Hi & Hc & Hp & _).
  unfold outcome, after. rewrite E, (bind_raises _ _ _ _ _ E'). session_simpl.
  repeat split; congruence.
Qed.

Lemma flush_technical_answer_logs inp s text cid :
  last_technical_answer s = Some text -> text <> "" ->
  truthy_id (candidate_id s) = Some cid ->
  exists s',
    flush_technical_answer inp s = (s', inr tt) /\
    gateway s'
    = gateway s ++ [SaveTechnicalAnswer cid (Z.of_nat (current_question_index s) - 1) text].
Proof.
  intros Ha Hne Hid. unfold flush_technical_answer. session_simpl.
  rewrite (truthy_text_some _ _ Ha Hne), Hid. session_simpl.
  destruct (db_answer_saved inp); session_simpl; eexists; split; reflexivity.
Qed.

(** Whatever a run goes on to do, it first stores the answer that is
    awaiting storage, against the question before the current one. *)
Lemma next_run_stores_answer inp s text cid :
  last_technical_answer s = Some text -> text <> "" ->
  truthy_id (candidate_id s) = Some cid ->
  In (SaveTechnicalAnswer cid (Z.of_nat (current_question_index s) - 1) text)
     (gateway (after inp s)).
Proof.
  intros Ha Hne Hid. unfold after, main.
  destruct (start_conversation_frame s) as (s1 & E1 & F1 & A1).
  rewrite (bind_returns _ _ _ _ _ E1).
  destruct F1 as [_ _ Fi _ _ _ Fid].
  destruct (flush_technical_answer_logs inp s1 text cid) as (s2 & E2 & G2);
    try congruence.
  rewrite (bind_returns _ _ _ _ _ E2).
  assert (Hin : In (SaveTechnicalAnswer cid (Z.of_nat (current_question_index s) - 1) text)
                   (gateway s2)).
  { rewrite G2, Fi. apply in_or_app. right. left. reflexivity. }
  destruct (truthy_text (prompt inp)) as [text'|].
  - destruct (handle_prompt_grows inp text' s2) as [calls Hcalls].
    rewrite Hcalls. apply in_or_app. left. exact Hin.
  - exact Hin.
Qed.

End EndKeywords.

(** C6. In the technical-questions phase, with the candidate saved and
    no update pending, a message that holds an end keyword (and asks
    for no update) ends the conversation as it should, farewell and
    completed phase included, but before that it has been taken for the
    answer to a technical question: it is the answer awaiting storage
    when the run stops, and the next run, whatever it is about, stores
    it against the question before the current one. *)
Theorem end_keyword_message_taken_for_answer :
  forall (RT : Runtime) (inp : Inputs) (s : SessionState) (text : string) (cid : Z),
    phase s = TechnicalQuestions ->
    truthy_id (candidate_id s) = Some cid ->
    pending_update s = false ->
    prompt inp = Some text ->
    should_end_conversation text = true ->
    is_update_request text = false ->
    let s1 := after inp s in
    outcome inp s = inl StopException /\
    phase s1 = Completed /\
    current_question_index s1 = current_question_index s /\
    last_technical_answer s1 = Some text /\
    forall inp' : Inputs,
      In (SaveTechnicalAnswer cid (Z.of_nat (current_question_index s) - 1) text)
         (gateway (after inp' s1)).
Proof.
  intros RT inp s text cid Hphase Hid Hpend Hprompt Hend Hreq s1.
  pose proof (end_keyword_not_empty _ Hend) as Hne.
  assert (Htake : takes_answer text s = true).
  { unfold takes_answer. rewrite Hphase, Hid, Hreq, Hpend. reflexivity. }
  destruct (main_reaches_end_check inp s text (truthy_text_some _ _ Hprompt Hne))
    as (s0 & E & F & A & _).
  specialize (A Htake).
  destruct F as [_ _ Fi _ _ _ Fid].
  destruct (check_end_keywords_stops text s0 Hend)
    as (s' & E' & Hph & _ & Hi & _ & _ & Ha & Hcid).
  assert (Hs1 : s1 = s').
  { unfold s1, after. rewrite E, (bind_raises _ _ _ _ _ E'). reflexivity. }
  assert (Hout : outcome inp s = inl StopException).
  { unfold outcome. rewrite E, (bind_raises _ _ _ _ _ E'). reflexivity. }
  rewrite Hs1.
  split; [exact Hout|]. split; [exact Hph|]. split; [congruence|].
  split; [congruence|].
  intro inp'.
  replace (current_question_index s) with (current_question_index s') by congruence.
  apply next_run_stores_answer; congruence.
Qed.

(** With the second of three questions pending, "bye" is stored as an
    answer to the first. *)
Lemma end_keyword_message_taken_for_answer_witness :
  last_technical_answer (@after sample_runtime (say "bye" "") interview_session) = Some "bye" /\
  In (SaveTechnicalAnswer 1 0 "bye")
     (gateway (@after sample_runtime rerun
                 (@after sample_runtime (say "bye" "") interview_session))).
Proof.
  destruct (end_keyword_message_taken_for_answer sample_runtime (say "bye" "")
              interview_session "bye" 1%Z)
    as (_ & _ & _ & Hanswer & Hstored);
    try reflexivity.
  split; [exact Hanswer | exact (Hstored rerun)].
Defined.

(** ** The transcript (C9) *)

Lemma unsaved_session_logs_nothing {RT : Runtime} role content s :
  truthy_id (candidate_id s) = None ->
  save_message_to_db role content s = (s, inr tt).
Proof.
  intro H. unfold save_message_to_db. session_simpl. rewrite H. reflexivity.
Qed.

Lemma no_new_user_log_refl s : no_new_user_log s s.
Proof. intros cid content H. exact H. Qed.

Lemma no_new_user_log_trans s1 s2 s3 :
  no_new_user_log s1 s2 -> no_new_user_log s2 s3 -> no_new_user_log s1 s3.
Proof. intros H12 H23 cid content H. apply H12, H23, H. Qed.

Ltac no_user_log_leaf :=
  unfold no_new_user_log; session_simpl; intros ? ? Hin;
  first [ exact Hin
        | apply in_app_or in Hin; destruct Hin as [Hin|[Hin|[]]];
          [exact Hin | discriminate Hin] ].

Section Transcript.

Context {RT : Runtime}.

Lemma dispatch_logs_no_user_message inp text : stable no_new_user_log (dispatch inp text).
Proof.
  unfold dispatch, info_branch, technical_branch, update_request_branch,
    update_value_branch, answer_branch, save_candidate_to_db, save_message_to_db,
    present_question.
  stable_walk no_new_user_log_refl no_new_user_log_trans no_user_log_leaf;
    apply extract_in_session_stable; intros; no_user_log_leaf.
Qed.

Lemma check_end_logs_no_user_message text :
  stable no_new_user_log (check_end_keywords text).
Proof.
  unfold check_end_keywords, save_message_to_db.
  stable_walk no_new_user_log_refl no_new_user_log_trans no_user_log_leaf.
Qed.

Lemma prelude_logs_no_user_message inp :
  stable no_new_user_log (bind start_conversation (fun _ => flush_technical_answer inp)).
Proof.
  unfold start_conversation, flush_technical_answer, save_message_to_db.
  stable_walk no_new_user_log_refl no_new_user_log_trans no_user_log_leaf.
Qed.

(** As long as the candidate has not been saved, a run does not write
    the user's message to the transcript, whatever the message is and
    whatever the run goes on to do. *)
Lemma first_message_never_logged inp s :
  truthy_id (candidate_id s) = None ->
  no_new_user_log s (after inp s).
Proof.
  intro Hid. unfold after, main.
  destruct (start_conversation_frame s) as (s1 & E1 & F1 & _).
  destruct (flush_technical_answer_frame inp s1) as (s2 & E2 & F2 & _).
  pose proof (prelude_logs_no_user_message inp s) as Hpre.
  unfold bind in Hpre at 1. rewrite E1, E2 in Hpre. cbn [fst] in Hpre.
  rewrite (bind_returns _ _ _ _ _ E1), (bind_returns _ _ _ _ _ E2).
  destruct (truthy_text (prompt inp)) as [text|]; [|exact Hpre].
  eapply no_new_user_log_trans; [exact Hpre|].
  unfold handle_prompt.
  rewrite (bind_returns _ _ s2 (append_message User text s2) tt eq_refl).
  assert (Hid2 : truthy_id (candidate_id (append_message User text s2)) = None).
  { session_simpl. rewrite (sf_id _ _ F2), (sf_id _ _ F1). exact Hid. }
  rewrite (bind_returns _ _ _ _ _ (unsaved_session_logs_nothing User text _ Hid2)).
  apply (no_new_user_log_trans _ (append_message User text s2));
    [no_user_log_leaf|].
  assert (Hrest : stable no_new_user_log
                    (bind (capture_technical_answer text)
                       (fun _ => bind (check_end_keywords text)
                                   (fun _ => dispatch inp text)))).
  { apply (stable_bind no_new_user_log no_new_user_log_trans).
    - unfold capture_technical_answer.
      stable_walk no_new_user_log_refl no_new_user_log_trans no_user_log_leaf.
    - intros _. apply (stable_bind no_new_user_log no_new_user_log_trans).
      + apply check_end_logs_no_user_message.
      + intros _. apply dispatch_logs_no_user_message. }
  apply Hrest.
Qed.

(** The information branch saves the profile the extraction leaves. *)
Lemma info_branch_saves_profile inp text s :
  snd (extract_candidate_info text (llm_extraction inp) (candidate_info s)) = inr tt ->
  In (CreateOrUpdateCandidate
        (fst (extract_candidate_info text (llm_extraction inp) (candidate_info s)))
        (db_candidate inp))
     (gateway (fst (info_branch inp text s))).
Proof.
  intro Hex. unfold info_branch.
  erewrite bind_returns
    by (rewrite extract_in_session_run, Hex; reflexivity).
  match goal with
  | |- context [bind (save_candidate_to_db inp) ?k ?st] =>
      assert (Hrest : stable grows (k tt));
        [| destruct (save_candidate_to_db inp st) as [sb [e|[]]] eqn:Esave ]
  end.
  - stable_walk grows_refl grows_trans grows_leaf;
      apply save_message_to_db_grows.
  - unfold save_candidate_to_db in Esave. session_simpl.
    destruct (db_candidate inp); discriminate Esave.
  - rewrite (bind_returns _ _ _ _ _ Esave).
    destruct (Hrest sb) as [calls Hcalls]. rewrite Hcalls.
    apply in_or_app. left.
    unfold save_candidate_to_db in Esave. session_simpl.
    destruct (db_candidate inp); injection Esave as <-; session_simpl;
      apply in_or_app; right; left; reflexivity.
Qed.

End Transcript.

(** C9. A session starts without a candidate id, and a message is only
    written to the transcript once there is one.  The greeting is said
    on the first run and the candidate is first saved while the first
    message is handled, after that message was due to be written: of
    the three messages of the opening exchange only the assistant's
    second reaches the gateway. *)
Theorem opening_messages_not_logged :
  forall (RT : Runtime),
    let s1 := after rerun init_session_state in
    let s2 := after (say "Helen" "") s1 in
    messages s1 = [(Assistant, lang_get "greeting")] /\
    gateway s1 = [] /\
    messages s2 = [ (Assistant, lang_get "greeting"); (User, "Helen");
                    (Assistant, "Could you tell me more?") ] /\
    gateway s2 = [ CreateOrUpdateCandidate
                     (set_full_name (PStr "Helen") CandidateInfo_new) (Some 1%Z);
                   SaveConversationLog 1 Assistant "Could you tell me more?" ].
Proof.
  intro RT. repeat split.
Qed.

(** ** A question is pending throughout the interview *)

Section PendingQuestion.

Context {RT : Runtime}.

Lemma py_getitem_in_range v i x n :
  py_len v = inr n -> py_getitem v i = inr x -> i < n.
Proof.
  destruct v; simpl; intros Hn Hx; try discriminate.
  - injection Hn as <-.
    destruct (String.get i s) eqn:G; [|discriminate].
    clear Hx. revert i G. induction s as [|c s IH]; intros i G; simpl in *.
    + discriminate.
    + destruct i; [lia|]. apply IH in G. lia.
  - injection Hn as <-.
    destruct (nth_error l i) eqn:G; [|discriminate].
    apply nth_error_Some. congruence.
Qed.

Lemma dispatch_info inp text s :
  phase s = Greeting \/ phase s = InfoGathering ->
  dispatch inp text s
  = bind (info_branch inp text) (fun response => ret (Some response)) s.
Proof.
  intros [H|H]; unfold dispatch; session_simpl; rewrite H; reflexivity.
Qed.

Lemma bind_inv {S A B : Type} (m : M S A) (f : A -> M S B) s s' b :
  bind m f s = (s', inr b) ->
  exists s1 a, m s = (s1, inr a) /\ f a s1 = (s', inr b).
Proof.
  unfold bind. destruct (m s) as [s1 [e|a]]; intro H; [discriminate|].
  exists s1, a. split; [reflexivity | exact H].
Qed.

(** Splits a run that returned into the runs of its steps. *)
Ltac returned H :=
  repeat
    match type of H with
    | bind _ _ _ = (_, inr _) =>
        let s1 := fresh "s" in
        let a := fresh "a" in
        let H1 := fresh "H" in
        apply bind_inv in H; destruct H as (s1 & a & H1 & H);
        returned H1
    | modify _ _ = (_, inr _) => unfold modify in H; injection H as <- <-
    | get _ = (_, inr _) => unfold get in H; injection H as <- <-
    | ret _ _ = (_, inr _) => unfold ret in H; injection H as <- <-
    | raise _ _ = (_, inr _) => discriminate H
    | when ?b _ _ = (_, inr _) => destruct b eqn:?; unfold when in H
    | lift ?r _ = (_, inr _) => destruct r eqn:?; unfold lift in H
    | (match ?x with _ => _ end) _ = (_, inr _) => destruct x eqn:?
    end.

(** The interview is entered with its first question pending: a run of
    the information branch that returns in the technical-questions
    phase has set the index to 0 and has a question at that index. *)
Lemma info_branch_enters_with_question inp text s s' response :
  info_branch inp text s = (s', inr response) ->
  phase s' = TechnicalQuestions ->
  current_question_index s' = 0 /\ question_pending s'.
Proof.
  unfold info_branch, save_candidate_to_db, save_message_to_db.
  intro H. returned H; session_simpl; intro Hph; try discriminate Hph.
  all: split; [reflexivity|]; unfold question_pending; session_simpl;
    eexists; split; [eassumption | eapply py_getitem_in_range; eassumption].
Qed.

(** While the interview lasts, a question stays pending: whatever a run
    is given, and whether it returns, stops or raises, if it leaves the
    session in the technical-questions phase then the question set is
    the one there was and the index is still below its length. *)
Lemma question_stays_pending inp s n :
  phase s = TechnicalQuestions ->
  py_len (technical_questions s) = inr n ->
  current_question_index s < n ->
  phase (after inp s) = TechnicalQuestions ->
  technical_questions (after inp s) = technical_questions s /\
  current_question_index (after inp s) < n.
Proof.
  intros Hphase Hn Hlt. unfold after.
  destruct (truthy_text (prompt inp)) as [text|] eqn:Hprompt.
  - destruct (main_reaches_end_check inp s text Hprompt) as (s0 & E & F & _).
    destruct F as [Fph Fq Fi Fp _ _ _]. rewrite E.
    destruct (should_end_conversation text) eqn:Hend.
    + destruct (check_end_keywords_stops text s0 Hend) as (s' & E' & Hc & _).
      rewrite (bind_raises _ _ _ _ _ E'). session_simpl. congruence.
    + rewrite (bind_returns _ _ s0 s0 tt (check_end_keywords_passes text s0 Hend)).
      rewrite dispatch_technical by congruence. rewrite fst_bind_ret.
      destruct (is_update_request text) eqn:Hreq.
      * rewrite technical_branch_request by exact Hreq.
        destruct (update_request_branch_returns text s0)
          as (s' & r & E' & _ & _ & Hq & Hi & _).
        rewrite E'. session_simpl. intros _. split; [congruence|lia].
      * destruct (pending_update s0) eqn:Hp.
        -- rewrite technical_branch_value by assumption.
           destruct (update_value_branch_frame inp text s0) as (Hq & Hi & _).
           intros _. split; [congruence|lia].
        -- rewrite technical_branch_answer by assumption.
           rewrite (answer_branch_state s0 n) by congruence.
           destruct (current_question_index s0 + 1 <? n)%nat eqn:Hnext;
             session_simpl; [|discriminate].
           apply Nat.ltb_lt in Hnext. intros _. split; [congruence|lia].
  - unfold main.
    destruct (start_conversation_frame s) as (s1 & E1 & F1 & _).
    rewrite (bind_returns _ _ _ _ _ E1).
    destruct (flush_technical_answer_frame inp s1) as (s2 & E2 & F2 & _).
    rewrite (bind_returns _ _ _ _ _ E2). rewrite Hprompt. session_simpl.
    destruct F1 as [_ Fq1 Fi1 _ _ _ _], F2 as [_ Fq2 Fi2 _ _ _ _].
    intros _. split; [congruence|lia].
Qed.


End PendingQuestion.
(** * Further properties of the conversation

    Statements about a run are about [main] as far as its listing
    goes: it ends inside the branch that completes the interview, after
    the farewell has been chosen. *)

(** ** The shape of a run *)

Section RunShape.

Context {RT : Runtime}.

Lemma main_without_prompt inp s :
  truthy_text (prompt inp) = None ->
  exists s1, main inp s = (s1, inr None) /\ same_flow s s1 /\ not_captured s s1.
Proof.
  intro Hprompt. unfold main.
  destruct (start_conversation_frame s) as (s1 & E1 & F1 & A1).
  rewrite (bind_returns _ _ _ _ _ E1).
  destruct (flush_technical_answer_frame inp s1) as (s2 & E2 & F2 & A2).
  rewrite (bind_returns _ _ _ _ _ E2).
  rewrite Hprompt. exists s2. split; [reflexivity|]. split.
  - eapply same_flow_trans; eassumption.
  - unfold not_captured in *. rewrite <- A1. exact A2.
Qed.

Lemma check_end_keywords_stops_flow text s :
  should_end_conversation text = true ->
  exists s', check_end_keywords text s = (s', inl StopException) /\
             same_flow (set_phase Completed s) s' /\
             last_technical_answer s' = last_technical_answer s.
Proof.
  intro H. unfold check_end_keywords. rewrite H. unfold when.
  rewrite (bind_returns _ _ s (append_message Assistant generate_farewell s) tt eq_refl).
  destruct (save_message_to_db_frame Assistant generate_farewell
              (append_message Assistant generate_farewell s)) as (s1 & E1 & F1 & A1).
  rewrite (bind_returns _ _ _ _ _ E1).
  destruct F1 as [Fph Fq Fi Fp Ff Fc Fid]. session_simpl.
  eexists. split; [reflexivity|]. session_simpl.
  split; [constructor; session_simpl; congruence | exact A1].
Qed.

Lemma bind_assoc {S A B C : Type} (m : M S A) (f : A -> M S B) (g : B -> M S C) s :
  bind (bind m f) g s = bind m (fun a => bind (f a) g) s.
Proof. unfold bind. destruct (m s) as [s' [e|a]]; reflexivity. Qed.

Lemma opening_returns inp s :
  exists s1, opening inp s = (s1, inr tt) /\ same_flow s s1 /\ not_captured s s1.
Proof.
  unfold opening.
  destruct (start_conversation_frame s) as (s1 & E1 & F1 & A1).
  rewrite (bind_returns _ _ _ _ _ E1).
  destruct (flush_technical_answer_frame inp s1) as (s2 & E2 & F2 & A2).
  exists s2. split; [exact E2|]. split.
  - eapply same_flow_trans; eassumption.
  - unfold not_captured in *. rewrite <- A1. exact A2.
Qed.

Lemma prelude_returns inp text s :
  exists s1, prelude inp text s = (s1, inr tt) /\ same_flow s s1.
Proof.
  unfold prelude.
  destruct (opening_returns inp s) as (s1 & E1 & F1 & _).
  rewrite (bind_returns _ _ _ _ _ E1).
  rewrite (bind_returns _ _ s1 (append_message User text s1) tt eq_refl).
  destruct (save_message_to_db_frame User text (append_message User text s1))
    as (s3 & E3 & F3 & _).
  rewrite (bind_returns _ _ _ _ _ E3).
  destruct (capture_technical_answer_frame text s3) as (s4 & E4 & F4 & _).
  exists s4. split; [exact E4|].
  eapply same_flow_trans; [exact F1|].
  eapply same_flow_trans; [|exact F4].
  eapply same_flow_trans; [|exact F3].
  constructor; reflexivity.
Qed.

Lemma main_on_message inp s text :
  truthy_text (prompt inp) = Some text ->
  main inp s
  = bind (check_end_keywords text) (fun _ => dispatch inp text) (fst (prelude inp text s)).
Proof.
  intro Hprompt.
  destruct (prelude_returns inp text s) as (s4 & E & _).
  rewrite E. simpl fst.
  transitivity (bind (prelude inp text)
                  (fun _ => bind (check_end_keywords text) (fun _ => dispatch inp text)) s).
  2:{ exact (bind_returns (prelude inp text)
               (fun _ => bind (check_end_keywords text) (fun _ => dispatch inp text))
               s s4 tt E). }
  unfold main, prelude, opening, handle_prompt.
  rewrite ?bind_assoc.
  destruct (start_conversation_frame s) as (s1 & E1 & _).
  rewrite !(bind_returns _ _ _ _ _ E1), ?bind_assoc.
  destruct (flush_technical_answer_frame inp s1) as (s2 & E2 & _).
  rewrite !(bind_returns _ _ _ _ _ E2), Hprompt, ?bind_assoc.
  rewrite !(bind_returns _ _ s2 (append_message User text s2) tt eq_refl), ?bind_assoc.
  destruct (save_message_to_db_frame User text (append_message User text s2))
    as (s3 & E3 & _).
  rewrite !(bind_returns _ _ _ _ _ E3).
  reflexivity.
Qed.

Lemma main_idle inp s :
  truthy_text (prompt inp) = None ->
  main inp s = (fst (opening inp s), inr None).
Proof.
  intro Hprompt.
  destruct (opening_returns inp s) as (s2 & E & _).
  rewrite E. simpl fst.
  transitivity (bind (opening inp) (fun _ => ret (@None string)) s).
  2:{ exact (bind_returns (opening inp) (fun _ => ret (@None string)) s s2 tt E). }
  unfold main, opening. rewrite ?bind_assoc.
  destruct (start_conversation_frame s) as (s1 & E1 & _).
  rewrite !(bind_returns _ _ _ _ _ E1).
  destruct (flush_technical_answer_frame inp s1) as (s2' & E2 & _).
  rewrite !(bind_returns _ _ _ _ _ E2), Hprompt. reflexivity.
Qed.

(** What a run does, by cases: without a message it returns; on a
    message with an end keyword it stops in the completed phase; on any
    other message it is the branch of the phase. *)
Lemma run_cases inp s :
  (truthy_text (prompt inp) = None /\
   exists s1, s1 = fst (opening inp s) /\ main inp s = (s1, inr None) /\ same_flow s s1) \/
  (exists text s1,
      truthy_text (prompt inp) = Some text /\ s1 = fst (prelude inp text s) /\
      same_flow s s1 /\
      ((should_end_conversation text = true /\
        snd (main inp s) = inl StopException /\
        fst (main inp s) = fst (check_end_keywords text s1) /\
        same_flow (set_phase Completed s1) (fst (main inp s))) \/
       (should_end_conversation text = false /\ main inp s = dispatch inp text s1))).
Proof.
  destruct (truthy_text (prompt inp)) as [text|] eqn:Hprompt.
  - right. exists text, (fst (prelude inp text s)).
    split; [reflexivity|]. split; [reflexivity|].
    destruct (prelude_returns inp text s) as (s1 & E1 & F).
    rewrite (main_on_message inp s text Hprompt), E1. simpl fst.
    split; [exact F|].
    destruct (should_end_conversation text) eqn:Hend.
    + left. split; [reflexivity|].
      destruct (check_end_keywords_stops_flow text s1 Hend) as (s' & E' & F' & _).
      rewrite (bind_raises _ _ _ _ _ E'), E'. split; [reflexivity|]. split; [reflexivity|]. exact F'.
    + right. split; [reflexivity|].
      rewrite (bind_returns _ _ s1 s1 tt (check_end_keywords_passes text s1 Hend)).
      reflexivity.
  - left. split; [reflexivity|].
    exists (fst (opening inp s)). split; [reflexivity|].
    split; [apply main_idle, Hprompt|].
    destruct (opening_returns inp s) as (s1 & E & F & _). rewrite E. exact F.
Qed.

End RunShape.

(** ** The phases in order *)

Lemma info_step_refl s : info_step s s.
Proof. left. reflexivity. Qed.

Lemma info_step_trans s1 s2 s3 : info_step s1 s2 -> info_step s2 s3 -> info_step s1 s3.
Proof. unfold info_step. intros H1 [H2|H2]; [rewrite H2; exact H1 | auto]. Qed.

Lemma closing_step_refl s : closing_step s s.
Proof. left. reflexivity. Qed.

Lemma closing_step_trans s1 s2 s3 :
  closing_step s1 s2 -> closing_step s2 s3 -> closing_step s1 s3.
Proof. unfold closing_step. intros H1 [H2|H2]; [rewrite H2; exact H1 | auto]. Qed.

Lemma interview_forward_refl s : interview_forward s s.
Proof. split; [reflexivity | apply Nat.le_refl]. Qed.

Lemma interview_forward_trans s1 s2 s3 :
  interview_forward s1 s2 -> interview_forward s2 s3 -> interview_forward s1 s3.
Proof. intros [Q1 I1] [Q2 I2]. split; [congruence | lia]. Qed.

Lemma same_flow_interview_forward s s' : same_flow s s' -> interview_forward s s'.
Proof. intros [_ Fq Fi _ _ _ _]. split; [exact Fq | rewrite Fi; apply Nat.le_refl]. Qed.

Ltac phase_leaf := unfold info_step, closing_step; session_simpl; auto.

Ltac interview_leaf :=
  unfold interview_forward; session_simpl; split; [reflexivity | lia].

Section Phases.

Context {RT : Runtime}.

Lemma info_branch_info_step inp text : stable info_step (info_branch inp text).
Proof.
  unfold info_branch, save_candidate_to_db, save_message_to_db.
  stable_walk info_step_refl info_step_trans phase_leaf.
  apply extract_in_session_stable. intros. phase_leaf.
Qed.

Lemma technical_branch_closing_step inp text :
  stable closing_step (technical_branch inp text).
Proof.
  unfold technical_branch, update_request_branch, update_value_branch, answer_branch,
    save_candidate_to_db, present_question.
  stable_walk closing_step_refl closing_step_trans phase_leaf.
  apply extract_in_session_stable. intros. phase_leaf.
Qed.

Lemma technical_branch_interview_forward inp text :
  stable interview_forward (technical_branch inp text).
Proof.
  unfold technical_branch, update_request_branch, update_value_branch, answer_branch,
    save_candidate_to_db, present_question.
  stable_walk interview_forward_refl interview_forward_trans interview_leaf.
  apply extract_in_session_stable. intros. interview_leaf.
Qed.

Lemma dispatch_completed inp text s :
  phase s = Completed -> dispatch inp text s = (s, inr None).
Proof. intro H. unfold dispatch. session_simpl. rewrite H. reflexivity. Qed.

Lemma dispatch_phase_forward inp text s :
  phase_rank (phase s) <= phase_rank (phase (fst (dispatch inp text s))).
Proof.
  destruct (phase s) eqn:Hph.
  - rewrite dispatch_info, fst_bind_ret by auto.
    destruct (info_branch_info_step inp text s) as [H|[H|H]];
      rewrite H, ?Hph; simpl; lia.
  - rewrite dispatch_info, fst_bind_ret by auto.
    destruct (info_branch_info_step inp text s) as [H|[H|H]];
      rewrite H, ?Hph; simpl; lia.
  - rewrite dispatch_technical, fst_bind_ret by assumption.
    destruct (technical_branch_closing_step inp text s) as [H|H];
      rewrite H, ?Hph; simpl; lia.
  - rewrite dispatch_completed by assumption. simpl. rewrite Hph. simpl. lia.
Qed.

Lemma run_phase_forward inp s :
  phase_rank (phase s) <= phase_rank (phase (after inp s)).
Proof.
  unfold after.
  destruct (run_cases inp s)
    as [(_ & s1 & _ & E & F) | (text & s1 & _ & _ & F & [(_ & _ & _ & F') | (_ & E)])].
  - rewrite E. simpl. rewrite (sf_phase _ _ F). apply Nat.le_refl.
  - rewrite (sf_phase _ _ F'). simpl. destruct (phase s); simpl; lia.
  - rewrite E, <- (sf_phase _ _ F). apply dispatch_phase_forward.
Qed.

(** Once the conversation is completed a run changes nothing of the
    conversation's state, and it answers nothing. *)
Lemma completed_run inp s :
  phase s = Completed ->
  same_flow s (after inp s) /\
  (outcome inp s = inr None \/ outcome inp s = inl StopException).
Proof.
  intro Hph. unfold after, outcome.
  destruct (run_cases inp s)
    as [(_ & s1 & _ & E & F) | (text & s1 & _ & _ & F & [(_ & E & _ & F') | (_ & E)])].
  - rewrite E. simpl. auto.
  - split; [|right; exact E].
    eapply same_flow_trans; [|exact F'].
    destruct F as [Fph Fq Fi Fp Ff Fc Fid].
    constructor; session_simpl; congruence.
  - rewrite E, dispatch_completed by (rewrite (sf_phase _ _ F); exact Hph).
    simpl. auto.
Qed.

Lemma interview_run_forward inp s :
  2 <= phase_rank (phase s) -> interview_forward s (after inp s).
Proof.
  intro Hrank.
  destruct (phase s) eqn:Hph; simpl in Hrank; try lia.
  2:{ apply same_flow_interview_forward, completed_run, Hph. }
  unfold after.
  destruct (run_cases inp s)
    as [(_ & s1 & _ & E & F) | (text & s1 & _ & _ & F & [(_ & _ & _ & F') | (_ & E)])].
  - rewrite E. simpl. apply same_flow_interview_forward, F.
  - eapply interview_forward_trans; [apply same_flow_interview_forward, F|].
    eapply interview_forward_trans; [|apply same_flow_interview_forward, F'].
    interview_leaf.
  - rewrite E, dispatch_technical, fst_bind_ret by (rewrite (sf_phase _ _ F); exact Hph).
    eapply interview_forward_trans; [apply same_flow_interview_forward, F|].
    apply technical_branch_interview_forward.
Qed.

End Phases.

(** X1. The phase of a session never goes back: over any sequence of
    runs, whatever the messages, the replies of the language model and
    the answers of the database, and whether runs return, stop or raise,
    the phase moves along greeting, information gathering, technical
    questions, completed. *)
Theorem phase_never_goes_back :
  forall (RT : Runtime) (inps : list Inputs) (s : SessionState),
    phase_rank (phase s) <= phase_rank (phase (run_all inps s)).
Proof.
  intros RT inps. induction inps as [|inp rest IH]; intro s; simpl.
  - apply Nat.le_refl.
  - eapply Nat.le_trans; [apply run_phase_forward | apply IH].
Qed.

(** X2. A completed conversation stays as it is: no later run changes
    the phase, the profile, the question set, the question index, the
    pending update or the candidate id, and a run on such a session
    answers nothing (it returns no response, or stops on an end
    keyword). *)
Theorem completed_session_is_frozen :
  forall (RT : Runtime) (inps : list Inputs) (s : SessionState),
    phase s = Completed ->
    same_flow s (run_all inps s) /\
    forall inp : Inputs,
      outcome inp (run_all inps s) = inr None \/
      outcome inp (run_all inps s) = inl StopException.
Proof.
  intros RT inps. induction inps as [|inp rest IH]; intros s Hph; simpl.
  - split; [apply same_flow_refl|]. intro inp. apply completed_run, Hph.
  - destruct (completed_run inp s Hph) as [F _].
    destruct (IH (after inp s)) as [F' Hout].
    { rewrite (sf_phase _ _ F). exact Hph. }
    split; [eapply same_flow_trans; eassumption | exact Hout].
Qed.

Lemma completed_session_is_frozen_witness :
  candidate_info (@run_all sample_runtime [say "one more thing" rust_reply; rerun]
                    finished_session) = sample_profile /\
  @outcome sample_runtime (say "hello again" "")
    (@run_all sample_runtime [say "one more thing" rust_reply; rerun] finished_session)
  = inr None.
Proof.
  destruct (completed_session_is_frozen sample_runtime
              [say "one more thing" rust_reply; rerun] finished_session eq_refl)
    as [F Hout].
  split.
  - rewrite (sf_profile _ _ F). reflexivity.
  - destruct (Hout (say "hello again" "")) as [H|H]; [exact H|].
    vm_compute in H. discriminate H.
Defined.

(** X3. From the technical-questions phase on, the question set of a
    session never changes and the question index never goes down,
    over any sequence of runs. *)
Theorem interview_questions_fixed :
  forall (RT : Runtime) (inps : list Inputs) (s : SessionState),
    phase s = TechnicalQuestions \/ phase s = Completed ->
    technical_questions (run_all inps s) = technical_questions s /\
    current_question_index s <= current_question_index (run_all inps s).
Proof.
  intros RT inps s Hph.
  assert (Hrank : 2 <= phase_rank (phase s)) by (destruct Hph as [H|H]; rewrite H; simpl; lia).
  clear Hph. revert s Hrank.
  induction inps as [|inp rest IH]; intros s Hrank; simpl.
  - apply interview_forward_refl.
  - apply (interview_forward_trans s (after inp s)).
    + apply interview_run_forward, Hrank.
    + apply IH. eapply Nat.le_trans; [exact Hrank | apply run_phase_forward].
Qed.

Lemma interview_questions_fixed_witness :
  technical_questions
    (@run_all sample_runtime
       [say "It closes over its scope" ""; say "please update my email" "";
        say "asha.rao@example.org" rust_reply]
       interview_session) = sample_questions.
Proof.
  apply (interview_questions_fixed sample_runtime
           [say "It closes over its scope" ""; say "please update my email" "";
            say "asha.rao@example.org" rust_reply]
           interview_session).
  left. reflexivity.
Defined.

(** ** The profile during the interview *)

Lemma profile_untouched_refl s : profile_untouched s s.
Proof. split; auto. Qed.

Lemma profile_untouched_trans s1 s2 s3 :
  profile_untouched s1 s2 -> profile_untouched s2 s3 -> profile_untouched s1 s3.
Proof. intros [C1 G1] [C2 G2]. split; [congruence | auto]. Qed.

Ltac profile_leaf :=
  unfold profile_untouched; session_simpl; split; [reflexivity|];
  intros ? ? Hin;
  first [ exact Hin
        | apply in_app_or in Hin; destruct Hin as [Hin|[Hin|[]]];
          [exact Hin | discriminate Hin] ].

Section ProfileDuringInterview.

Context {RT : Runtime}.

Lemma prelude_profile_untouched inp text : stable profile_untouched (prelude inp text).
Proof.
  unfold prelude, opening, start_conversation, flush_technical_answer,
    capture_technical_answer, save_message_to_db.
  stable_walk profile_untouched_refl profile_untouched_trans profile_leaf.
Qed.

Lemma opening_profile_untouched inp : stable profile_untouched (opening inp).
Proof.
  unfold opening, start_conversation, flush_technical_answer, save_message_to_db.
  stable_walk profile_untouched_refl profile_untouched_trans profile_leaf.
Qed.

Lemma check_end_profile_untouched text : stable profile_untouched (check_end_keywords text).
Proof.
  unfold check_end_keywords, save_message_to_db.
  stable_walk profile_untouched_refl profile_untouched_trans profile_leaf.
Qed.

Lemma update_request_profile_untouched text :
  stable profile_untouched (update_request_branch text).
Proof.
  unfold update_request_branch.
  stable_walk profile_untouched_refl profile_untouched_trans profile_leaf.
Qed.

Lemma answer_branch_profile_untouched : stable profile_untouched answer_branch.
Proof.
  unfold answer_branch, present_question.
  stable_walk profile_untouched_refl profile_untouched_trans profile_leaf.
Qed.

End ProfileDuringInterview.

(** X4. In the technical-questions phase with no update pending, a run
    never changes the profile and never writes it to the database,
    whatever the message and whatever the language model would have
    extracted from it: an answer to a technical question is not mined
    for profile data. *)
Theorem answers_leave_profile_alone :
  forall (RT : Runtime) (inp : Inputs) (s : SessionState),
    phase s = TechnicalQuestions ->
    pending_update s = false ->
    candidate_info (after inp s) = candidate_info s /\
    forall profile returned,
      In (CreateOrUpdateCandidate profile returned) (gateway (after inp s)) ->
      In (CreateOrUpdateCandidate profile returned) (gateway s).
Proof.
  intros RT inp s Hph Hp.
  change (profile_untouched s (after inp s)). unfold after.
  destruct (run_cases inp s)
    as [(_ & s1 & -> & E & F) | (text & s1 & _ & -> & F & [(_ & _ & E & _) | (_ & E)])].
  - rewrite E. apply opening_profile_untouched.
  - rewrite E.
    eapply profile_untouched_trans;
      [apply prelude_profile_untouched | apply check_end_profile_untouched].
  - rewrite E, dispatch_technical, fst_bind_ret by (rewrite (sf_phase _ _ F); exact Hph).
    eapply profile_untouched_trans; [apply prelude_profile_untouched|].
    destruct (is_update_request text) eqn:Hreq.
    + rewrite technical_branch_request by exact Hreq.
      apply update_request_profile_untouched.
    + rewrite technical_branch_answer
        by (try exact Hreq; rewrite (sf_pending _ _ F); exact Hp).
      apply answer_branch_profile_untouched.
Qed.

Lemma answers_leave_profile_alone_witness :
  tech_stack (candidate_info
                (@after sample_runtime (say "I also know Rust" rust_reply) interview_session))
  = ["Python"; "SQL"].
Proof.
  destruct (answers_leave_profile_alone sample_runtime
              (say "I also know Rust" rust_reply) interview_session eq_refl eq_refl)
    as [Hprofile _].
  rewrite Hprofile. reflexivity.
Defined.

(** ** Entering the interview *)

Lemma same_stage_refl s : same_stage s s.
Proof. repeat split. Qed.

Lemma same_stage_trans s1 s2 s3 : same_stage s1 s2 -> same_stage s2 s3 -> same_stage s1 s3.
Proof. intros (? & ? & ? & ?) (? & ? & ? & ?). repeat split; congruence. Qed.

Lemma same_entry_refl s : same_entry s s.
Proof. repeat split. Qed.

Lemma same_entry_trans s1 s2 s3 : same_entry s1 s2 -> same_entry s2 s3 -> same_entry s1 s3.
Proof. intros (? & ? & ?) (? & ? & ?). repeat split; congruence. Qed.

Ltac same_stage_leaf := unfold same_stage; session_simpl; repeat split; reflexivity.

Ltac same_entry_leaf := unfold same_entry; session_simpl; repeat split; reflexivity.

(** One step of a computation whose first action is known. *)
Ltac step :=
  rewrite ?bind_assoc;
  match goal with
  | |- context [bind (modify ?f) ?k ?st] =>
      rewrite (bind_returns (modify f) k st (f st) tt eq_refl)
  | |- context [bind get ?k ?st] =>
      rewrite (bind_returns get k st st st eq_refl)
  | |- context [bind (ret ?a) ?k ?st] =>
      rewrite (bind_returns (ret a) k st st a eq_refl)
  end.

Section InfoBranch.

Context {RT : Runtime}.

Lemma save_candidate_to_db_run inp s :
  save_candidate_to_db inp s = (saved inp s, inr tt).
Proof.
  unfold save_candidate_to_db, saved. session_simpl.
  destruct (db_candidate inp); reflexivity.
Qed.

Lemma saved_same_stage inp s : same_stage s (saved inp s).
Proof. unfold saved. destruct (db_candidate inp); same_stage_leaf. Qed.

(** Nothing is missing exactly when the profile is complete. *)
Lemma nothing_missing_iff_complete c : get_missing_info c = [] <-> is_complete c = true.
Proof.
  unfold get_missing_info, is_complete. simpl.
  destruct (truthy (full_name c)), (truthy (email c)), (truthy (phone c)),
    (is_some (years_experience c)), (nonempty (desired_positions c)),
    (truthy (current_location c)), (nonempty (tech_stack c));
    simpl; split; intro H; try reflexivity; discriminate H.
Qed.

Lemma next_question_exists c reply :
  is_complete c = false -> exists response, generate_next_question c reply = Some response.
Proof.
  intro Hc. unfold generate_next_question.
  destruct (get_missing_info c) as [|field [|other rest]] eqn:Hm; eauto.
  apply nothing_missing_iff_complete in Hm. congruence.
Qed.

(** The information branch up to the test for completeness. *)
Lemma info_branch_raises inp text s c' e :
  extract_candidate_info text (llm_extraction inp) (candidate_info s) = (c', inl e) ->
  info_branch inp text s = (set_candidate_info c' s, inl e).
Proof.
  intro Hex. unfold info_branch.
  apply bind_raises. rewrite extract_in_session_run, Hex. reflexivity.
Qed.

Lemma info_branch_incomplete inp text s c' :
  extract_candidate_info text (llm_extraction inp) (candidate_info s) = (c', inr tt) ->
  is_complete c' = false ->
  exists s' response,
    info_branch inp text s = (s', inr response) /\
    generate_next_question c' (llm_next_question inp) = Some response /\
    phase s' = InfoGathering /\
    candidate_info s' = c' /\
    technical_questions s' = technical_questions s /\
    current_question_index s' = current_question_index s /\
    messages s' = messages s ++ [(Assistant, response)].
Proof.
  intros Hex Hc. unfold info_branch.
  erewrite bind_returns by (rewrite extract_in_session_run, Hex; reflexivity).
  rewrite (bind_returns _ _ _ _ _ (save_candidate_to_db_run inp _)).
  step.
  destruct (saved_same_stage inp (set_candidate_info c' s)) as (Sph & Sc & Sq & Si).
  session_simpl. rewrite Sc, Hc.
  destruct (next_question_exists c' (llm_next_question inp) Hc) as [response Hq].
  rewrite Hq. do 2 step. session_simpl.
  destruct (save_message_to_db_frame Assistant response
              (append_message Assistant response
                 (set_phase InfoGathering (saved inp (set_candidate_info c' s)))))
    as (s' & E & F & _).
  rewrite (bind_returns _ _ _ _ _ E).
  exists s', response. split; [reflexivity|]. split; [reflexivity|].
  destruct F as [Fph Fq Fi _ _ Fc _]. session_simpl.
  repeat split; try congruence.
  unfold save_message_to_db in E. session_simpl.
  destruct (truthy_id _); injection E as <-; session_simpl;
    unfold saved; destruct (db_candidate inp); reflexivity.
Qed.

Lemma info_branch_complete inp text s c' :
  extract_candidate_info text (llm_extraction inp) (candidate_info s) = (c', inr tt) ->
  is_complete c' = true ->
  phase (fst (info_branch inp text s)) = TechnicalQuestions /\
  candidate_info (fst (info_branch inp text s)) = c' /\
  technical_questions (fst (info_branch inp text s))
  = generate_technical_questions c' (llm_questions inp).
Proof.
  intros Hex Hc. unfold info_branch.
  erewrite bind_returns by (rewrite extract_in_session_run, Hex; reflexivity).
  rewrite (bind_returns _ _ _ _ _ (save_candidate_to_db_run inp _)).
  step.
  destruct (saved_same_stage inp (set_candidate_info c' s)) as (Sph & Sc & Sq & Si).
  session_simpl. rewrite Sc, Hc.
  do 2 step.
  match goal with
  | |- context [fst (bind ?m ?k ?st)] =>
      assert (Hrest : stable same_entry (bind m k))
  end.
  { unfold save_message_to_db.
    stable_walk same_entry_refl same_entry_trans same_entry_leaf. }
  match goal with
  | |- context [fst (bind ?m ?k ?st)] => destruct (Hrest st) as (Hph & Hci & Hq)
  end.
  rewrite Hph, Hci, Hq. session_simpl. auto.
Qed.

End InfoBranch.

(** X5. A run of the information branch whose extraction returns
    leaves the extracted profile in the session and decides the phase
    by its completeness alone: a complete profile starts the interview
    with the generated questions, an incomplete one keeps the session
    gathering information and answers with the next question, which
    then always exists. *)
Theorem interview_starts_when_complete :
  forall (RT : Runtime) (inp : Inputs) (s : SessionState) (text : string),
    phase s = Greeting \/ phase s = InfoGathering ->
    prompt inp = Some text -> text <> "" ->
    should_end_conversation text = false ->
    let pass := extract_candidate_info text (llm_extraction inp) (candidate_info s) in
    snd pass = inr tt ->
    let s' := after inp s in
    candidate_info s' = fst pass /\
    (is_complete (fst pass) = true ->
     phase s' = TechnicalQuestions /\
     technical_questions s' = generate_technical_questions (fst pass) (llm_questions inp)) /\
    (is_complete (fst pass) = false ->
     phase s' = InfoGathering /\
     technical_questions s' = technical_questions s /\
     exists response,
       generate_next_question (fst pass) (llm_next_question inp) = Some response /\
       outcome inp s = inr (Some response)).
Proof.
  intros RT inp s text Hph Hprompt Hne Hend pass Hret s'.
  destruct (main_reaches_dispatch inp s text (truthy_text_some _ _ Hprompt Hne) Hend)
    as (s1 & E & F & _).
  assert (Hph1 : phase s1 = Greeting \/ phase s1 = InfoGathering)
    by (rewrite (sf_phase _ _ F); exact Hph).
  subst s'. unfold after, outcome. rewrite E, (dispatch_info inp text s1 Hph1).
  rewrite fst_bind_ret.
  assert (Hex : extract_candidate_info text (llm_extraction inp) (candidate_info s1)
                = (fst pass, inr tt)).
  { rewrite (sf_profile _ _ F). subst pass.
    destruct (extract_candidate_info text (llm_extraction inp) (candidate_info s))
      as [c' r]. simpl in *. rewrite Hret. reflexivity. }
  destruct (is_complete (fst pass)) eqn:Hc.
  - destruct (info_branch_complete inp text s1 (fst pass) Hex Hc) as (Hp & Hci & Hq).
    split; [exact Hci|]. split; [auto | discriminate].
  - destruct (info_branch_incomplete inp text s1 (fst pass) Hex Hc)
      as (s2 & response & E2 & Hq & Hp & Hci & Hqs & _).
    rewrite (bind_returns _ _ _ _ _ E2), E2. simpl.
    split; [exact Hci|]. split; [discriminate|]. intros _.
    split; [exact Hp|]. split; [rewrite Hqs; apply (sf_questions _ _ F)|].
    exists response. auto.
Qed.

Lemma interview_starts_when_complete_witness :
  phase (@after sample_runtime (say "I work with Rust" rust_reply) gathering_session)
  = TechnicalQuestions /\
  tech_stack (candidate_info
                (@after sample_runtime (say "I work with Rust" rust_reply) gathering_session))
  = ["Rust"].
Proof.
  destruct (interview_starts_when_complete sample_runtime
              (say "I work with Rust" rust_reply) gathering_session "I work with Rust"
              (or_intror eq_refl) eq_refl)
    as (Hprofile & Hcomplete & _);
    [discriminate | reflexivity | reflexivity |].
  split.
  - apply Hcomplete. reflexivity.
  - rewrite Hprofile. reflexivity.
Defined.

(** X6. The interview is only ever entered with a complete profile: a
    run that takes a session from the greeting or from information
    gathering to the technical-questions phase leaves a profile that is
    complete, however the run ends. *)
Theorem interview_entered_complete :
  forall (RT : Runtime) (inp : Inputs) (s : SessionState),
    phase s = Greeting \/ phase s = InfoGathering ->
    phase (after inp s) = TechnicalQuestions ->
    is_complete (candidate_info (after inp s)) = true.
Proof.
  intros RT inp s Hph. unfold after.
  assert (Hnot : phase s <> TechnicalQuestions)
    by (destruct Hph as [H|H]; rewrite H; discriminate).
  destruct (run_cases inp s)
    as [(_ & s1 & _ & E & F) | (text & s1 & _ & _ & F & [(_ & _ & _ & F') | (_ & E)])].
  - rewrite E. simpl. rewrite (sf_phase _ _ F). intro H. contradiction.
  - rewrite (sf_phase _ _ F'). discriminate.
  - assert (Hph1 : phase s1 = Greeting \/ phase s1 = InfoGathering)
      by (rewrite (sf_phase _ _ F); exact Hph).
    rewrite E, (dispatch_info inp text s1 Hph1), fst_bind_ret.
    destruct (extract_candidate_info text (llm_extraction inp) (candidate_info s1))
      as [c' [e|[]]] eqn:Hex.
    + rewrite (info_branch_raises inp text s1 c' e Hex). simpl.
      rewrite (sf_phase _ _ F). intro H. contradiction.
    + destruct (is_complete c') eqn:Hc.
      * destruct (info_branch_complete inp text s1 c' Hex Hc) as (_ & Hci & _).
        rewrite Hci. intros _. exact Hc.
      * destruct (info_branch_incomplete inp text s1 c' Hex Hc)
          as (s2 & response & E2 & _ & Hp & _).
        rewrite E2. simpl. rewrite Hp. discriminate.
Qed.

Lemma interview_entered_complete_witness :
  is_complete
    (candidate_info
       (@after sample_runtime (say "I work with Rust" rust_reply) gathering_session))
  = true.
Proof.
  apply (interview_entered_complete sample_runtime
           (say "I work with Rust" rust_reply) gathering_session).
  - right. reflexivity.
  - reflexivity.
Defined.

(** ** Answers on their way to the database *)

Lemma same_answer_refl s : same_answer s s.
Proof. repeat split. Qed.

Lemma same_answer_trans s1 s2 s3 :
  same_answer s1 s2 -> same_answer s2 s3 -> same_answer s1 s3.
Proof. intros (? & ? & ?) (? & ? & ?). repeat split; congruence. Qed.

Ltac same_answer_leaf := unfold same_answer; session_simpl; repeat split; reflexivity.

Section StoredAnswers.

Context {RT : Runtime}.

(** The answer branch, however it ends, has moved the index by one and
    left the answer awaiting storage and the candidate id alone. *)
Lemma answer_branch_moves_index s :
  current_question_index (fst (answer_branch s)) = current_question_index s + 1 /\
  last_technical_answer (fst (answer_branch s)) = last_technical_answer s /\
  candidate_id (fst (answer_branch s)) = candidate_id s.
Proof.
  unfold answer_branch. step.
  match goal with
  | |- context [fst (bind ?m ?k ?st)] =>
      assert (Hrest : stable same_answer (bind m k))
  end.
  { unfold present_question.
    stable_walk same_answer_refl same_answer_trans same_answer_leaf. }
  match goal with
  | |- context [fst (bind ?m ?k ?st)] => destruct (Hrest st) as (Hi & Ha & Hid)
  end.
  rewrite Hi, Ha, Hid. session_simpl. auto.
Qed.

End StoredAnswers.

(** X7. An answer is filed under the question it answers.  In the
    technical-questions phase with the candidate saved and no update
    pending, a message that holds no end keyword and asks for no update
    is handed to the database by the next run, whatever that run is
    about, under the index the session had when the message came in:
    the index of the question that was pending. *)
Theorem answer_stored_under_its_question :
  forall (RT : Runtime) (inp inp' : Inputs) (s : SessionState) (text : string) (cid : Z),
    phase s = TechnicalQuestions ->
    truthy_id (candidate_id s) = Some cid ->
    pending_update s = false ->
    prompt inp = Some text -> text <> "" ->
    should_end_conversation text = false ->
    is_update_request text = false ->
    In (SaveTechnicalAnswer cid (Z.of_nat (current_question_index s)) text)
       (gateway (after inp' (after inp s))).
Proof.
  intros RT inp inp' s text cid Hph Hid Hp Hprompt Hne Hend Hreq.
  destruct (main_reaches_end_check inp s text (truthy_text_some _ _ Hprompt Hne))
    as (s1 & E & F & Htake & _).
  assert (Ha1 : last_technical_answer s1 = Some text).
  { apply Htake. unfold takes_answer. rewrite Hph, Hid, Hreq, Hp. reflexivity. }
  assert (Hs' : after inp s = fst (answer_branch s1)).
  { unfold after. rewrite E.
    rewrite (bind_returns _ _ s1 s1 tt (check_end_keywords_passes text s1 Hend)).
    rewrite dispatch_technical by (rewrite (sf_phase _ _ F); exact Hph).
    rewrite fst_bind_ret, technical_branch_answer
      by (try exact Hreq; rewrite (sf_pending _ _ F); exact Hp).
    reflexivity. }
  destruct (answer_branch_moves_index s1) as (Hi & Ha & Hcid).
  replace (Z.of_nat (current_question_index s))
    with (Z.of_nat (current_question_index (after inp s)) - 1)%Z
    by (rewrite Hs', Hi, (sf_index _ _ F); lia).
  apply next_run_stores_answer.
  - rewrite Hs', Ha. exact Ha1.
  - exact Hne.
  - rewrite Hs', Hcid, (sf_id _ _ F). exact Hid.
Qed.

Lemma answer_stored_under_its_question_witness :
  In (SaveTechnicalAnswer 1 1 "It speeds up lookups")
     (gateway (@after sample_runtime rerun
                 (@after sample_runtime (say "It speeds up lookups" "") interview_session))).
Proof.
  apply (answer_stored_under_its_question sample_runtime
           (say "It speeds up lookups" "") rerun interview_session
           "It speeds up lookups" 1%Z);
    solve [reflexivity | discriminate].
Defined.

(** ** Updates during the interview *)

Section UpdateTurns.

Context {RT : Runtime}.

Lemma main_reaches_update_value inp s text :
  phase s = TechnicalQuestions ->
  pending_update s = true ->
  prompt inp = Some text -> text <> "" ->
  should_end_conversation text = false ->
  is_update_request text = false ->
  exists s1, main inp s = bind (update_value_branch inp text)
                            (fun response => ret (Some response)) s1 /\
             same_flow s s1 /\ profile_untouched s s1.
Proof.
  intros Hph Hp Hprompt Hne Hend Hreq.
  pose proof (truthy_text_some _ _ Hprompt Hne) as Htext.
  destruct (run_cases inp s)
    as [(Hnone & _) | (text' & s1 & Htext' & -> & F & [(Hend' & _) | (_ & E)])];
    try congruence;
    rewrite Htext in Htext'; injection Htext' as <-; try congruence.
  exists (fst (prelude inp text s)). split; [|split].
  - rewrite E, dispatch_technical by (rewrite (sf_phase _ _ F); exact Hph).
    unfold bind.
    rewrite technical_branch_value
      by (try exact Hreq; rewrite (sf_pending _ _ F); exact Hp).
    reflexivity.
  - exact F.
  - apply prelude_profile_untouched.
Qed.

End UpdateTurns.



(** X9. An update that names its field overwrites it.  When the reply
    to a location request is processed and the extraction returns, the
    location becomes the reply, stripped of surrounding white space,
    whatever the reply says and whatever the location was; for an
    e-mail request the address becomes the first one found in the
    reply.  The rest of the profile is what the extraction pass left. *)
Theorem named_update_overwrites :
  forall (RT : Runtime) (inp : Inputs) (s : SessionState) (text : string),
    phase s = TechnicalQuestions ->
    pending_update s = true ->
    prompt inp = Some text -> text <> "" ->
    should_end_conversation text = false ->
    is_update_request text = false ->
    let pass := extract_candidate_info text (llm_extraction inp) (candidate_info s) in
    snd pass = inr tt ->
    let c' := candidate_info (after inp s) in
    c' = overwrite_field (update_field s) text (fst pass) /\
    (update_field s = Some UpdLocation ->
     c' = set_current_location (PStr (PyStr.strip text)) (fst pass)) /\
    (forall found, update_field s = Some UpdEmail ->
                   Re.search email_pattern text = Some found ->
                   c' = set_email (PStr (Re.group0 found)) (fst pass)).
Proof.
  intros RT inp s text Hph Hp Hprompt Hne Hend Hreq pass Hret c'.
  destruct (main_reaches_update_value inp s text Hph Hp Hprompt Hne Hend Hreq)
    as (s1 & E & F & _).
  assert (Hc : c' = overwrite_field (update_field s) text (fst pass)).
  { subst c'. unfold after. rewrite E, fst_bind_ret.
    unfold update_value_branch. step.
    erewrite bind_returns
      by (rewrite extract_in_session_run; session_simpl;
          rewrite (sf_profile _ _ F); fold pass; rewrite Hret; reflexivity).
    do 2 step.
    rewrite (bind_returns _ _ _ _ _ (save_candidate_to_db_run inp _)).
    match goal with
    | |- context [fst (bind ?m ?k ?st)] =>
        assert (Hrest : stable same_stage (bind m k))
    end.
    { unfold present_question.
      stable_walk same_stage_refl same_stage_trans same_stage_leaf. }
    match goal with
    | |- context [fst (bind ?m ?k ?st)] => destruct (Hrest st) as (_ & Hci & _)
    end.
    rewrite Hci.
    match goal with
    | |- candidate_info (saved inp ?st) = _ =>
        destruct (saved_same_stage inp st) as (_ & Hsv & _); rewrite Hsv
    end.
    session_simpl. rewrite (sf_field _ _ F). reflexivity. }
  split; [exact Hc|]. split.
  - intro Hf. rewrite Hc, Hf. reflexivity.
  - intros found Hf Hfound. rewrite Hc, Hf. simpl. rewrite Hfound. reflexivity.
Qed.

Lemma named_update_overwrites_witness :
  current_location
    (candidate_info (@after sample_runtime (say "  I would rather not say " "")
                       awaiting_location))
  = PStr "I would rather not say".
Proof.
  assert (Hne : "  I would rather not say " <> "") by discriminate.
  destruct (named_update_overwrites sample_runtime
              (say "  I would rather not say " "") awaiting_location
              "  I would rather not say "
              eq_refl eq_refl eq_refl Hne eq_refl eq_refl eq_refl)
    as (_ & Hloc & _).
  rewrite (Hloc eq_refl). reflexivity.
Defined.

(** ** First write wins, over a whole run *)

Lemma profile_advances_refl s : profile_advances s s.
Proof. apply advances_refl. Qed.

Lemma profile_advances_trans s1 s2 s3 :
  profile_advances s1 s2 -> profile_advances s2 s3 -> profile_advances s1 s3.
Proof. apply advances_trans. Qed.

Lemma profile_untouched_advances s s' : profile_untouched s s' -> profile_advances s s'.
Proof. intros [H _]. unfold profile_advances. rewrite H. apply advances_refl. Qed.

Lemma same_stage_advances s s' : same_stage s s' -> profile_advances s s'.
Proof. intros (_ & H & _). unfold profile_advances. rewrite H. apply advances_refl. Qed.

Ltac advances_leaf := unfold profile_advances; session_simpl; apply advances_refl.

Section RunAdvances.

Context {RT : Runtime}.

Lemma extract_in_session_advances text response :
  stable profile_advances (extract_in_session text response).
Proof.
  unfold extract_in_session.
  apply (stable_zoom profile_advances advances).
  - apply extract_candidate_info_advances.
  - intros s c H. exact H.
Qed.

Lemma info_branch_advances inp text : stable profile_advances (info_branch inp text).
Proof.
  unfold info_branch, save_candidate_to_db, save_message_to_db.
  stable_walk profile_advances_refl profile_advances_trans advances_leaf.
  apply extract_in_session_advances.
Qed.

Lemma update_value_branch_advances inp text s :
  update_field s = None ->
  profile_advances s (fst (update_value_branch inp text s)).
Proof.
  intro Hf. unfold update_value_branch. step.
  pose proof (extract_in_session_advances text (llm_extraction inp)
                (set_pending_update false s)) as Hex.
  destruct (extract_in_session text (llm_extraction inp) (set_pending_update false s))
    as [s2 [e|[]]] eqn:E2.
  - rewrite (bind_raises _ _ _ _ _ E2). exact Hex.
  - rewrite (bind_returns _ _ _ _ _ E2).
    assert (Hf2 : update_field s2 = None).
    { rewrite extract_in_session_run in E2. injection E2 as <- _. exact Hf. }
    do 2 step. rewrite Hf2.
    rewrite (bind_returns _ _ _ _ _ (save_candidate_to_db_run inp _)).
    match goal with
    | |- context [fst (bind ?m ?k ?st)] =>
        assert (Hrest : stable same_stage (bind m k))
    end.
    { unfold present_question.
      stable_walk same_stage_refl same_stage_trans same_stage_leaf. }
    eapply profile_advances_trans; [exact Hex|].
    eapply profile_advances_trans; [|apply same_stage_advances, Hrest].
    eapply profile_advances_trans; [|apply same_stage_advances, saved_same_stage].
    unfold profile_advances, in_profile. simpl. apply advances_refl.
Qed.

End RunAdvances.

(** X10. First write wins over a whole run, except in an update that
    names its field.  Unless the run processes the reply to an update
    request that named location, e-mail or phone, it leaves every
    scalar of the profile that was set as it was and only adds to the
    lists, whatever the phase and however the run ends.  In particular
    the reply to a request to change the name can never change it. *)
Theorem run_advances_profile :
  forall (RT : Runtime) (inp : Inputs) (s : SessionState),
    update_field s = None \/ pending_update s = false ->
    advances (candidate_info s) (candidate_info (after inp s)).
Proof.
  intros RT inp s Hcond.
  change (profile_advances s (after inp s)). unfold after.
  destruct (run_cases inp s)
    as [(_ & s1 & -> & E & F) | (text & s1 & _ & -> & F & [(_ & _ & E & _) | (_ & E)])].
  - rewrite E. apply profile_untouched_advances, opening_profile_untouched.
  - rewrite E. apply profile_untouched_advances.
    eapply profile_untouched_trans;
      [apply prelude_profile_untouched | apply check_end_profile_untouched].
  - rewrite E.
    eapply profile_advances_trans;
      [apply profile_untouched_advances, prelude_profile_untouched|].
    set (s1 := fst (prelude inp text s)) in *.
    destruct (phase s1) eqn:Hph.
    + rewrite dispatch_info, fst_bind_ret by auto. apply info_branch_advances.
    + rewrite dispatch_info, fst_bind_ret by auto. apply info_branch_advances.
    + rewrite dispatch_technical, fst_bind_ret by assumption.
      destruct (is_update_request text) eqn:Hreq.
      * rewrite technical_branch_request by exact Hreq.
        apply profile_untouched_advances, update_request_profile_untouched.
      * destruct (pending_update s1) eqn:Hp.
        -- rewrite technical_branch_value by assumption.
           apply update_value_branch_advances.
           rewrite (sf_field _ _ F).
           destruct Hcond as [Hf|Hp']; [exact Hf|].
           rewrite (sf_pending _ _ F) in Hp. congruence.
        -- rewrite technical_branch_answer by assumption.
           apply profile_untouched_advances, answer_branch_profile_untouched.
    + rewrite dispatch_completed by assumption. apply profile_advances_refl.
Qed.

Lemma run_advances_profile_witness :
  full_name
    (candidate_info
       (@after sample_runtime (say "Someone Else" other_reply)
          (set_pending_update true interview_session)))
  = PStr "Asha Rao".
Proof.
  destruct (run_advances_profile sample_runtime (say "Someone Else" other_reply)
              (set_pending_update true interview_session) (or_introl eq_refl))
    as [Hname _ _ _ _ _ _].
  apply Hname. reflexivity.
Defined.

(** ** The next question *)

(** X11. What the assistant asks next is decided by what is missing.
    No question is produced exactly when the profile is complete (so
    the information branch, which only asks when the profile is not
    complete, always has a question to give); when exactly one field is
    missing the question is the prepared text of that very field, never
    the default of the lookup; and when two or more are missing it is
    the reply of the language model, as it came. *)
Theorem next_question_by_missing_fields :
  forall (RT : Runtime) (c : CandidateInfo) (reply : string),
    (generate_next_question c reply = None <-> is_complete c = true) /\
    (forall field,
        get_missing_info c = [field] ->
        exists key, In (field, key) question_map /\
                    generate_next_question c reply = Some (lang_get key)) /\
    (2 <= List.length (get_missing_info c) -> generate_next_question c reply = Some reply).
Proof.
  intros RT c reply. split; [|split].
  - rewrite <- nothing_missing_iff_complete. unfold generate_next_question.
    destruct (get_missing_info c) as [|field [|other rest]];
      split; intro H; try reflexivity; discriminate H.
  - intros field Hm. unfold generate_next_question. rewrite Hm.
    unfold format_next_question. revert Hm. unfold get_missing_info.
    destruct (truthy (full_name c)), (truthy (email c)), (truthy (phone c)),
      (is_some (years_experience c)), (nonempty (desired_positions c)),
      (truthy (current_location c)), (nonempty (tech_stack c));
      simpl; intro Hm; try discriminate Hm;
      injection Hm as <-; eexists; (split; [|reflexivity]); simpl; auto 10.
  - unfold generate_next_question.
    destruct (get_missing_info c) as [|field [|other rest]]; simpl; intro H;
      try reflexivity; lia.
Qed.

(** ** What an extraction pass can raise *)

Section RaisesOnly.

Context {S : Type} (P : exn -> Prop).







End RaisesOnly.



Section ExtractionErrors.

Context {RT : Runtime}.










End ExtractionErrors.



(** ** A reply without a JSON object *)









(** ** End keywords anywhere in a message *)

Lemma lower_app a b : PyStr.lower (a ++ b)%string = (PyStr.lower a ++ PyStr.lower b)%string.
Proof. induction a as [|c a IH]; simpl; [reflexivity | rewrite IH; reflexivity]. Qed.

Lemma prefix_nil s : String.prefix "" s = true.
Proof. destruct s; reflexivity. Qed.

Lemma prefix_app sub rest : String.prefix sub (sub ++ rest)%string = true.
Proof.
  induction sub as [|c sub IH]; simpl; [apply prefix_nil|].
  destruct (ascii_dec c c) as [_|Hne]; [exact IH | contradiction].
Qed.

Lemma contains_prefix sub s : String.prefix sub s = true -> PyStr.contains sub s = true.
Proof. intro H. destruct s; cbn [PyStr.contains]; rewrite H; reflexivity. Qed.

Lemma contains_app sub before rest : PyStr.contains sub (before ++ sub ++ rest)%string = true.
Proof.
  induction before as [|c before IH].
  - change ("" ++ sub ++ rest)%string with (sub ++ rest)%string.
    apply contains_prefix, prefix_app.
  - change (String c before ++ sub ++ rest)%string with (String c (before ++ sub ++ rest)%string).
    simpl PyStr.contains. rewrite IH. apply orb_true_r.
Qed.

Lemma end_keyword_inside before word rest :
  PyStr.mem (PyStr.lower word) end_keywords = true ->
  should_end_conversation (before ++ word ++ rest)%string = true.
Proof.
  unfold PyStr.mem, should_end_conversation. intro H.
  apply existsb_exists in H. destruct H as (keyword & Hin & Heq).
  apply String.eqb_eq in Heq.
  apply existsb_exists. exists keyword. split; [exact Hin|].
  rewrite !lower_app, Heq. apply contains_app.
Qed.

(** X14. An end keyword ends the conversation wherever it stands.  A
    message that holds one of the six end keywords anywhere, in any
    mix of upper and lower case and also inside a longer word, stops
    the run in every phase: the phase becomes completed and the
    profile, the question set and the question index stay as they
    were. *)
Theorem end_keyword_anywhere_stops :
  forall (RT : Runtime) (inp : Inputs) (s : SessionState) (before word rest : string),
    PyStr.mem (PyStr.lower word) end_keywords = true ->
    prompt inp = Some (before ++ word ++ rest)%string ->
    should_end_conversation (before ++ word ++ rest)%string = true /\
    outcome inp s = inl StopException /\
    phase (after inp s) = Completed /\
    candidate_info (after inp s) = candidate_info s /\
    technical_questions (after inp s) = technical_questions s /\
    current_question_index (after inp s) = current_question_index s.
Proof.
  intros RT inp s before word rest Hword Hprompt.
  pose proof (end_keyword_inside before word rest Hword) as Hend.
  split; [exact Hend|].
  destruct (end_keyword_stops_run inp s _ Hprompt Hend) as (Ho & Hp & Hc & Hq & Hi & _).
  auto.
Qed.

Lemma end_keyword_anywhere_stops_witness :
  phase (@after sample_runtime (say "I built a Stopwatch app in React" "") interview_session)
  = Completed.
Proof.
  apply (end_keyword_anywhere_stops sample_runtime
           (say "I built a Stopwatch app in React" "") interview_session
           "I built a " "Stop" "watch app in React");
    reflexivity.
Defined.

(** ** The progress bar *)

(** The items of the bar and what decides the check mark of each. *)
Lemma shown_marks (c : CandidateInfo) :
  map (fun item => (fst item, is_completed (snd item) c)) indicator_fields
  = [ ("Name", truthy (full_name c)); ("Email", truthy (email c));
      ("Phone", truthy (phone c)); ("Experience", is_some (years_experience c));
      ("Position", (0 <? List.length (desired_positions c))%nat);
      ("Location", truthy (current_location c));
      ("Tech Stack", (0 <? List.length (tech_stack c))%nat) ].
Proof. reflexivity. Qed.

(** X15. The progress bar agrees with the profile.  For every profile
    the bar is computed without error; it shows the seven items in
    their order, and an item carries the check mark exactly when
    [get_missing_info] does not list its field; with k check marks the
    percentage shown is 100k/7 rounded down and 10k/7 (rounded down) of
    the ten segments are filled; the bar shows 100 exactly when the
    profile is complete, and exactly then no segment is left in the
    filling state. *)
Theorem progress_bar_agrees_with_profile :
  forall c : CandidateInfo,
  exists bar : ProgressBar,
    create_minimal_progress (calculate_progress c) 10 (Some c) = Some bar /\
    checkmarks bar = marks_of_missing (get_missing_info c) /\
    ticks bar + List.length (get_missing_info c) = 7 /\
    percentage bar = Z.of_nat (100 * ticks bar / 7) /\
    filled bar = 10 * ticks bar / 7 /\
    (percentage bar = 100%Z <-> is_complete c = true) /\
    (In Filling (segment_classes bar) <-> is_complete c = false).
Proof.
  intro c.
  unfold create_minimal_progress. rewrite shown_marks.
  unfold calculate_progress, progress_fields, marks_of_missing,
    get_missing_info, is_complete, ticks, filled.
  destruct (truthy (full_name c)), (truthy (email c)), (truthy (phone c)),
    (is_some (years_experience c)), (truthy (current_location c)),
    (desired_positions c) as [|position positions], (tech_stack c) as [|tech techs];
    eexists; (split; [vm_compute; reflexivity|]);
    (split; [vm_compute; reflexivity|]);
    repeat split; try reflexivity; cbn; intro H;
    solve [ reflexivity | discriminate H | lia
          | repeat (destruct H as [H|H]; [discriminate H|]); destruct H
          | auto 12 ].
Qed.

(** * The database *)

(** ** Candidates *)

Section CandidateRows.

Import DatabaseManager.

Lemma lastrowid_above ids x : In x ids -> (x < lastrowid ids)%Z.
Proof.
  unfold lastrowid. induction ids as [|y ids IH]; cbn [fold_right In]; intros [].
  - subst. lia.
  - specialize (IH H). lia.
Qed.

Lemma lastrowid_positive ids : (1 <= lastrowid ids)%Z.
Proof. unfold lastrowid. induction ids as [|y ids IH]; cbn [fold_right]; lia. Qed.

Lemma update_candidate_keys session cells row :
  candidate_row_id (update_candidate session cells row) = candidate_row_id row /\
  session_id (update_candidate session cells row) = session_id row.
Proof. unfold update_candidate. destruct (session_id row =? session); auto. Qed.

Lemma find_updated session cells rows :
  find (fun row => session_id row =? session) (map (update_candidate session cells) rows)
  = option_map (update_candidate session cells)
      (find (fun row => session_id row =? session) rows).
Proof.
  induction rows as [|row rows IH]; simpl; [reflexivity|].
  destruct (update_candidate_keys session cells row) as [_ ->].
  destruct (session_id row =? session); [reflexivity | exact IH].
Qed.

Lemma find_appended {A : Type} (p : A -> bool) rows row :
  find p rows = None -> p row = true -> find p (rows ++ [row]) = Some row.
Proof.
  induction rows as [|r rows IH]; simpl; intros Hnone Hrow.
  - rewrite Hrow. reflexivity.
  - destruct (p r); [discriminate Hnone | auto].
Qed.

Lemma found_session session db row :
  find_candidate session db = Some row ->
  In row (candidates db) /\ session_id row = session.
Proof.
  unfold find_candidate. intro H. apply find_some in H.
  destruct H as [Hin Heq]. apply String.eqb_eq in Heq. auto.
Qed.

Lemma unknown_session session db :
  find_candidate session db = None -> ~ In session (sessions db).
Proof.
  unfold find_candidate, sessions. intros H Hin.
  apply in_map_iff in Hin. destruct Hin as (row & Hs & Hin).
  pose proof (find_none _ _ H row Hin) as Hne. simpl in Hne.
  rewrite Hs, String.eqb_refl in Hne. discriminate Hne.
Qed.

(** The update of a row that is there. *)
Lemma update_existing session c db row cells :
  find_candidate session db = Some row ->
  bind_profile c = Some cells ->
  create_or_update_candidate session c db
  = Some (candidate_row_id row,
          set_candidates (map (update_candidate session cells) (candidates db)) db).
Proof.
  intros Hfind Hbind. unfold create_or_update_candidate. rewrite Hbind, Hfind. reflexivity.
Qed.

(** After a call that returned, the row of the session is found, under
    the id the call returned and with the profile it was given. *)
Lemma created_row_found session c db id db1 :
  create_or_update_candidate session c db = Some (id, db1) ->
  exists cells,
    bind_profile c = Some cells /\
    find_candidate session db1
    = Some {| candidate_row_id := id; session_id := session; profile := cells |}.
Proof.
  unfold create_or_update_candidate.
  destruct (bind_profile c) as [cells|]; [|discriminate].
  destruct (find_candidate session db) as [found|] eqn:Hfind;
    intro H; injection H as <- <-; exists cells; (split; [reflexivity|]).
  - unfold find_candidate in *. simpl. rewrite find_updated, Hfind. simpl.
    apply find_some in Hfind. destruct Hfind as [_ Heq].
    unfold update_candidate. rewrite Heq.
    apply String.eqb_eq in Heq. rewrite Heq. reflexivity.
  - unfold find_candidate in *. simpl.
    apply find_appended; [exact Hfind | apply String.eqb_refl].
Qed.

End CandidateRows.

(** X16. One row per session.  After [create_or_update_candidate] has
    returned for a session, a second call for that session with any
    profile that can be bound returns the same id, adds no row, and
    leaves the session's row holding the second profile: what
    [get_candidate_by_session] then reads is that id with that
    profile. *)
Theorem candidate_saved_once_per_session :
  forall (session : string) (c c' : CandidateInfo) (cells' : DatabaseManager.Profile)
         (id : Z) (db db1 : DatabaseManager.Database),
    DatabaseManager.create_or_update_candidate session c db = Some (id, db1) ->
    DatabaseManager.bind_profile c' = Some cells' ->
    exists db2,
      DatabaseManager.create_or_update_candidate session c' db1 = Some (id, db2) /\
      List.length (DatabaseManager.candidates db2)
      = List.length (DatabaseManager.candidates db1) /\
      DatabaseManager.get_candidate_by_session session db2
      = Some {| DatabaseManager.candidate_row_id := id;
                DatabaseManager.session_id := session;
                DatabaseManager.profile := cells' |}.
Proof.
  intros session c c' cells' id db db1 Hfirst Hbind.
  destruct (created_row_found session c db id db1 Hfirst) as (cells & _ & Hfound).
  eexists. split; [|split].
  - rewrite (update_existing session c' db1 _ cells' Hfound Hbind). reflexivity.
  - simpl. apply length_map.
  - unfold DatabaseManager.get_candidate_by_session.
    destruct (created_row_found session c' db1 id _
                (update_existing session c' db1 _ cells' Hfound Hbind))
      as (cells2 & Hbind2 & Hfound2).
    rewrite Hfound2. congruence.
Qed.

Lemma candidate_saved_once_per_session_witness :
  exists db2,
    DatabaseManager.create_or_update_candidate "session-1" nameless_profile one_candidate
    = Some (1%Z, db2) /\
    List.length (DatabaseManager.candidates db2) = 1.
Proof.
  destruct (candidate_saved_once_per_session "session-1" sample_profile nameless_profile
              _ 1%Z DatabaseManager.init_database one_candidate eq_refl eq_refl)
    as (db2 & Hsecond & Hlength & _).
  exists db2. split; [exact Hsecond | rewrite Hlength; reflexivity].
Defined.

Lemma nodup_map_injective {A B : Type} (f : A -> B) (l : list A) a b :
  NoDup (map f l) -> In a l -> In b l -> f a = f b -> a = b.
Proof.
  induction l as [|x l IH]; simpl; intros Hnd Ha Hb Hf; [contradiction|].
  inversion Hnd as [|y ys Hnotin Hrest]; subst.
  destruct Ha as [->|Ha], Hb as [->|Hb]; auto.
  - exfalso. apply Hnotin. rewrite Hf. apply in_map, Hb.
  - exfalso. apply Hnotin. rewrite <- Hf. apply in_map, Ha.
Qed.

Section CandidateKeys.

Import DatabaseManager.

Lemma keys_valid_init : keys_valid init_database.
Proof. constructor; simpl; constructor. Qed.

Lemma updated_keys session cells rows :
  map candidate_row_id (map (update_candidate session cells) rows)
  = map candidate_row_id rows /\
  map session_id (map (update_candidate session cells) rows) = map session_id rows.
Proof.
  induction rows as [|row rows [IHi IHs]]; simpl; [auto|].
  destruct (update_candidate_keys session cells row) as [-> ->].
  rewrite IHi, IHs. auto.
Qed.

Lemma nodup_snoc {A : Type} (l : list A) x : NoDup l -> ~ In x l -> NoDup (l ++ [x]).
Proof.
  intros Hnd Hnotin. apply NoDup_app; [exact Hnd | repeat constructor; intros [] |].
  intros y Hy [<-|[]]. exact (Hnotin Hy).
Qed.

Lemma create_or_update_keeps_keys session c id db db' :
  keys_valid db ->
  create_or_update_candidate session c db = Some (id, db') ->
  keys_valid db' /\ (1 <= id)%Z /\
  (find_candidate session db = None -> ~ In id (candidate_ids db)).
Proof.
  intros [Hids Hsessions Hpositive]. unfold create_or_update_candidate.
  destruct (bind_profile c) as [cells|]; [|discriminate].
  destruct (find_candidate session db) as [found|] eqn:Hfind;
    intro H; injection H as <- <-.
  - destruct (updated_keys session cells (candidates db)) as [Ei Es].
    split; [|split].
    + constructor; unfold candidate_ids, sessions in *; simpl;
        rewrite ?Ei, ?Es; assumption.
    + apply found_session in Hfind. destruct Hfind as [Hin _].
      rewrite Forall_forall in Hpositive. apply Hpositive.
      unfold candidate_ids. apply in_map, Hin.
    + discriminate.
  - assert (Hfresh : ~ In (lastrowid (map candidate_row_id (candidates db)))
                       (candidate_ids db)).
    { intro Hin. apply lastrowid_above in Hin. unfold candidate_ids in Hin. lia. }
    split; [|split].
    + constructor; unfold candidate_ids, sessions in *; simpl; rewrite map_app; simpl.
      * apply nodup_snoc; assumption.
      * apply nodup_snoc; [assumption | apply (unknown_session _ _ Hfind)].
      * apply Forall_app. split; [assumption|].
        repeat constructor. apply lastrowid_positive.
    + apply lastrowid_positive.
    + intros _. exact Hfresh.
Qed.

End CandidateKeys.

(** X17. The id of a candidate is a key the session can rely on.  On a
    database whose candidates table has its keys in order (as the
    empty database has), a call of [create_or_update_candidate] that
    returns leaves them in order; the id it returns is 1 or more, so
    the tests [if candidate_id:] of the session never take a saved
    candidate for an unsaved one; for a session that was not stored
    before the id is one no row had; and no other session's row has
    that id. *)
Theorem candidate_id_is_a_key :
  forall (session : string) (c : CandidateInfo) (id : Z)
         (db db' : DatabaseManager.Database),
    keys_valid db ->
    DatabaseManager.create_or_update_candidate session c db = Some (id, db') ->
    keys_valid db' /\
    truthy_id (Some id) = Some id /\
    (DatabaseManager.find_candidate session db = None -> ~ In id (candidate_ids db)) /\
    forall other row,
      other <> session ->
      DatabaseManager.find_candidate other db' = Some row ->
      DatabaseManager.candidate_row_id row <> id.
Proof.
  intros session c id db db' Hkeys Hcall.
  destruct (create_or_update_keeps_keys session c id db db' Hkeys Hcall)
    as (Hkeys' & Hpos & Hfresh).
  split; [exact Hkeys'|]. split; [|split; [exact Hfresh|]].
  - simpl. destruct (id =? 0)%Z eqn:Hz; [|reflexivity].
    apply Z.eqb_eq in Hz. lia.
  - intros other row Hother Hfound Hid.
    destruct (created_row_found session c db id db' Hcall) as (cells & _ & Hmine).
    apply found_session in Hfound. destruct Hfound as [Hin Hs].
    apply found_session in Hmine. destruct Hmine as [Hin' _].
    pose proof (nodup_map_injective DatabaseManager.candidate_row_id _ _ _
                  (ids_unique _ Hkeys') Hin Hin' Hid) as Hsame.
    subst row. simpl in Hs. congruence.
Qed.

Lemma candidate_id_is_a_key_witness :
  keys_valid one_candidate /\ truthy_id (Some 1%Z) = Some 1%Z.
Proof.
  destruct (candidate_id_is_a_key "session-1" sample_profile 1%Z
              DatabaseManager.init_database one_candidate keys_valid_init eq_refl)
    as (Hkeys & Htruthy & _).
  split; assumption.
Defined.

(** ** Questions and answers *)

Section QuestionRows.

Import DatabaseManager.

Lemma bind_integer_some z b : bind_integer z = Some b -> b = z /\ int64 z = true.
Proof.
  unfold bind_integer. destruct (int64 z); intro H; [|discriminate H].
  injection H as <-. auto.
Qed.

(** The loop only appends rows, one per item, and hands out their ids. *)
Lemma insert_questions_appends candidate_id items :
  forall index rows ids ids' rows',
    insert_questions candidate_id index items rows ids = Some (ids', rows') ->
    exists new,
      rows' = rows ++ new /\
      ids' = ids ++ map question_row_id new /\
      List.length new = List.length items /\
      Forall (fun row => question_candidate_id row = candidate_id) new /\
      Forall (fun item => storable item = true) items.
Proof.
  induction items as [|item rest IH]; simpl; intros index rows ids ids' rows' H.
  - injection H as <- <-. exists []. rewrite !app_nil_r. repeat split; constructor.
  - destruct (bind_integer candidate_id) as [bound_id|] eqn:Hid; [|discriminate H].
    destruct (bind_integer index) as [bound_index|] eqn:Hindex; [|discriminate H].
    destruct (not_null (bind_value item)) as [cell|] eqn:Hcell; [|discriminate H].
    apply bind_integer_some in Hid. destruct Hid as [-> _].
    apply IH in H. destruct H as (new & -> & -> & Hlen & Hcid & Hst).
    eexists (_ :: new). rewrite <- !app_assoc. simpl.
    repeat split; try reflexivity.
    + rewrite Hlen. reflexivity.
    + constructor; [reflexivity | exact Hcid].
    + constructor; [unfold storable; rewrite Hcell; reflexivity | exact Hst].
Qed.

Lemma insert_questions_unstorable candidate_id items item :
  In item items -> storable item = false ->
  forall index rows ids, insert_questions candidate_id index items rows ids = None.
Proof.
  intros Hin Hbad index rows ids.
  destruct (insert_questions candidate_id index items rows ids) as [[ids' rows']|] eqn:H;
    [|reflexivity].
  apply insert_questions_appends in H. destruct H as (_ & _ & _ & _ & _ & Hst).
  rewrite Forall_forall in Hst. rewrite (Hst item Hin) in Hbad. discriminate Hbad.
Qed.

Lemma find_skips {A : Type} (p : A -> bool) rows more :
  (forall row, In row rows -> p row = false) -> find p (rows ++ more) = find p more.
Proof.
  induction rows as [|r rows IH]; simpl; intro H; [reflexivity|].
  rewrite (H r (or_introl eq_refl)). apply IH. intros row Hin. apply H. right. exact Hin.
Qed.

Lemma find_prefix {A : Type} (p : A -> bool) rows more row :
  find p rows = Some row -> find p (rows ++ more) = Some row.
Proof.
  induction rows as [|r rows IH]; simpl; [discriminate|].
  destruct (p r); auto.
Qed.

(** The question stored for the item at position [k] is the one that a
    look-up by the index [index + k] finds, as long as the candidate
    had no question at [index] or beyond. *)
Lemma insert_questions_finds candidate_id items :
  forall index rows ids ids' rows' k item,
    insert_questions candidate_id index items rows ids = Some (ids', rows') ->
    (forall row, In row rows -> question_candidate_id row = candidate_id ->
                 (question_index row < index)%Z) ->
    nth_error items k = Some item ->
    exists row,
      find (asks candidate_id (index + Z.of_nat k)) rows' = Some row /\
      nth_error ids' (List.length ids + k) = Some (question_row_id row) /\
      question_candidate_id row = candidate_id /\
      question_index row = (index + Z.of_nat k)%Z /\
      not_null (bind_value item) = Some (question row) /\
      int64 candidate_id = true /\ int64 (index + Z.of_nat k) = true.
Proof.
  induction items as [|first rest IH]; intros index rows ids ids' rows' k item H Hbelow Hk.
  - destruct k; discriminate Hk.
  - simpl in H.
    destruct (bind_integer candidate_id) as [bound_id|] eqn:Hid; [|discriminate H].
    destruct (bind_integer index) as [bound_index|] eqn:Hindex; [|discriminate H].
    destruct (not_null (bind_value first)) as [cell|] eqn:Hcell; [|discriminate H].
    apply bind_integer_some in Hid. destruct Hid as [-> Hid].
    apply bind_integer_some in Hindex. destruct Hindex as [-> Hindex].
    set (row0 := {| question_row_id := lastrowid (map question_row_id rows);
                    question_candidate_id := candidate_id;
                    question_index := index;
                    question := cell |}) in *.
    destruct k as [|k].
    + injection Hk as <-.
      destruct (insert_questions_appends _ _ _ _ _ _ _ H) as (new & -> & -> & _).
      exists row0. rewrite Z.add_0_r, Nat.add_0_r.
      split; [|split; [|repeat split; assumption]].
      * rewrite <- app_assoc. rewrite find_skips.
        { simpl. unfold asks at 1. simpl. rewrite !Z.eqb_refl. reflexivity. }
        intros row Hin. unfold asks.
        destruct (question_candidate_id row =? candidate_id)%Z eqn:Hc; [|reflexivity].
        apply Z.eqb_eq in Hc. specialize (Hbelow row Hin Hc).
        simpl. apply Z.eqb_neq. lia.
      * rewrite <- app_assoc. rewrite nth_error_app2 by lia.
        rewrite Nat.sub_diag. reflexivity.
    + simpl in Hk.
      destruct (IH (index + 1)%Z _ _ _ _ k item H) as (row & Hfind & Hnth & Hrest).
      * intros row Hin Hc. apply in_app_or in Hin. destruct Hin as [Hin|[<-|[]]].
        -- specialize (Hbelow row Hin Hc). lia.
        -- simpl. lia.
      * exact Hk.
      * exists row.
        replace (index + Z.of_nat (S k))%Z with (index + 1 + Z.of_nat k)%Z by lia.
        split; [exact Hfind|]. split; [|exact Hrest].
        rewrite length_app in Hnth. simpl in Hnth.
        replace (List.length ids + S k) with (List.length ids + 1 + k) by lia.
        exact Hnth.
Qed.

End QuestionRows.

(** X18. An answer reaches its question.  When the questions of a
    candidate who had none have been stored from a list, an answer
    saved under the position of an item is attached to the row that
    was stored for that item: the call returns the id of a new answer
    row that refers to the id [save_technical_questions] returned at
    that position, and that id is the row holding the item under that
    index. *)
Theorem answer_reaches_its_question :
  forall (candidate_id : Z) (items : list pyval) (db db1 : DatabaseManager.Database)
         (ids : list Z) (k : nat) (item : pyval) (text : string),
    no_questions_of candidate_id db ->
    DatabaseManager.save_technical_questions candidate_id (PList items) db
    = Some (ids, db1) ->
    nth_error items k = Some item ->
    exists answer_id question_id cell db2,
      DatabaseManager.save_technical_answer candidate_id (Z.of_nat k) text db1
      = Some (Some answer_id, db2) /\
      nth_error ids k = Some question_id /\
      DatabaseManager.not_null (DatabaseManager.bind_value item) = Some cell /\
      In {| DatabaseManager.question_row_id := question_id;
            DatabaseManager.question_candidate_id := candidate_id;
            DatabaseManager.question_index := Z.of_nat k;
            DatabaseManager.question := cell |}
         (DatabaseManager.technical_questions db1) /\
      DatabaseManager.technical_answers db2
      = DatabaseManager.technical_answers db1 ++
        [{| DatabaseManager.answer_row_id := answer_id;
            DatabaseManager.answer_candidate_id := candidate_id;
            DatabaseManager.question_id := question_id;
            DatabaseManager.answer := text |}] /\
      DatabaseManager.technical_questions db2 = DatabaseManager.technical_questions db1.
Proof.
  intros candidate_id items db db1 ids k item text Hnone Hsave Hk.
  unfold DatabaseManager.save_technical_questions in Hsave. simpl in Hsave.
  destruct (DatabaseManager.insert_questions candidate_id 0 items
              (DatabaseManager.technical_questions db) [])
    as [[ids' rows']|] eqn:Hloop; [|discriminate Hsave].
  injection Hsave as <- <-.
  destruct (insert_questions_finds candidate_id items 0%Z _ [] _ _ k item Hloop)
    as (row & Hfind & Hnth & Hcid & Hindex & Hcell & Hid64 & Hk64).
  { intros row Hin Hc. destruct (Hnone row Hin Hc). }
  { exact Hk. }
  simpl in Hfind, Hnth, Hindex, Hk64.
  unfold DatabaseManager.save_technical_answer, DatabaseManager.bind_integer,
    DatabaseManager.find_question.
  rewrite Hid64, Hk64. simpl.
  change (fun row0 : DatabaseManager.Question =>
            (DatabaseManager.question_candidate_id row0 =? candidate_id)%Z
            && (DatabaseManager.question_index row0 =? Z.of_nat k)%Z)
    with (asks candidate_id (Z.of_nat k)).
  rewrite Hfind.
  exists (DatabaseManager.lastrowid
            (map DatabaseManager.answer_row_id (DatabaseManager.technical_answers db))),
    (DatabaseManager.question_row_id row), (DatabaseManager.question row).
  eexists. split; [reflexivity|]. split; [exact Hnth|]. split; [exact Hcell|].
  split; [|split; reflexivity].
  apply find_some in Hfind. destruct Hfind as [Hin _].
  destruct row as [rid rcid rindex rcell]. simpl in *. subst. exact Hin.
Qed.

Lemma answer_reaches_its_question_witness :
  exists answer_id db2,
    DatabaseManager.save_technical_answer 1 1 "It speeds up lookups" with_questions
    = Some (Some answer_id, db2) /\
    map DatabaseManager.question_id (DatabaseManager.technical_answers db2) = [2%Z].
Proof.
  assert (Hnone : no_questions_of 1 one_candidate) by (intros row []).
  destruct (answer_reaches_its_question 1
              [ PStr "What is a closure?"; PStr "What does an index do?";
                PStr "How do you test a service?" ]
              one_candidate with_questions [1; 2; 3]%Z 1
              (PStr "What does an index do?") "It speeds up lookups"
              Hnone eq_refl eq_refl)
    as (answer_id & question_id & cell & db2 & Hsave & Hid & _ & _ & Hanswers & _).
  exists answer_id, db2. split; [exact Hsave|].
  rewrite Hanswers. injection Hid as <-. reflexivity.
Defined.

(** X19. Questions are stored all or none.  When
    [save_technical_questions] returns, the value it was given could
    be iterated, every item could be stored, and the database has
    exactly one new question row per item, all of the candidate, whose
    ids are the ones returned; the other tables are as they were.  A
    single item that cannot be stored (a JSON object or list, null, a
    NaN, an integer beyond 64 bits) makes the call raise, whatever the
    other items are. *)
Theorem questions_stored_all_or_none :
  forall (candidate_id : Z) (questions : pyval) (db : DatabaseManager.Database),
    (forall ids db',
        DatabaseManager.save_technical_questions candidate_id questions db
        = Some (ids, db') ->
        exists items new,
          DatabaseManager.py_iter questions = Some items /\
          Forall (fun item => storable item = true) items /\
          DatabaseManager.technical_questions db'
          = DatabaseManager.technical_questions db ++ new /\
          List.length new = List.length items /\
          ids = map DatabaseManager.question_row_id new /\
          Forall (fun row => DatabaseManager.question_candidate_id row = candidate_id) new /\
          DatabaseManager.candidates db' = DatabaseManager.candidates db /\
          DatabaseManager.technical_answers db' = DatabaseManager.technical_answers db /\
          DatabaseManager.conversation_logs db' = DatabaseManager.conversation_logs db) /\
    (forall items item,
        DatabaseManager.py_iter questions = Some items ->
        In item items -> storable item = false ->
        DatabaseManager.save_technical_questions candidate_id questions db = None).
Proof.
  intros candidate_id questions db. unfold DatabaseManager.save_technical_questions.
  split.
  - intros ids db' H.
    destruct (DatabaseManager.py_iter questions) as [items|]; [|discriminate H].
    destruct (DatabaseManager.insert_questions candidate_id 0 items
                (DatabaseManager.technical_questions db) [])
      as [[ids' rows']|] eqn:Hloop; [|discriminate H].
    injection H as <- <-.
    apply insert_questions_appends in Hloop.
    destruct Hloop as (new & -> & -> & Hlen & Hcid & Hst).
    exists items, new. simpl. repeat split; assumption.
  - intros items item -> Hin Hbad.
    rewrite (insert_questions_unstorable candidate_id items item Hin Hbad). reflexivity.
Qed.

(** X20. An answer sent for the question before the first is dropped.
    When an answer is awaiting storage while the question index is
    still 0, the next run hands it to the database under the index -1;
    on a database whose question indices start at 0 that call finds no
    question, stores nothing and returns without an error. *)
Theorem answer_before_first_question_is_dropped :
  forall (RT : Runtime) (inp : Inputs) (s : SessionState) (text : string) (cid : Z)
         (db : DatabaseManager.Database),
    last_technical_answer s = Some text -> text <> "" ->
    truthy_id (candidate_id s) = Some cid ->
    current_question_index s = 0 ->
    DatabaseManager.int64 cid = true ->
    indices_from_zero db ->
    In (SaveTechnicalAnswer cid (-1) text) (gateway (after inp s)) /\
    DatabaseManager.save_technical_answer cid (-1) text db = Some (None, db).
Proof.
  intros RT inp s text cid db Ha Hne Hid Hindex H64 Hzero. split.
  - pose proof (next_run_stores_answer inp s text cid Ha Hne Hid) as Hin.
    rewrite Hindex in Hin. exact Hin.
  - unfold DatabaseManager.save_technical_answer, DatabaseManager.bind_integer.
    rewrite H64. simpl.
    destruct (DatabaseManager.find_question cid (-1) db) as [row|] eqn:Hfind;
      [|reflexivity].
    unfold DatabaseManager.find_question in Hfind. apply find_some in Hfind.
    destruct Hfind as [Hin Hask]. apply andb_prop in Hask. destruct Hask as [_ Hask].
    apply Z.eqb_eq in Hask. specialize (Hzero row Hin). lia.
Qed.

Lemma answer_before_first_question_is_dropped_witness :
  DatabaseManager.save_technical_answer 1 (-1) "bye" with_questions
  = Some (None, with_questions).
Proof.
  assert (Hne : "bye" <> "") by discriminate.
  assert (Hzero : indices_from_zero with_questions).
  { intros row Hin. simpl in Hin.
    repeat (destruct Hin as [<-|Hin]; [simpl; lia|]). destruct Hin. }
  apply (answer_before_first_question_is_dropped sample_runtime rerun
           (set_last_technical_answer (Some "bye")
              (set_current_question_index 0 interview_session))
           "bye" 1%Z with_questions eq_refl Hne eq_refl eq_refl eq_refl Hzero).
Defined.

(** * The questions are stored once *)

Lemma questions_calls_app a b :
  questions_calls (a ++ b) = questions_calls a + questions_calls b.
Proof. unfold questions_calls. rewrite filter_app, length_app. reflexivity. Qed.

Lemma no_questions_call_refl s : no_questions_call s s.
Proof. exists []. rewrite app_nil_r. auto. Qed.

Lemma no_questions_call_trans s1 s2 s3 :
  no_questions_call s1 s2 -> no_questions_call s2 s3 -> no_questions_call s1 s3.
Proof.
  intros (a & Ha & Ca) (b & Hb & Cb). exists (a ++ b).
  rewrite Hb, Ha, app_assoc, questions_calls_app, Ca, Cb. auto.
Qed.

Lemma no_questions_call_count s s' :
  no_questions_call s s' -> questions_calls (gateway s') = questions_calls (gateway s).
Proof. intros (calls & -> & Hc). rewrite questions_calls_app, Hc. lia. Qed.

Lemma no_questions_call_in s s' cid qs :
  no_questions_call s s' ->
  In (SaveTechnicalQuestions cid qs) (gateway s') ->
  In (SaveTechnicalQuestions cid qs) (gateway s).
Proof.
  intros (calls & -> & Hc) Hin. apply in_app_or in Hin. destruct Hin as [Hin|Hin]; [exact Hin|].
  exfalso. unfold questions_calls in Hc.
  assert (Hf : In (SaveTechnicalQuestions cid qs) (filter is_questions_call calls))
    by (apply filter_In; auto).
  destruct (filter is_questions_call calls); [destruct Hf | discriminate Hc].
Qed.

Ltac no_questions_leaf :=
  unfold no_questions_call; session_simpl;
  solve [ exists []; rewrite app_nil_r; auto | eexists; split; reflexivity ].

Section QuestionsOnce.

Context {RT : Runtime}.

Lemma prelude_no_questions_call inp text : stable no_questions_call (prelude inp text).
Proof.
  unfold prelude, opening, start_conversation, flush_technical_answer,
    capture_technical_answer, save_message_to_db.
  stable_walk no_questions_call_refl no_questions_call_trans no_questions_leaf.
Qed.

Lemma opening_no_questions_call inp : stable no_questions_call (opening inp).
Proof.
  unfold opening, start_conversation, flush_technical_answer, save_message_to_db.
  stable_walk no_questions_call_refl no_questions_call_trans no_questions_leaf.
Qed.

Lemma check_end_no_questions_call text : stable no_questions_call (check_end_keywords text).
Proof.
  unfold check_end_keywords, save_message_to_db.
  stable_walk no_questions_call_refl no_questions_call_trans no_questions_leaf.
Qed.

Lemma technical_branch_no_questions_call inp text :
  stable no_questions_call (technical_branch inp text).
Proof.
  unfold technical_branch, update_request_branch, update_value_branch, answer_branch,
    save_candidate_to_db, present_question.
  stable_walk no_questions_call_refl no_questions_call_trans no_questions_leaf.
  apply extract_in_session_stable. intros. no_questions_leaf.
Qed.

Lemma saved_no_questions_call inp s : no_questions_call s (saved inp s).
Proof. unfold saved. destruct (db_candidate inp); no_questions_leaf. Qed.

Lemma not_counted_not_in calls cid qs :
  questions_calls calls = 0 -> ~ In (SaveTechnicalQuestions cid qs) calls.
Proof.
  unfold questions_calls. intros Hc Hin.
  assert (Hf : In (SaveTechnicalQuestions cid qs) (filter is_questions_call calls))
    by (apply filter_In; auto).
  destruct (filter is_questions_call calls); [destruct Hf | discriminate Hc].
Qed.

(** The information branch stores the questions at most once, and then
    the very questions it leaves in the session, in the
    technical-questions phase. *)
Lemma info_branch_questions_calls inp text s :
  exists calls,
    gateway (fst (info_branch inp text s)) = gateway s ++ calls /\
    questions_calls calls <= 1 /\
    (questions_calls calls = 1 -> phase (fst (info_branch inp text s)) = TechnicalQuestions) /\
    forall cid qs,
      In (SaveTechnicalQuestions cid qs) calls ->
      qs = technical_questions (fst (info_branch inp text s)).
Proof.
  destruct (extract_candidate_info text (llm_extraction inp) (candidate_info s))
    as [c' [e|[]]] eqn:Hex.
  { rewrite (info_branch_raises inp text s c' e Hex). simpl.
    exists []. rewrite app_nil_r. repeat split; auto.
    - discriminate.
    - intros cid qs []. }
  unfold info_branch.
  erewrite bind_returns by (rewrite extract_in_session_run, Hex; reflexivity).
  rewrite (bind_returns _ _ _ _ _ (save_candidate_to_db_run inp _)).
  step.
  destruct (saved_no_questions_call inp (set_candidate_info (fst (c', @inr exn unit tt)) s))
    as (c0 & G0 & C0).
  simpl fst in *.
  set (s2 := saved inp (set_candidate_info c' s)) in *.
  assert (G2 : gateway s2 = gateway s ++ c0) by exact G0. clear G0.
  destruct (is_complete (candidate_info s2)).
  - do 2 step.
    set (qs := generate_technical_questions (candidate_info s2) (llm_questions inp)).
    set (s3 := set_technical_questions qs (set_phase TechnicalQuestions s2)).
    destruct (truthy_id (candidate_id s2)) as [cid|]; [step|];
      rewrite ?bind_assoc;
      match goal with
      | |- context [fst (bind ?m ?k ?st)] =>
          assert (Hn : stable no_questions_call (bind m k))
            by (unfold save_message_to_db;
                stable_walk no_questions_call_refl no_questions_call_trans
                            no_questions_leaf);
          assert (He : stable same_entry (bind m k))
            by (unfold save_message_to_db;
                stable_walk same_entry_refl same_entry_trans same_entry_leaf);
          destruct (Hn st) as (c1 & G1 & C1);
          destruct (He st) as (Eph & _ & Eq);
          remember (fst (bind m k st)) as final
      end; clear Hn He Heqfinal.
    + simpl in G1, Eph, Eq. rewrite G2 in G1.
      exists (c0 ++ [SaveTechnicalQuestions cid qs] ++ c1).
      rewrite G1, <- !app_assoc. split; [reflexivity|].
      rewrite !questions_calls_app, C0, C1. simpl.
      split; [lia|]. split; [intros _; exact Eph|].
      intros cid' qs' Hin. rewrite Eq.
      apply in_app_or in Hin. destruct Hin as [Hin|Hin];
        [destruct (not_counted_not_in _ _ _ C0 Hin)|].
      destruct Hin as [Hin|Hin];
        [injection Hin as _ <-; reflexivity | destruct (not_counted_not_in _ _ _ C1 Hin)].
    + simpl in G1, Eph, Eq. rewrite G2 in G1.
      exists (c0 ++ c1). rewrite G1, <- !app_assoc. split; [reflexivity|].
      rewrite !questions_calls_app, C0, C1. simpl.
      split; [lia|]. split; [discriminate|].
      intros cid' qs' Hin.
      apply in_app_or in Hin. destruct Hin as [Hin|Hin];
        [destruct (not_counted_not_in _ _ _ C0 Hin)
        | destruct (not_counted_not_in _ _ _ C1 Hin)].
  - match goal with
    | |- context [fst (bind ?m ?k ?st)] =>
        assert (Hn : stable no_questions_call (bind m k))
          by (unfold save_message_to_db;
              stable_walk no_questions_call_refl no_questions_call_trans
                          no_questions_leaf);
        destruct (Hn st) as (c1 & G1 & C1);
        remember (fst (bind m k st)) as final
    end.
    rewrite G2 in G1. exists (c0 ++ c1). rewrite G1, <- !app_assoc.
    split; [reflexivity|]. rewrite !questions_calls_app, C0, C1. simpl.
    split; [lia|]. split; [discriminate|].
    intros cid' qs' Hin.
    apply in_app_or in Hin. destruct Hin as [Hin|Hin];
      [destruct (not_counted_not_in _ _ _ C0 Hin)
      | destruct (not_counted_not_in _ _ _ C1 Hin)].
Qed.

End QuestionsOnce.

Section QuestionsInOrder.

Context {RT : Runtime}.

Lemma quiet_run_keeps_order s s' :
  questions_in_order s ->
  no_questions_call s s' ->
  technical_questions s' = technical_questions s ->
  phase_rank (phase s) <= phase_rank (phase s') ->
  questions_in_order s'.
Proof.
  intros (Hle & Hzero & Hin) Hquiet Hq Hph.
  rewrite <- (no_questions_call_count _ _ Hquiet) in Hle, Hzero.
  split; [exact Hle|]. split; [intro H; apply Hzero; lia|].
  intros cid qs H. rewrite Hq. eapply Hin, no_questions_call_in; eassumption.
Qed.

Lemma run_keeps_questions_in_order inp s :
  questions_in_order s -> questions_in_order (after inp s).
Proof.
  intro Hinv. pose proof (run_phase_forward inp s) as Hforward. revert Hforward.
  unfold after.
  destruct (run_cases inp s)
    as [(_ & s1 & -> & E & F) | (text & s1 & _ & -> & F & [(_ & _ & E & F') | (_ & E)])].
  - rewrite E. simpl. intro Hforward.
    apply (quiet_run_keeps_order s); auto.
    + apply opening_no_questions_call.
    + apply (sf_questions _ _ F).
  - rewrite E. intro Hforward.
    apply (quiet_run_keeps_order s); auto.
    + eapply no_questions_call_trans;
        [apply prelude_no_questions_call | apply check_end_no_questions_call].
    + rewrite <- E, (sf_questions _ _ F'). simpl. apply (sf_questions _ _ F).
  - rewrite E.
    set (s1 := fst (prelude inp text s)) in *.
    assert (Hinv1 : questions_in_order s1).
    { apply (quiet_run_keeps_order s); auto.
      - apply prelude_no_questions_call.
      - apply (sf_questions _ _ F).
      - rewrite (sf_phase _ _ F). lia. }
    destruct (phase s1) eqn:Hph.
    1,2: rewrite dispatch_info, fst_bind_ret by auto; intros _;
      destruct (info_branch_questions_calls inp text s1)
        as (calls & G & Hle & Hone & Hin);
      destruct Hinv1 as (_ & Hzero & _);
      assert (Hz : questions_calls (gateway s1) = 0)
        by (apply Hzero; rewrite Hph; simpl; lia);
      (split; [|split]);
      [ rewrite G, questions_calls_app, Hz; exact Hle
      | intro Hlow; rewrite G, questions_calls_app, Hz;
        destruct (questions_calls calls) as [|[|n]] eqn:Hc; try lia;
        rewrite (Hone eq_refl) in Hlow; simpl in Hlow; lia
      | intros cid qs H; rewrite G in H; apply in_app_or in H;
        destruct H as [H|H];
        [destruct (not_counted_not_in _ _ _ Hz H) | apply (Hin cid qs H)] ].
    + rewrite dispatch_technical, fst_bind_ret by assumption. intro Hforward.
      apply (quiet_run_keeps_order s1); auto.
      * apply technical_branch_no_questions_call.
      * apply technical_branch_interview_forward.
      * destruct (technical_branch_closing_step inp text s1) as [H|H];
          rewrite H, ?Hph; simpl; lia.
    + rewrite dispatch_completed by assumption. intros _. exact Hinv1.
Qed.

End QuestionsInOrder.

(** X21. The questions of a session are stored at most once.  Over
    any sequence of runs from a new session, the technical questions
    are handed to the database at most once, never before the
    interview has begun, and what was handed over is the question set
    the session holds from then on: the look-up of a question by
    candidate and index has one row to find. *)
Theorem questions_stored_at_most_once :
  forall (RT : Runtime) (inps : list Inputs),
    let s := run_all inps init_session_state in
    questions_calls (gateway s) <= 1 /\
    (phase s = Greeting \/ phase s = InfoGathering -> questions_calls (gateway s) = 0) /\
    forall cid qs,
      In (SaveTechnicalQuestions cid qs) (gateway s) -> qs = technical_questions s.
Proof.
  intros RT inps.
  assert (Hall : forall s, questions_in_order s -> questions_in_order (run_all inps s)).
  { induction inps as [|inp rest IH]; intros s H; simpl; [exact H|].
    apply IH, run_keeps_questions_in_order, H. }
  destruct (Hall init_session_state) as (Hle & Hzero & Hin).
  { unfold questions_in_order, questions_calls. simpl.
    split; [lia|]. split; [reflexivity|]. intros cid qs []. }
  simpl. split; [exact Hle|]. split; [|exact Hin].
  intros [H|H]; apply Hzero; rewrite H; simpl; lia.
Qed.

(** * The heuristics for the name and the location *)

Section WholeLine.

Variable cls : ascii -> bool.

(** A repetition that succeeds has taken characters of the class, at
    least as many as it must, and handed the rest to what follows. *)
Lemma rep_match_sound (R : Type) lo hi prev s
      (k : option ascii -> string -> option R) r :
  Re.rep_match R cls lo hi prev s k = Some r ->
  exists taken rest prev',
    s = (taken ++ rest)%string /\
    forallb cls (list_ascii_of_string taken) = true /\
    lo <= String.length taken /\
    k prev' rest = Some r.
Proof.
  revert lo hi prev. induction s as [|c s IH]; intros lo hi prev H.
  - exists "", "", prev.
    destruct hi as [[|h]|], lo; simpl in H; try discriminate H; repeat split; auto.
  - assert (Hstop : match lo with 0 => k prev (String c s) | S _ => None end = Some r ->
                    exists taken rest prev',
                      String c s = (taken ++ rest)%string /\
                      forallb cls (list_ascii_of_string taken) = true /\
                      lo <= String.length taken /\ k prev' rest = Some r).
    { destruct lo; [|discriminate]. intro Hk.
      exists "", (String c s), prev. repeat split; auto. }
    cbn [Re.rep_match] in H.
    destruct hi as [[|h]|]; [exact (Hstop H) | |];
      (destruct (cls c) eqn:Hc; [|exact (Hstop H)]);
      match type of H with
      | match ?inner with _ => _ end = _ =>
          destruct inner as [r'|] eqn:Hinner; [|exact (Hstop H)]
      end;
      injection H as <-;
      apply IH in Hinner; destruct Hinner as (taken & rest & prev' & -> & Hall & Hlo & Hk);
      exists (String c taken), rest, prev'; simpl; rewrite Hc;
      repeat split; auto; lia.
Qed.

(** On a text of the class the unbounded repetition takes everything. *)
Lemma rep_match_all (R : Type) lo prev s (k : option ascii -> string -> option R) :
  forallb cls (list_ascii_of_string s) = true ->
  lo <= String.length s ->
  (forall prev', k prev' "" <> None) ->
  Re.rep_match R cls lo None prev s k <> None.
Proof.
  revert lo prev. induction s as [|c s IH]; intros lo prev Hall Hlo Hk.
  - destruct lo; [|simpl in Hlo; lia]. simpl. apply Hk.
  - simpl in Hall. apply andb_prop in Hall. destruct Hall as [Hc Hall].
    cbn [Re.rep_match option_map]. rewrite Hc.
    specialize (IH (Nat.pred lo) (Some c) Hall).
    destruct (Re.rep_match R cls (Nat.pred lo) None (Some c) s k).
    + discriminate.
    + exfalso. apply IH; [simpl in Hlo; lia | exact Hk | reflexivity].
Qed.

Lemma forallb_string_app a b :
  forallb cls (list_ascii_of_string (a ++ b))
  = forallb cls (list_ascii_of_string a) && forallb cls (list_ascii_of_string b).
Proof. induction a as [|c a IH]; simpl; [reflexivity | rewrite IH, andb_assoc; reflexivity]. Qed.

(** The pattern [^cls+$] of a class that holds the line feed matches
    the texts that are made of the class, and not empty. *)
Lemma whole_line_matches s :
  cls (ascii_of_nat 10) = true ->
  Re.found (Re.match_ (whole_line cls) s) = all_in cls s.
Proof.
  intro Hnl. unfold Re.match_, Re.match_here, whole_line, all_in.
  cbn [Re.seq Re.match_re Re.plus].
  destruct (Re.rep_match _ cls 1 None None s _) as [m|] eqn:H.
  - apply rep_match_sound in H.
    destruct H as (taken & rest & prev' & -> & Hall & Hlo & Hk).
    simpl. symmetry. apply andb_true_intro. split.
    + destruct taken; [simpl in Hlo; lia | reflexivity].
    + rewrite forallb_string_app, Hall. simpl.
      destruct (Re.at_end rest) eqn:Hend; [|discriminate Hk].
      destruct rest as [|c [|c' rest]]; simpl in Hend |- *; try reflexivity;
        try discriminate Hend.
      apply Nat.eqb_eq in Hend.
      replace c with (ascii_of_nat 10)
        by (unfold PyStr.code in Hend; rewrite <- Hend; apply ascii_nat_embedding).
      rewrite Hnl. reflexivity.
  - simpl. symmetry. apply not_true_is_false. intro Hin.
    apply andb_prop in Hin. destruct Hin as [Hne Hall].
    revert H. apply rep_match_all; [exact Hall | | intro; simpl; discriminate].
    destruct s; [discriminate Hne | simpl; lia].
Qed.

End WholeLine.

(** X22. The name and the location heuristics, without their patterns,
    for a message of ASCII characters.  Such a message is taken for the
    name exactly when the name is missing, the message has at most
    three words, is not empty once stripped, consists of letters, white
    space, hyphens and apostrophes only, and is not as a whole one of
    the position keywords; the name is then the stripped message.  It
    is taken for the location exactly when the location is missing, it
    has at most three words, is not empty once stripped, consists of
    letters, white space, hyphens, commas and full stops only, is
    neither a position keyword nor the name, and at most one of the six
    other fields is missing.  (Beyond ASCII the source's white space
    and lower case are Unicode's, which the model does not have.) *)
Theorem short_reply_heuristics :
  forall (message : string) (c : CandidateInfo),
    is_ascii message = true ->
    heuristic_name message c
    = (if negb (truthy (full_name c))
          && (List.length (PyStr.split message) <=? 3)%nat
          && all_in name_char (PyStr.strip message)
          && negb (PyStr.mem (PyStr.lower (PyStr.strip message)) position_keywords)
       then set_full_name (PStr (PyStr.strip message)) c
       else c) /\
    heuristic_location message c
    = (if negb (truthy (current_location c))
          && (List.length (PyStr.split message) <=? 3)%nat
          && all_in location_char (PyStr.strip message)
          && negb (PyStr.mem (PyStr.lower (PyStr.strip message)) position_keywords)
          && negb (eq_str (full_name c) (PyStr.strip message))
          && (List.length (location_missing_fields c) <=? 1)%nat
       then set_current_location (PStr (PyStr.strip message)) c
       else c).
Proof.
  intros message c _. split.
  - unfold heuristic_name.
    change name_pattern with (whole_line name_char).
    rewrite (whole_line_matches name_char (PyStr.strip message) eq_refl).
    destruct (negb (truthy (full_name c)) && (List.length (PyStr.split message) <=? 3)%nat);
      [|reflexivity].
    destruct (all_in name_char (PyStr.strip message)); [|reflexivity].
    destruct (negb (PyStr.mem (PyStr.lower (PyStr.strip message)) position_keywords));
      reflexivity.
  - unfold heuristic_location.
    change location_pattern with (whole_line location_char).
    rewrite (whole_line_matches location_char (PyStr.strip message) eq_refl).
    destruct (negb (truthy (current_location c))
              && (List.length (PyStr.split message) <=? 3)%nat); [|reflexivity].
    destruct (all_in location_char (PyStr.strip message)); [|reflexivity].
    destruct (negb (PyStr.mem (PyStr.lower (PyStr.strip message)) position_keywords));
      [|reflexivity].
    destruct (negb (eq_str (full_name c) (PyStr.strip message))); [|reflexivity].
    destruct (List.length (location_missing_fields c) <=? 1)%nat; reflexivity.
Qed.

(** A name between blanks, and a keyword that is no name. *)
Lemma short_reply_heuristics_witness :
  heuristic_name "  Asha Rao " CandidateInfo_new
  = set_full_name (PStr "Asha Rao") CandidateInfo_new /\
  heuristic_name "Tester" CandidateInfo_new = CandidateInfo_new.
Proof.
  split.
  - destruct (short_reply_heuristics "  Asha Rao " CandidateInfo_new eq_refl) as [Hname _].
    rewrite Hname. reflexivity.
  - destruct (short_reply_heuristics "Tester" CandidateInfo_new eq_refl) as [Hname _].
    rewrite Hname. reflexivity.
Defined.

(** * An interview that cannot start *)

Ltac transcript_leaf := session_simpl; reflexivity.

Section FailedEntry.

Context {RT : Runtime}.

Lemma same_transcript_trans (s1 s2 s3 : SessionState) :
  messages s2 = messages s1 -> messages s3 = messages s2 -> messages s3 = messages s1.
Proof. congruence. Qed.

Lemma quiet_steps_keep_transcript inp text :
  stable (fun s s' => messages s' = messages s) (flush_technical_answer inp) /\
  (forall role, stable (fun s s' => messages s' = messages s)
                  (save_message_to_db role text)) /\
  stable (fun s s' => messages s' = messages s) (capture_technical_answer text).
Proof.
  unfold flush_technical_answer, save_message_to_db, capture_technical_answer.
  split; [|split; [intro role|]];
    stable_walk (fun s : SessionState => @eq_refl _ (messages s)) same_transcript_trans
                transcript_leaf.
Qed.

(** The transcript when the end keywords are checked: what there was,
    the greeting if it had not been said, and the message. *)
Lemma prelude_transcript inp text s :
  messages (fst (prelude inp text s))
  = messages s
    ++ (if conversation_started s then [] else [(Assistant, lang_get "greeting")])
    ++ [(User, text)].
Proof.
  destruct (quiet_steps_keep_transcript inp text) as (Hflush & Hsave & Hcapture).
  unfold prelude, opening. rewrite ?bind_assoc.
  destruct (start_conversation_frame s) as (s1 & E1 & _).
  rewrite (bind_returns _ _ _ _ _ E1).
  assert (M1 : messages s1
               = messages s
                 ++ (if conversation_started s then []
                     else [(Assistant, lang_get "greeting")])).
  { revert E1. unfold start_conversation. step.
    destruct (conversation_started s); unfold when; cbn [negb].
    - intro E. injection E as <-. rewrite app_nil_r. reflexivity.
    - do 2 step. intro E.
      pose proof (proj1 (proj2 (quiet_steps_keep_transcript inp (lang_get "greeting")))
                    Assistant
                    (set_conversation_started true
                       (append_message Assistant (lang_get "greeting") s))) as Hm.
      rewrite E in Hm. exact Hm. }
  destruct (flush_technical_answer_frame inp s1) as (s2 & E2 & _).
  rewrite (bind_returns _ _ _ _ _ E2).
  pose proof (Hflush s1) as M2. rewrite E2 in M2. simpl in M2.
  step.
  destruct (save_message_to_db_frame User text (append_message User text s2))
    as (s3 & E3 & _).
  rewrite (bind_returns _ _ _ _ _ E3).
  pose proof (Hsave User (append_message User text s2)) as M3. rewrite E3 in M3.
  simpl in M3.
  rewrite (Hcapture s3), M3, M2, M1, <- app_assoc. reflexivity.
Qed.

Lemma info_branch_fails_on_questions inp text s c' e :
  extract_candidate_info text (llm_extraction inp) (candidate_info s) = (c', inr tt) ->
  is_complete c' = true ->
  first_question_error (generate_technical_questions c' (llm_questions inp)) = Some e ->
  exists s', info_branch inp text s = (s', inl e) /\ messages s' = messages s.
Proof.
  intros Hex Hc Herr. unfold info_branch.
  erewrite bind_returns by (rewrite extract_in_session_run, Hex; reflexivity).
  rewrite (bind_returns _ _ _ _ _ (save_candidate_to_db_run inp _)).
  step.
  destruct (saved_same_stage inp (set_candidate_info (fst (c', @inr exn unit tt)) s))
    as (_ & Sc & _).
  simpl in Sc. simpl fst. rewrite Sc, Hc.
  set (s2 := saved inp (set_candidate_info c' s)) in *.
  assert (Hm : messages s2 = messages s)
    by (unfold s2, saved; destruct (db_candidate inp); reflexivity).
  do 2 step.
  set (qs := generate_technical_questions c' (llm_questions inp)) in *.
  unfold first_question_error in Herr.
  destruct (truthy_id (candidate_id s2)) as [cid|]; step; rewrite ?bind_assoc;
    (destruct (py_len qs) as [e1|n] eqn:Hlen;
     [ injection Herr as ->
     | erewrite bind_returns by (unfold lift; reflexivity);
       rewrite ?bind_assoc;
       destruct (py_getitem qs 0) as [e2|q] eqn:Hget; [|discriminate Herr];
       injection Herr as -> ]);
    (eexists; split; [apply bind_raises; unfold lift, raise; reflexivity | exact Hm]).
Qed.

End FailedEntry.

(** X23. Entering the interview can fail after the phase has
    changed.  When a message completes the profile but the question
    set generated from the language model's reply has no length or no
    first item (an empty list, a number, an object), the run raises
    while presenting the first question: by then the session is in the
    technical-questions phase and holds that question set, and the
    transcript ends with the user's message, no response after it. *)
Theorem interview_entry_can_fail :
  forall (RT : Runtime) (inp : Inputs) (s : SessionState) (text : string) (e : exn),
    phase s = Greeting \/ phase s = InfoGathering ->
    prompt inp = Some text -> text <> "" ->
    should_end_conversation text = false ->
    let pass := extract_candidate_info text (llm_extraction inp) (candidate_info s) in
    snd pass = inr tt ->
    is_complete (fst pass) = true ->
    let questions := generate_technical_questions (fst pass) (llm_questions inp) in
    first_question_error questions = Some e ->
    outcome inp s = inl e /\
    phase (after inp s) = TechnicalQuestions /\
    technical_questions (after inp s) = questions /\
    candidate_info (after inp s) = fst pass /\
    exists earlier, messages (after inp s) = earlier ++ [(User, text)].
Proof.
  intros RT inp s text e Hph Hprompt Hne Hend pass Hret Hc questions Herr.
  pose proof (truthy_text_some _ _ Hprompt Hne) as Htext.
  destruct (run_cases inp s)
    as [(Hnone & _) | (text' & s1 & Htext' & Hs1 & F & [(Hend' & _) | (_ & E)])];
    try congruence;
    rewrite Htext in Htext'; injection Htext' as <-; try congruence.
  assert (Hph1 : phase s1 = Greeting \/ phase s1 = InfoGathering)
    by (rewrite (sf_phase _ _ F); exact Hph).
  assert (Hex : extract_candidate_info text (llm_extraction inp) (candidate_info s1)
                = (fst pass, inr tt)).
  { rewrite (sf_profile _ _ F). subst pass.
    destruct (extract_candidate_info text (llm_extraction inp) (candidate_info s))
      as [c' r]. simpl in *. rewrite Hret. reflexivity. }
  destruct (info_branch_fails_on_questions inp text s1 (fst pass) e Hex Hc Herr)
    as (s' & Efail & Hm).
  destruct (info_branch_complete inp text s1 (fst pass) Hex Hc) as (Hp & Hci & Hq).
  unfold outcome, after. rewrite E, (dispatch_info inp text s1 Hph1).
  rewrite fst_bind_ret. split; [|split; [exact Hp | split; [exact Hq | split; [exact Hci|]]]].
  - rewrite (bind_raises _ _ _ _ _ Efail). reflexivity.
  - rewrite Efail. simpl. rewrite Hm, Hs1, prelude_transcript, app_assoc.
    eexists. reflexivity.
Qed.

Lemma interview_entry_can_fail_witness :
  @outcome sample_runtime
    {| prompt := Some "I work with Rust"; llm_extraction := rust_reply;
       llm_questions := no_questions_reply; llm_next_question := "";
       db_candidate := Some 1%Z; db_answer_saved := true |}
    gathering_session
  = inl IndexError.
Proof.
  assert (Hne : "I work with Rust" <> "") by discriminate.
  apply (interview_entry_can_fail sample_runtime
           {| prompt := Some "I work with Rust"; llm_extraction := rust_reply;
              llm_questions := no_questions_reply; llm_next_question := "";
              db_candidate := Some 1%Z; db_answer_saved := true |}
           gathering_session "I work with Rust" IndexError
           (or_intror eq_refl) eq_refl Hne eq_refl eq_refl eq_refl eq_refl).
Defined.

(** * The transcript of a saved candidate *)

Section LoggedMessages.

Context {RT : Runtime}.

Lemma same_gateway_trans (s1 s2 s3 : SessionState) :
  gateway s2 = gateway s1 -> gateway s3 = gateway s2 -> gateway s3 = gateway s1.
Proof. congruence. Qed.

Lemma capture_keeps_gateway text :
  stable (fun s s' => gateway s' = gateway s) (capture_technical_answer text).
Proof.
  unfold capture_technical_answer.
  stable_walk (fun s : SessionState => @eq_refl _ (gateway s)) same_gateway_trans
              transcript_leaf.
Qed.

Lemma prelude_logs_message inp text s cid :
  truthy_id (candidate_id s) = Some cid ->
  In (SaveConversationLog cid User text) (gateway (fst (prelude inp text s))).
Proof.
  intro Hid. unfold prelude.
  destruct (opening_returns inp s) as (s1 & E1 & F1 & _).
  rewrite (bind_returns _ _ _ _ _ E1). step.
  assert (Hsave : save_message_to_db User text (append_message User text s1)
                  = (log_call (SaveConversationLog cid User text)
                       (append_message User text s1), inr tt)).
  { unfold save_message_to_db. step. session_simpl.
    rewrite (sf_id _ _ F1), Hid. reflexivity. }
  rewrite (bind_returns _ _ _ _ _ Hsave).
  rewrite (capture_keeps_gateway text _). session_simpl.
  apply in_or_app. right. left. reflexivity.
Qed.

End LoggedMessages.

(** X24. Once the candidate is saved, what the user writes is
    logged.  In a session that has a candidate id, every run on a
    message hands that message to the database as a user entry of the
    conversation log under that id, in every phase and however the run
    ends. *)
Theorem user_message_logged_once_saved :
  forall (RT : Runtime) (inp : Inputs) (s : SessionState) (text : string) (cid : Z),
    truthy_id (candidate_id s) = Some cid ->
    prompt inp = Some text -> text <> "" ->
    In (SaveConversationLog cid User text) (gateway (after inp s)).
Proof.
  intros RT inp s text cid Hid Hprompt Hne.
  unfold after. rewrite (main_on_message inp s text (truthy_text_some _ _ Hprompt Hne)).
  assert (Hgrows : stable grows
                     (bind (check_end_keywords text) (fun _ => dispatch inp text))).
  { apply stable_bind; [exact grows_trans | apply check_end_keywords_grows | intro].
    apply dispatch_grows. }
  destruct (Hgrows (fst (prelude inp text s))) as [calls Hcalls].
  rewrite Hcalls. apply in_or_app. left. apply prelude_logs_message, Hid.
Qed.

Lemma user_message_logged_once_saved_witness :
  In (SaveConversationLog 1 User "bye")
     (gateway (@after sample_runtime (say "bye" "") interview_session)).
Proof.
  assert (Hne : "bye" <> "") by discriminate.
  apply (user_message_logged_once_saved sample_runtime (say "bye" "") interview_session
           "bye" 1%Z eq_refl eq_refl Hne).
Defined.

(** * A question is pending throughout the interview *)

Section PendingThroughout.

Context {RT : Runtime}.

Lemma info_branch_returns_on_questions inp text s c' :
  extract_candidate_info text (llm_extraction inp) (candidate_info s) = (c', inr tt) ->
  is_complete c' = true ->
  first_question_error (generate_technical_questions c' (llm_questions inp)) = None ->
  exists s' response, info_branch inp text s = (s', inr response).
Proof.
  intros Hex Hc Herr. unfold info_branch.
  erewrite bind_returns by (rewrite extract_in_session_run, Hex; reflexivity).
  rewrite (bind_returns _ _ _ _ _ (save_candidate_to_db_run inp _)).
  step.
  destruct (saved_same_stage inp (set_candidate_info (fst (c', @inr exn unit tt)) s))
    as (_ & Sc & _).
  simpl in Sc. simpl fst. rewrite Sc, Hc.
  set (s2 := saved inp (set_candidate_info c' s)) in *.
  do 2 step.
  set (qs := generate_technical_questions c' (llm_questions inp)) in *.
  unfold first_question_error in Herr.
  destruct (py_len qs) as [e1|n] eqn:Hlen; [discriminate Herr|].
  destruct (py_getitem qs 0) as [e2|q] eqn:Hget; [discriminate Herr|].
  destruct (truthy_id (candidate_id s2)) as [cid|]; step; rewrite ?bind_assoc;
    (erewrite bind_returns by (unfold lift; reflexivity));
    rewrite ?bind_assoc;
    (erewrite bind_returns by (unfold lift; reflexivity));
    do 3 step;
    match goal with
    | |- context [save_message_to_db ?role ?content] =>
        match goal with
        | |- context [bind (save_message_to_db role content) ?k ?st] =>
            destruct (save_message_to_db_frame role content st) as (s' & E & _);
            rewrite (bind_returns _ _ _ _ _ E)
        end
    end;
    do 2 eexists; reflexivity.
Qed.

(** A run keeps a question pending, unless the interview could not
    start. *)
Lemma run_keeps_question_pending inp s :
  (phase s = TechnicalQuestions ->
   first_question_error (technical_questions s) = None -> question_pending s) ->
  phase (after inp s) = TechnicalQuestions ->
  first_question_error (technical_questions (after inp s)) = None ->
  question_pending (after inp s).
Proof.
  intros Hinv.
  destruct (phase s) eqn:Hph.
  3:{ intros Hph' Herr.
      destruct (interview_run_forward inp s) as [Hq _]; [rewrite Hph; simpl; lia|].
      rewrite Hq in Herr. destruct (Hinv eq_refl Herr) as (n & Hn & Hlt).
      destruct (question_stays_pending inp s n Hph Hn Hlt Hph') as [Hq' Hlt'].
      exists n. rewrite Hq'. auto. }
  3:{ destruct (completed_run inp s Hph) as [F _].
      rewrite (sf_phase _ _ F), Hph. discriminate. }
  all: unfold after;
    destruct (run_cases inp s)
      as [(_ & s1 & _ & E & F) | (text & s1 & _ & _ & F & [(_ & _ & _ & F') | (_ & E)])];
    [ rewrite E; simpl; rewrite (sf_phase _ _ F), Hph; discriminate
    | rewrite (sf_phase _ _ F'); discriminate
    | ];
    assert (Hph1 : phase s1 = Greeting \/ phase s1 = InfoGathering)
      by (rewrite (sf_phase _ _ F), Hph; auto);
    rewrite E, (dispatch_info inp text s1 Hph1), fst_bind_ret;
    destruct (extract_candidate_info text (llm_extraction inp) (candidate_info s1))
      as [c' [e|[]]] eqn:Hex;
    [ rewrite (info_branch_raises inp text s1 c' e Hex); simpl;
      rewrite (sf_phase _ _ F), Hph; discriminate
    | ];
    (destruct (is_complete c') eqn:Hc;
     [ destruct (info_branch_complete inp text s1 c' Hex Hc) as (_ & _ & Hq);
       intros Hph' Herr; rewrite Hq in Herr;
       destruct (info_branch_returns_on_questions inp text s1 c' Hex Hc Herr)
         as (s' & response & E');
       rewrite E' in Hph' |- *; simpl in Hph' |- *;
       apply (info_branch_enters_with_question inp text s1 s' response E' Hph')
     | destruct (info_branch_incomplete inp text s1 c' Hex Hc)
         as (s2 & response & E2 & _ & Hp & _);
       rewrite E2; simpl; rewrite Hp; discriminate ]).
Qed.

End PendingThroughout.

(** X25. A question is pending throughout the interview.  Over any
    sequence of runs from a new session: whenever the session is in the
    technical-questions phase and its question set has a length and a
    first item (so that the interview could start), the question index
    is below the number of questions: there is a question to present. *)
Theorem question_pending_throughout :
  forall (RT : Runtime) (inps : list Inputs),
    phase (run_all inps init_session_state) = TechnicalQuestions ->
    first_question_error (technical_questions (run_all inps init_session_state)) = None ->
    question_pending (run_all inps init_session_state).
Proof.
  intros RT inps.
  assert (Hall : forall s,
             (phase s = TechnicalQuestions ->
              first_question_error (technical_questions s) = None -> question_pending s) ->
             phase (run_all inps s) = TechnicalQuestions ->
             first_question_error (technical_questions (run_all inps s)) = None ->
             question_pending (run_all inps s)).
  { induction inps as [|inp rest IH]; intros s H; simpl; [exact H|].
    apply IH. apply run_keeps_question_pending, H. }
  apply Hall. intro H. discriminate H.
Qed.

Lemma question_pending_throughout_witness :
  question_pending
    (@run_all sample_runtime
       [say "tester" ""; say "Hello there" other_reply; say "I work with Rust" rust_reply;
        say "It depends on the workload" ""]
       init_session_state).
Proof.
  apply (question_pending_throughout sample_runtime
           [say "tester" ""; say "Hello there" other_reply;
            say "I work with Rust" rust_reply; say "It depends on the workload" ""]);
    reflexivity.
Defined.
